(** * A shallow embedding of the WFC-like grid generator (wcf.py, nodes.py)

    The development follows the Python sources:
    - [WFC_Sample] (tile catalog: [prepare], [merge_tuples], [__init__];
      [adjust_image_to_tile_size], [img_to_tile_encoded_world],
      [tile_encoded_to_img]);
    - [WFC_Problem] (world state manager: [update_open_nodes],
      [apply_action], [revert_action], [get_world_state]; cost model;
      temperature controller; [successors]; [get_solution_state]);
    - the run entry point [generate_single] of nodes.py, the nodes
      [WFC_EmptyState] and [WFC_Filter], and the inputs that
      [WFC_GenParallel] prepares for its parallel runs.

    Numbers.  Python [int]s are [Z].  Python and numpy floats are modelled by
    the real numbers [R] of the Standard Library (exact arithmetic, no
    rounding, no inf/nan).  Python exceptions are modelled by the error type
    [exn] and the error monad [result].

    Containers.  A numpy 2-D array is a [shape] and its row-major [data]
    (which is what [tobytes] serialises); a Python [dict] is a [gmap], or an
    association list where the insertion order is observed; the [set] of open
    coordinates is a [gset], so that two sets are equal exactly when they
    have the same members.

    What lies outside the two source files (the blake2b hashes, numpy's
    random generator, the iteration order of a CPython set and the priority
    queue of py_search) is collected in the class [Externals]; every theorem
    holds for all its instances. *)

From Stdlib Require Import ZArith Reals Lra Lia Sorted.
From stdpp Require Import base option list gmap fin_sets.

Abbreviation coord := (Z * Z)%type.

(** ** Exceptions *)

Inductive exn :=
| KeyError | IndexError | TypeError | AttributeError | ZeroDivisionError
| ValueError | AssertionError | LinAlgError | InterruptedError
| InterruptProcessingException | Cv2Error.

Inductive result (A : Type) :=
| Ok (a : A)
| Raise (e : exn).
Arguments Ok {A} a.
Arguments Raise {A} e.

#[global] Instance exn_eq_dec : EqDecision exn.
Proof. solve_decision. Defined.

#[global] Instance result_ret : MRet result := fun A a => Ok a.
#[global] Instance result_bind : MBind result :=
  fun A B f m => match m with Ok a => f a | Raise e => Raise e end.

(** [x = o[k]] on a Python container: a missing key or index raises. *)
Definition from_option {A} (e : exn) (o : option A) : result A :=
  match o with Some a => Ok a | None => Raise e end.

(** A Python [for] loop whose body may raise. *)
Fixpoint foldM {A B} (f : B -> A -> result B) (b : B) (l : list A) : result B :=
  match l with
  | [] => Ok b
  | a :: l => b' ← f b a; foldM f b' l
  end.

Fixpoint mapM {A B} (f : A -> result B) (l : list A) : result (list B) :=
  match l with
  | [] => Ok []
  | a :: l => b ← f a; bs ← mapM f l; Ok (b :: bs)
  end.

(** Decidable comparisons on the reals (classical). *)
#[global] Instance R_eq_dec : EqDecision R := Req_dec_T.
#[global] Instance Rlt_decision (x y : R) : Decision (x < y)%R := Rlt_dec x y.
#[global] Instance Rle_decision (x y : R) : Decision (x <= y)%R := Rle_dec x y.

(** [[l[i] for i in idxs]] for constant, in-range index lists. *)
Definition select {A} (idxs : list nat) (l : list A) : list A :=
  omap (fun i => l !! i) idxs.

(** ** numpy arrays of tile hashes *)

Record ndarray := { shape : Z * Z; data : list Z }.

#[global] Instance ndarray_eq_dec : EqDecision ndarray.
Proof. solve_decision. Defined.

(** numpy index normalisation along one axis of length [n]: negative
    indices count from the end, anything else out of range raises. *)
Definition norm_index (n i : Z) : option Z :=
  if bool_decide (0 ≤ i < n)%Z then Some i
  else if bool_decide (- n ≤ i < 0)%Z then Some (i + n)%Z
  else None.

Definition flat_index (a : ndarray) (pos : coord) : option nat :=
  y ← norm_index (shape a).1 pos.1;
  x ← norm_index (shape a).2 pos.2;
  Some (Z.to_nat (y * (shape a).2 + x)).

(** [a[y, x]] *)
Definition getitem (a : ndarray) (pos : coord) : result Z :=
  from_option IndexError (flat_index a pos ≫= fun i => data a !! i).

(** [a[y, x] = v] *)
Definition setitem (a : ndarray) (pos : coord) (v : Z) : result ndarray :=
  match flat_index a pos with
  | Some i =>
      if bool_decide (i < length (data a))%nat
      then Ok {| shape := shape a; data := <[i:=v]> (data a) |}
      else Raise IndexError
  | None => Raise IndexError
  end.

(** [0 <= _y < a.shape[0] and 0 <= _x < a.shape[1]] *)
Definition in_shape (a : ndarray) (p : coord) : Prop :=
  (0 ≤ p.1 < (shape a).1 ∧ 0 ≤ p.2 < (shape a).2)%Z.

#[global] Instance in_shape_dec a p : Decision (in_shape a p).
Proof. unfold in_shape. apply _. Defined.

(** [np.count_nonzero] and [a.size] *)
Definition count_nonzero (a : ndarray) : Z :=
  Z.of_nat (length (filter (fun v => v ≠ 0%Z) (data a))).
Definition size_of (a : ndarray) : Z := Z.of_nat (length (data a)).

(** [np.zeros(shape)] *)
Definition np_zeros (sh : Z * Z) : ndarray :=
  {| shape := sh; data := replicate (Z.to_nat (sh.1 * sh.2)) 0%Z |}.

Definition range3 : list Z := [0; 1; 2]%Z.

(** ** Search nodes (py_search.base.Node)

    A node holds its identity [state] = (depth, hash of the grid), a link to
    its [parent], the [action] (coordinate, tile) that produced it, its
    [node_cost] and the accumulated entropy [extra]. *)

#[warnings="-register-all"]
Inductive Node := mkNode {
  state : Z * Z;
  parent : option Node;
  action : option (coord * Z);
  node_cost : R;
  extra : R
}.

(** [Node.depth]: the number of parent links up to the root. *)
Fixpoint depth (n : Node) : nat :=
  match parent n with
  | Some p => S (depth p)
  | None => 0
  end.

(** The chain [n; n.parent; ...; root]. *)
Fixpoint ancestors (n : Node) : list Node :=
  n :: match parent n with
       | Some p => ancestors p
       | None => []
       end.

(** Attribute access on a variable that may hold [None]. *)
Definition attr {A} (f : Node -> A) (n : option Node) : result A :=
  match n with Some n => Ok (f n) | None => Raise AttributeError end.

(** The externals: everything the two source files import. *)
Class Externals := {
  (** [int.from_bytes(blake2b(tile.tobytes(), digest_size=4).digest(), "big")] *)
  tile_to_hash : list Z -> Z;
  (** the same digest of [world_state.tobytes()] *)
  world_hash : ndarray -> Z;
  (** [np.random.default_rng(seed)], [rng.random(n)], [rng.integers(low, high)] *)
  Generator : Type;
  default_rng : Z -> Generator;
  rng_random : Generator -> nat -> list R * Generator;
  rng_integers : Generator -> Z -> Z -> Z * Generator;
  (** the order in which CPython iterates over a set of coordinates *)
  set_iter : gset coord -> list coord;
  set_iter_perm : forall s, set_iter s ≡ₚ elements s;
  (** [PriorityQueue.pop] of py_search on the fringe of (value, node) pairs,
      listed in the order of their discovery *)
  fringe_pop : list (R * Node) -> option (Node * list (R * Node));
  fringe_pop_nil : fringe_pop [] = None;
  fringe_pop_perm : forall v n l, exists m l',
      fringe_pop ((v, n) :: l) = Some (m, l') /\
      exists w, (v, n) :: l ≡ₚ (w, m) :: l'
}.

(** ** Tile catalog: class [WFC_Sample] *)

Module WFC_Sample.

(** A sample image as [prepare] sees it after [adjust_image_to_tile_size] and
    the reshape into blocks (cv2 and numpy mechanics): the row-major list of
    its tiles, each tile the list of its pixel bytes, and the size of the
    image in tiles. *)
Record image := {
  img_tiles : list (list Z);
  size_in_tiles : Z * Z;
  channels : Z
}.

(** [tile_data : { tile hashcode : (tile, frequency) }],
    [super_tile_data : [(3x3 matrix of tile hashes, count)]] (each matrix
    flattened row-major), [tile_dims]. *)
Record t := {
  tile_data : gmap Z (list Z * R);
  super_tile_data : list (list Z * Z);
  tile_dims : Z * Z * Z
}.

(** Lexicographic order on rows, as numpy sorts them in [np.unique(axis=0)]. *)
Fixpoint lex_ltb (a b : list Z) : bool :=
  match a, b with
  | [], [] => false
  | [], _ :: _ => true
  | _ :: _, [] => false
  | x :: a, y :: b =>
      if bool_decide (x < y)%Z then true
      else if bool_decide (y < x)%Z then false
      else lex_ltb a b
  end.

Fixpoint insert_count (row : list Z) (l : list (list Z * Z)) : list (list Z * Z) :=
  match l with
  | [] => [(row, 1%Z)]
  | (u, c) :: l' =>
      if bool_decide (row = u) then (u, (c + 1)%Z) :: l'
      else if lex_ltb row u then (row, 1%Z) :: l
      else (u, c) :: insert_count row l'
  end.

(** [np.unique(rows, axis=0, return_counts=True)]: the sorted distinct rows
    with their numbers of occurrences. *)
Definition np_unique (rows : list (list Z)) : list (list Z * Z) :=
  foldr insert_count [] rows.

(** [dict(pairs)]: a later pair with the same key replaces an earlier one. *)
Definition dict_of {V} (pairs : list (Z * V)) : gmap Z V :=
  foldl (fun m kv => <[kv.1 := kv.2]> m) ∅ pairs.

(** [hashed_tiles[y:y + 3, x:x + 3]], flattened. *)
Definition window (hashed_tiles : list Z) (width : Z) (y x : Z) : list Z :=
  dy ← range3; dx ← range3;
  option_list (hashed_tiles !! Z.to_nat ((y + dy) * width + (x + dx))).

(** [range(n)] *)
Definition range (n : Z) : list Z := Z.of_nat <$> seq 0 (Z.to_nat n).

(** [round(a / b)] on two ints: the true quotient, rounded half to even
    (for operands below 2^52 the float quotient rounds as the exact one
    does). *)
Definition py_round_div (a b : Z) : result Z :=
  if bool_decide (b = 0)%Z then Raise ZeroDivisionError
  else
    let '(n, d) := if bool_decide (0 < b)%Z then (a, b) else (- a, - b)%Z in
    let q := (n `div` d)%Z in
    let r := (n `mod` d)%Z in
    Ok (if bool_decide (2 * r < d)%Z then q
        else if bool_decide (d < 2 * r)%Z then (q + 1)%Z
        else if Z.even q then q else (q + 1)%Z).

(** [cv.resize(img, (new_width, new_height))], on the sizes: OpenCV raises
    [cv2.error] on an empty image and on an empty target size. *)
Definition cv_resize (img_shape : Z * Z) (new_width new_height : Z) : result (Z * Z) :=
  if bool_decide (img_shape.1 ≤ 0 ∨ img_shape.2 ≤ 0
                  ∨ new_width ≤ 0 ∨ new_height ≤ 0)%Z
  then Raise Cv2Error
  else Ok (new_height, new_width).

(** [adjust_image_to_tile_size], on the height and the width of the image:
    the height and the width of the adjusted image, and the height and the
    width in tiles.  The image is resized by [cv.resize], or copied as it is
    when its sides are whole numbers of tiles already. *)
Definition adjust_image_to_tile_size (img_shape : Z * Z) (tile_height tile_width : Z)
  : result ((Z * Z) * Z * Z) :=
  height_in_tiles ← py_round_div img_shape.1 tile_height;
  width_in_tiles ← py_round_div img_shape.2 tile_width;
  let new_height := (tile_height * height_in_tiles)%Z in
  let new_width := (tile_width * width_in_tiles)%Z in
  adjusted_image ←
    (if bool_decide (new_height ≠ img_shape.1 ∨ new_width ≠ img_shape.2)
     then cv_resize img_shape new_width new_height
     else Ok img_shape);
  Ok (adjusted_image, height_in_tiles, width_in_tiles).

Section with_externals.
Context `{Externals}.

Definition prepare (src_img : image) (tile_width tile_height : Z)
  : gmap Z (list Z * R) * list (list Z * Z) * (Z * Z * Z) :=
  let tiles := img_tiles src_img in
  let uniq := np_unique tiles in
  let tiles_data :=
    dict_of ((fun uc : list Z * Z =>
                (tile_to_hash uc.1,
                 (uc.1, (IZR uc.2 / IZR (Z.of_nat (length tiles)))%R))) <$> uniq) in
  let hashed_tiles := tile_to_hash <$> tiles in
  let super_tiles :=
    y ← range ((size_in_tiles src_img).1 - 2);
    x ← range ((size_in_tiles src_img).2 - 2);
    [window hashed_tiles (size_in_tiles src_img).2 y x] in
  (tiles_data, np_unique super_tiles, (tile_height, tile_width, channels src_img)).

(** [result_dict[key] += value] on a [defaultdict(int)], keeping the
    insertion order of the keys. *)
Fixpoint defaultdict_add {K} `{EqDecision K} (key : K) (value : Z)
    (d : list (K * Z)) : list (K * Z) :=
  match d with
  | [] => [(key, value)]
  | (k, c) :: d' =>
      if bool_decide (key = k) then (k, (c + value)%Z) :: d'
      else (k, c) :: defaultdict_add key value d'
  end.

(** [np.array(key).reshape(shape)] on a flattened pattern: the number of
    entries must be that of the shape. *)
Definition np_reshape (size : nat) (key : list Z) : result (list Z) :=
  if bool_decide (length key = size) then Ok key else Raise ValueError.

(** The patterns are kept flattened, so that of the shape of [list1[0][0]]
    only the number of entries is observed. *)
Definition merge_tuples (list1 list2 : list (list Z * Z))
  : result (list (list Z * Z)) :=
  first ← from_option IndexError (head list1);
  let shape := length first.1 in
  let result_dict :=
    foldl (fun d kv => defaultdict_add kv.1 kv.2 d) [] (list1 ++ list2) in
  mapM (fun kv : list Z * Z => key ← np_reshape shape kv.1; Ok (key, kv.2))
       result_dict.

(** The dict comprehension of [__init__]:
    [{k: (v[0], self.tile_data.get(k, (None, 0))[1] + v[1])
      for k, v in {**self.tile_data, **r_tile_data}.items()}] *)
Definition merge_tile_data (tile_data r_tile_data : gmap Z (list Z * R))
  : gmap Z (list Z * R) :=
  map_imap (fun k v =>
              Some (v.1, (default 0%R (snd <$> tile_data !! k) + v.2)%R))
           (r_tile_data ∪ tile_data).

(** The loop [for img in src_imgs[1:]]. *)
Fixpoint merge_images (imgs : list image) (cell_width cell_height : Z) (self : t)
  : result t :=
  match imgs with
  | [] => Ok self
  | img :: imgs =>
      let '(r_tile_data, r_super_tile_data, _) := prepare img cell_width cell_height in
      let td := merge_tile_data (tile_data self) r_tile_data in
      std ← merge_tuples (super_tile_data self) r_super_tile_data;
      merge_images imgs cell_width cell_height
        {| tile_data := td; super_tile_data := std; tile_dims := tile_dims self |}
  end.

Definition __init__ (src_imgs : list image) (cell_width cell_height : Z) : result t :=
  img0 ← from_option IndexError (head src_imgs);
  let '(td, std, dims) := prepare img0 cell_width cell_height in
  merge_images (tail src_imgs) cell_width cell_height
    {| tile_data := td; super_tile_data := std; tile_dims := dims |}.

(** [img_to_tile_encoded_world]: the hash of each tile of the image, 0
    where the catalog does not know it. *)
Definition img_to_tile_encoded_world (self : t) (src_img : image) : ndarray :=
  let hashed_world := tile_to_hash <$> img_tiles src_img in
  {| shape := size_in_tiles src_img;
     data := (fun tile => if bool_decide (is_Some (tile_data self !! tile))
                          then tile else 0%Z) <$> hashed_world |}.

(** [tile_encoded_to_img]: the image, tile by tile, and the value of the
    mask over each tile (0 over a known tile, 255 elsewhere). *)
Definition tile_encoded_to_img (self : t) (src_state : ndarray) : image * list Z :=
  let '(th, tw, ch) := tile_dims self in
  let blocks :=
    (fun hashcode =>
       match tile_data self !! hashcode with
       | Some (tile, _) => (tile, 0%Z)
       | None => (replicate (Z.to_nat (th * tw * ch)) 0%Z, 255%Z)
       end) <$> data src_state in
  ({| img_tiles := blocks.*1; size_in_tiles := shape src_state; channels := ch |},
   blocks.*2).

End with_externals.

End WFC_Sample.

(** ** Search problem: class [WFC_Problem] *)

Module WFC_Problem.

(** *** World State Manager *)

(** The part of a [WFC_Problem] object that [apply_action] and
    [revert_action] mutate: the shared grid, the occurrence counters and the
    set of open coordinates (the frontier). *)
Record World := {
  _temp_world_state : ndarray;
  _tile_counts : gmap Z Z;
  _temp_world_open_super_tiles : gset coord
}.

#[global] Instance World_eq_dec : EqDecision World.
Proof. solve_decision. Defined.

(** [[(y - 1 + _y, x - 1 + _x) for _y in range(3) for _x in range(3)
      if _y != 1 or _x != 1]] *)
Definition indices_around (y x : Z) : list coord :=
  _y ← range3; _x ← range3;
  if bool_decide (_y ≠ 1 ∨ _x ≠ 1)%Z then [(y - 1 + _y, x - 1 + _x)%Z] else [].

(** [[(_y - 1 + __y, _x - 1 + __x) for __y in range(3) for __x in range(3)]] *)
Definition block_around (y x : Z) : list coord :=
  _y ← range3; _x ← range3; [(y - 1 + _y, x - 1 + _x)%Z].

Definition indices_to_check (use_8cardinals : bool) (a : ndarray) (y x : Z)
  : list coord :=
  let l := indices_around y x in
  let l := if use_8cardinals then l else select [1; 3; 4; 6]%nat l in
  filter (in_shape a) l.

Definition sub_indices_to_check (use_8cardinals : bool) (a : ndarray) (y x : Z)
  : list coord :=
  let l := block_around y x in
  let l := if use_8cardinals then l else select [1; 3; 5; 7]%nat l in
  filter (in_shape a) l.

(** [any(a[__y, __x] != 0 for (__y, __x) in ps)] *)
Fixpoint any_decided (a : ndarray) (ps : list coord) : result bool :=
  match ps with
  | [] => Ok false
  | p :: ps =>
      v ← getitem a p;
      if bool_decide (v ≠ 0%Z) then Ok true else any_decided a ps
  end.

(** [s.remove(p)] *)
Definition set_remove (p : coord) (s : gset coord) : result (gset coord) :=
  if bool_decide (p ∈ s) then Ok (s ∖ {[p]}) else Raise KeyError.

(** One iteration of the loop of the reopening branch. *)
Definition reopen_step (use_8cardinals : bool) (a : ndarray)
    (wost : gset coord) (p : coord) : result (gset coord) :=
  if bool_decide (p ∈ wost) then
    b ← any_decided a (sub_indices_to_check use_8cardinals a p.1 p.2);
    if (b : bool) then Ok wost else set_remove p wost
  else Ok wost.

(** One iteration of the loop of the closing branch. *)
Definition close_step (a : ndarray) (wost : gset coord) (p : coord)
  : result (gset coord) :=
  v ← getitem a p;
  if bool_decide (v = 0%Z) then Ok ({[p]} ∪ wost) else Ok wost.

Definition update_open_nodes (use_8cardinals : bool) (y x : Z)
    (is_reopening : bool) (w : World) : result World :=
  let a := _temp_world_state w in
  let wost := _temp_world_open_super_tiles w in
  let idx := indices_to_check use_8cardinals a y x in
  wost' ← (if is_reopening
           then foldM (reopen_step use_8cardinals a) ({[(y, x)]} ∪ wost) idx
           else wost1 ← set_remove (y, x) wost; foldM (close_step a) wost1 idx);
  Ok {| _temp_world_state := a;
        _tile_counts := _tile_counts w;
        _temp_world_open_super_tiles := wost' |}.

(** [d[k] += delta] on a plain [dict]. *)
Definition dict_add (k delta : Z) (d : gmap Z Z) : result (gmap Z Z) :=
  c ← from_option KeyError (d !! k); Ok (<[k := (c + delta)%Z]> d).

Definition revert_action (use_8cardinals : bool)
    (node_action : option (coord * Z)) (w : World) : result World :=
  '(pos, _) ← from_option TypeError node_action;
  k ← getitem (_temp_world_state w) pos;
  counts ← dict_add k (-1) (_tile_counts w);
  a ← setitem (_temp_world_state w) pos 0;
  update_open_nodes use_8cardinals pos.1 pos.2 true
    {| _temp_world_state := a;
       _tile_counts := counts;
       _temp_world_open_super_tiles := _temp_world_open_super_tiles w |}.

Definition apply_action (use_8cardinals : bool)
    (node_action : option (coord * Z)) (w : World) : result World :=
  '(pos, tile) ← from_option TypeError node_action;
  a ← setitem (_temp_world_state w) pos tile;
  counts ← dict_add tile 1 (_tile_counts w);
  update_open_nodes use_8cardinals pos.1 pos.2 false
    {| _temp_world_state := a;
       _tile_counts := counts;
       _temp_world_open_super_tiles := _temp_world_open_super_tiles w |}.

(** [get_world_state]: the loops of the source, one function per loop.  The
    loop variables [p_node] and [c_node] may hold [None] once the root's
    parent has been taken. *)

(** [for _ in range(n): self.revert_action(p_node.action); p_node = p_node.parent] *)
Fixpoint revert_path (use_8cardinals : bool) (n : nat) (p_node : option Node)
    (w : World) : result (option Node * World) :=
  match n with
  | O => Ok (p_node, w)
  | S n =>
      a ← attr action p_node;
      w' ← revert_action use_8cardinals a w;
      p' ← attr parent p_node;
      revert_path use_8cardinals n p' w'
  end.

(** [for _ in range(n): c_node = c_node.parent] *)
Fixpoint climb (n : nat) (c_node : option Node) : result (option Node) :=
  match n with
  | O => Ok c_node
  | S n => c' ← attr parent c_node; climb n c'
  end.

(** [for i in range(start_depth + 1)[::-1]: ...], entered with
    [k = start_depth + 1]; the result is [common_depth] (0 when the loop runs
    out without a [break]). *)
Fixpoint find_common (use_8cardinals : bool) (k : nat)
    (p_node c_node : option Node) (w : World) : result (nat * World) :=
  match k with
  | O => Ok (O, w)
  | S i =>
      ps ← attr state p_node;
      cs ← attr state c_node;
      if bool_decide (ps = cs) then Ok (i, w)
      else
        a ← attr action p_node;
        w' ← revert_action use_8cardinals a w;
        p' ← attr parent p_node;
        c' ← attr parent c_node;
        find_common use_8cardinals i p' c' w'
  end.

(** [for _ in range(n): nodes_to_apply.append(c_node); c_node = c_node.parent] *)
Fixpoint nodes_to_apply (n : nat) (c_node : option Node)
  : result (list (option Node)) :=
  match n with
  | O => Ok []
  | S n =>
      c' ← attr parent c_node;
      l ← nodes_to_apply n c';
      Ok (c_node :: l)
  end.

Definition get_world_state (use_8cardinals : bool) (last_node current_node : Node)
    (w : World) : result World :=
  let start_depth := Nat.min (depth last_node) (depth current_node) in
  '(p_node, w1) ← revert_path use_8cardinals (depth last_node - start_depth)
                    (Some last_node) w;
  c_node ← climb (depth current_node - start_depth) (Some current_node);
  '(common_depth, w2) ← find_common use_8cardinals (S start_depth) p_node c_node w1;
  nodes ← nodes_to_apply (depth current_node - common_depth) (Some current_node);
  foldM (fun w node => a ← attr action node; apply_action use_8cardinals a w)
        w2 (reverse nodes).

(** The world a node stands for: the actions on the path from the root to
    the node, applied in that order to the world of the root. *)
Fixpoint world_of (use_8cardinals : bool) (w0 : World) (n : Node) : result World :=
  match parent n with
  | None => Ok w0
  | Some p =>
      w ← world_of use_8cardinals w0 p;
      apply_action use_8cardinals (action n) w
  end.

(** The sum of the occurrence counters over all tile hashes. *)
Definition sum_counts (counts : gmap Z Z) : Z :=
  map_fold (fun _ c acc => (c + acc)%Z) 0%Z counts.

(** *** The problem object

    The attributes of a [WFC_Problem] instance are split into those that
    [__init__] fixes once ([Setup]) and those that the search mutates
    ([State]).  [polls] counts the reads of the cancellation proxy so far: a
    proxy is a function from that count to the value read. *)

Section with_externals.
Context `{Externals}.

Record Kwargs := {
  sample : WFC_Sample.t;
  starting_state : ndarray;
  seed : Z;
  use_8_cardinals : bool;
  max_freq_adjust : R;
  plateau_check_interval : Z;
  starting_temperature : R;
  min_min_temperature : R;
  max_min_temperature : R;
  reverse_depth_w : R;
  node_cost_w : R;
  path_entropy_average_w : R;
  stop_proxy : option (nat -> bool);
  ticker_proxy : option Z
}.

Record Setup := {
  initial : Node;
  _stop_proxy : option (nat -> bool);
  _sample : WFC_Sample.t;
  _number_of_tiles_to_process : Z;
  _world_tdims : Z * Z;
  _starting_state : option ndarray;
  _min_min_temperature : R;
  _max_min_temperature : R;
  _rev_depth_w : R;
  _node_cost_w : R;
  _path_ent_avg_w : R;
  _plateau_stop_steps : R;
  _use_8cardinals : bool;
  _max_freq_adjust : R;
  _tile_freq_adjustment_poly : R * R * R
}.

Record State := {
  world : World;
  rng : Generator;
  _min_temperature : R;
  _best_node : option Node;
  _prev_best_depth : nat;
  _last_node : option Node;
  _plateau_check_ticker : Z;
  _stop : bool;
  _ticker_proxy : option Z;
  polls : nat
}.

Definition set_world (w : World) (s : State) : State :=
  {| world := w; rng := rng s; _min_temperature := _min_temperature s;
     _best_node := _best_node s; _prev_best_depth := _prev_best_depth s;
     _last_node := _last_node s; _plateau_check_ticker := _plateau_check_ticker s;
     _stop := _stop s; _ticker_proxy := _ticker_proxy s; polls := polls s |}.

Definition set_rng (g : Generator) (s : State) : State :=
  {| world := world s; rng := g; _min_temperature := _min_temperature s;
     _best_node := _best_node s; _prev_best_depth := _prev_best_depth s;
     _last_node := _last_node s; _plateau_check_ticker := _plateau_check_ticker s;
     _stop := _stop s; _ticker_proxy := _ticker_proxy s; polls := polls s |}.

Definition set_min_temperature (x : R) (s : State) : State :=
  {| world := world s; rng := rng s; _min_temperature := x;
     _best_node := _best_node s; _prev_best_depth := _prev_best_depth s;
     _last_node := _last_node s; _plateau_check_ticker := _plateau_check_ticker s;
     _stop := _stop s; _ticker_proxy := _ticker_proxy s; polls := polls s |}.

Definition set_best_node (n : Node) (s : State) : State :=
  {| world := world s; rng := rng s; _min_temperature := _min_temperature s;
     _best_node := Some n; _prev_best_depth := _prev_best_depth s;
     _last_node := _last_node s; _plateau_check_ticker := _plateau_check_ticker s;
     _stop := _stop s; _ticker_proxy := _ticker_proxy s; polls := polls s |}.

Definition set_prev_best_depth (d : nat) (s : State) : State :=
  {| world := world s; rng := rng s; _min_temperature := _min_temperature s;
     _best_node := _best_node s; _prev_best_depth := d;
     _last_node := _last_node s; _plateau_check_ticker := _plateau_check_ticker s;
     _stop := _stop s; _ticker_proxy := _ticker_proxy s; polls := polls s |}.

Definition set_last_node (n : Node) (s : State) : State :=
  {| world := world s; rng := rng s; _min_temperature := _min_temperature s;
     _best_node := _best_node s; _prev_best_depth := _prev_best_depth s;
     _last_node := Some n; _plateau_check_ticker := _plateau_check_ticker s;
     _stop := _stop s; _ticker_proxy := _ticker_proxy s; polls := polls s |}.

Definition set_plateau_check_ticker (k : Z) (s : State) : State :=
  {| world := world s; rng := rng s; _min_temperature := _min_temperature s;
     _best_node := _best_node s; _prev_best_depth := _prev_best_depth s;
     _last_node := _last_node s; _plateau_check_ticker := k;
     _stop := _stop s; _ticker_proxy := _ticker_proxy s; polls := polls s |}.

Definition set_stop (b : bool) (s : State) : State :=
  {| world := world s; rng := rng s; _min_temperature := _min_temperature s;
     _best_node := _best_node s; _prev_best_depth := _prev_best_depth s;
     _last_node := _last_node s; _plateau_check_ticker := _plateau_check_ticker s;
     _stop := b; _ticker_proxy := _ticker_proxy s; polls := polls s |}.

(** [if self._ticker_proxy is not None:
       self._ticker_proxy.set(self._ticker_proxy.get() + k)] *)
Definition tick (k : Z) (s : State) : State :=
  {| world := world s; rng := rng s; _min_temperature := _min_temperature s;
     _best_node := _best_node s; _prev_best_depth := _prev_best_depth s;
     _last_node := _last_node s; _plateau_check_ticker := _plateau_check_ticker s;
     _stop := _stop s; _ticker_proxy := (fun v => (v + k)%Z) <$> _ticker_proxy s;
     polls := polls s |}.

(** One read of the cancellation proxy. *)
Definition polled (s : State) : State :=
  {| world := world s; rng := rng s; _min_temperature := _min_temperature s;
     _best_node := _best_node s; _prev_best_depth := _prev_best_depth s;
     _last_node := _last_node s; _plateau_check_ticker := _plateau_check_ticker s;
     _stop := _stop s; _ticker_proxy := _ticker_proxy s; polls := S (polls s) |}.

(** [np.linalg.solve(a, b)] for a 3x3 system, on exact reals (Cramer's
    rule): the unique solution, [LinAlgError] when [a] is singular. *)
Definition det3 (m : (R * R * R) * (R * R * R) * (R * R * R)) : R :=
  let '((a, b, c), (d, e, f), (g, h, i)) := m in
  (a * (e * i - f * h) - b * (d * i - f * g) + c * (d * h - e * g))%R.

Definition linalg_solve (m : (R * R * R) * (R * R * R) * (R * R * R))
    (v : R * R * R) : result (R * R * R) :=
  let '((a, b, c), (d, e, f), (g, h, i)) := m in
  let '(p, q, r) := v in
  let dt := det3 m in
  if bool_decide (dt = 0%R) then Raise LinAlgError
  else Ok ((det3 ((p, b, c), (q, e, f), (r, h, i)) / dt)%R,
           (det3 ((a, p, c), (d, q, f), (g, r, i)) / dt)%R,
           (det3 ((a, b, p), (d, e, q), (g, h, r)) / dt)%R).

(** [np.poly1d(coefficients)(x)], highest degree first. *)
Definition poly1d (c : R * R * R) (x : R) : R :=
  let '(c2, c1, c0) := c in (c2 * x * x + c1 * x + c0)%R.

Definition __init__ (kw : Kwargs) : result (Setup * State) :=
  let initial := mkNode (0, 0)%Z None None 0%R 0%R in
  let non_zeroes := count_nonzero (starting_state kw) in
  let number_of_tiles_to_process := (size_of (starting_state kw) - non_zeroes)%Z in
  let world_tdims := shape (starting_state kw) in
  let plateau_stop_steps :=
    if bool_decide (plateau_check_interval kw = -1)%Z
    then (IZR (world_tdims.1 * world_tdims.2) / 2)%R
    else IZR (plateau_check_interval kw) in
  let tile_counts := (fun _ => 0%Z) <$> WFC_Sample.tile_data (sample kw) in
  let t := IZR number_of_tiles_to_process in
  poly ← linalg_solve ((0, 0, 1), (t * t, t, 1), ((t / 2) * (t / 2), t / 2, 1))%R
                      (t, t, 0%R);
  Ok ({| initial := initial;
         _stop_proxy := stop_proxy kw;
         _sample := sample kw;
         _number_of_tiles_to_process := number_of_tiles_to_process;
         _world_tdims := world_tdims;
         _starting_state :=
           if bool_decide (non_zeroes > 0)%Z then Some (starting_state kw) else None;
         _min_min_temperature := min_min_temperature kw;
         _max_min_temperature := max_min_temperature kw;
         _rev_depth_w := reverse_depth_w kw;
         _node_cost_w := node_cost_w kw;
         _path_ent_avg_w := path_entropy_average_w kw;
         _plateau_stop_steps := plateau_stop_steps;
         _use_8cardinals := use_8_cardinals kw;
         _max_freq_adjust := max_freq_adjust kw;
         _tile_freq_adjustment_poly := poly |},
      {| world := {| _temp_world_state := starting_state kw;
                     _tile_counts := tile_counts;
                     _temp_world_open_super_tiles := ∅ |};
         rng := default_rng (seed kw);
         _min_temperature := starting_temperature kw;
         _best_node := None;
         _prev_best_depth := 0;
         _last_node := None;
         _plateau_check_ticker := 0;
         _stop := false;
         _ticker_proxy := ticker_proxy kw;
         polls := 0 |}).

(** *** Temperature Controller *)

(** [x ** y] for a base [x >= 0]. *)
Definition float_pow (x y : R) : R :=
  if bool_decide (x = 0%R) then (if bool_decide (y = 0%R) then 1%R else 0%R)
  else Rpower x y.

(** The [lru_cache] only memoizes this pure function. *)
Definition temp_ratio (self : Setup) (node_depth prior_node_depth : Z) : result R :=
  let depth_diff := (prior_node_depth - node_depth)%Z in
  if bool_decide (_number_of_tiles_to_process self = 0)%Z then Raise ZeroDivisionError
  else
    let depth_ratio := (IZR node_depth / IZR (_number_of_tiles_to_process self))%R in
    Ok (if bool_decide (depth_diff ≠ 0)%Z
        then Rmin (9 / 10)
               (IZR (Z.abs depth_diff * 3) / sqrt (IZR (_number_of_tiles_to_process self)))
        else (float_pow depth_ratio (5 / 2) / 80)%R).

Definition get_new_temperature (self : Setup) (min_temperature : R)
    (node_depth prior_node_depth : Z) : result R :=
  let limit := if bool_decide (node_depth ≤ prior_node_depth)%Z
               then _max_min_temperature self else _min_min_temperature self in
  ratio ← temp_ratio self node_depth prior_node_depth;
  Ok (limit * ratio + min_temperature * (1 - ratio))%R.

Definition _tile_freq_adjustment_func (self : Setup) (depth : Z) : R :=
  (_max_freq_adjust self *
   (1 - poly1d (_tile_freq_adjustment_poly self) (IZR depth)
        / IZR (_number_of_tiles_to_process self)))%R.

(** *** Adjacency Query *)

(** [is_possible(super_tile)]: every non-zero entry of the 3x3 query equals
    the entry of the pattern at that position. *)
Definition is_possible (tiles super_tile : list Z) : bool :=
  forallb (fun ts : Z * Z => bool_decide (ts.1 = 0%Z) || bool_decide (ts.2 = ts.1))
          (zip tiles super_tile).

Definition map_to_probabilities (pcs : list (Z * Z)) : result (list Z * list R) :=
  if bool_decide (length pcs = 0%nat) then Ok ([], [])
  else
    let counts := snd <$> pcs in
    let total_counts := IZR (foldr Z.add 0%Z counts) in
    let probabilities := (fun c => (IZR c / total_counts)%R) <$> counts in
    (* assert np.sum(probabilities > 1) == 0 *)
    if bool_decide (Exists (fun p => (1 < p)%R) probabilities) then Raise AssertionError
    else Ok (fst <$> pcs, probabilities).

(** The loop over [get_super_tile_data()] filling [pcs]; [stile[1, 1]] is the
    entry 4 of the flattened pattern. *)
Definition filter_super_tiles (self : Setup) (tiles : list Z) : list (Z * Z) :=
  foldl (fun pcs sc =>
           if is_possible tiles sc.1
           then WFC_Sample.defaultdict_add (default 0%Z (sc.1 !! 4%nat)) sc.2 pcs
           else pcs)
        [] (WFC_Sample.super_tile_data (_sample self)).

(** The [cache] only memoizes these pure functions. *)
Definition get_cell_potential_states_8cardinals (self : Setup)
    (p1 p2 p3 p4 p6 p7 p8 p9 : Z) : result (list Z * list R) :=
  map_to_probabilities
    (filter_super_tiles self [p1; p2; p3; p4; 0%Z; p6; p7; p8; p9]).

Definition get_cell_potential_states_4cardinals (self : Setup)
    (p2 p4 p6 p8 : Z) : result (list Z * list R) :=
  map_to_probabilities
    (filter_super_tiles self [0%Z; p2; 0%Z; p4; 0%Z; p6; 0%Z; p8; 0%Z]).

(** *** Cost Model *)

(** [int(x)]: truncation towards zero. *)
Definition float_to_int (x : R) : Z :=
  if bool_decide (0 <= x)%R then Int_part x else (- Int_part (- x))%Z.

(** [np.sign], [np.clip(x, 0, 1)], [np.log2] *)
Definition np_sign (x : R) : R :=
  if bool_decide (0 < x)%R then 1%R else if bool_decide (x < 0)%R then (-1)%R else 0%R.
Definition np_clip01 (x : R) : R := Rmin (Rmax x 0) 1.
Definition np_log2 (x : R) : R := (ln x / ln 2)%R.

Definition get_cell_potential_states_and_costs (self : Setup) (s : State)
    (y x : Z) (world_state : ndarray) (depth : nat)
  : result ((list Z * option (list R) * option R) * Generator) :=
  let world_indices_to_check := indices_around y x in
  adjacent_states ← mapM (fun p => if bool_decide (in_shape world_state p)
                                   then getitem world_state p else Ok 0%Z)
                         world_indices_to_check;
  '(tiles, probabilities) ←
    (if _use_8cardinals self then
       match adjacent_states with
       | [p1; p2; p3; p4; p6; p7; p8; p9] =>
           get_cell_potential_states_8cardinals self p1 p2 p3 p4 p6 p7 p8 p9
       | _ => Raise TypeError
       end
     else
       match select [1; 3; 4; 6]%nat adjacent_states with
       | [p2; p4; p6; p8] => get_cell_potential_states_4cardinals self p2 p4 p6 p8
       | _ => Raise TypeError
       end);
  if bool_decide (length tiles = 0%nat) then Ok (([], None, None), rng s)
  else
    (* generate random weights and temperature *)
    let '(rands, g1) := rng_random (rng s) (length probabilities) in
    let low := float_to_int (_min_temperature s) in
    if bool_decide (100 ≤ low)%Z then Raise ValueError
    else
      let '(i, g2) := rng_integers g1 low 100 in
      let temp := (1 - IZR i / 100)%R in
      (* tile type freq in original samples and in current generation *)
      sample_freqs ←
        mapM (fun t => from_option KeyError
                         (snd <$> WFC_Sample.tile_data (_sample self) !! t)) tiles;
      current_counts ←
        mapM (fun t => from_option KeyError (_tile_counts (world s) !! t)) tiles;
      let current_freqs :=
        (fun c => (IZR c / IZR (Z.max 1 (Z.of_nat depth)))%R) <$> current_counts in
      let adjusted_freqs_diff :=
        if bool_decide (_max_freq_adjust self = 0%R)
        then (fun _ => 0%R) <$> probabilities
        else
          let depth_adjustment := _tile_freq_adjustment_func self (Z.of_nat depth) in
          (fun sc : R * R =>
             (np_sign (sc.1 - sc.2) * (1 - Rmin sc.1 sc.2 / Rmax sc.1 sc.2)
              * depth_adjustment)%R) <$> zip sample_freqs current_freqs in
      let entropy :=
        if bool_decide (1 < length probabilities)%nat
        then (- foldr Rplus 0 ((fun p => p * np_log2 p) <$> probabilities)
              / np_log2 (INR (length probabilities)))%R
        else 0%R in
      let costs :=
        (fun par : R * R * R =>
           let '(p, a, r) := par in
           ((1 - np_clip01 (p + a * temp + (r * 2 - 1) * temp)) * entropy)%R)
          <$> zip (zip probabilities adjusted_freqs_diff) rands in
      Ok ((tiles, Some costs, Some entropy), g2).

Definition node_value (self : Setup) (node : Node) : R :=
  let rev_depth := IZR (1 + _number_of_tiles_to_process self - Z.of_nat (depth node)) in
  let path_avg_entropy := (extra node / IZR (1 + Z.of_nat (depth node)))%R in
  (rev_depth * _rev_depth_w self + node_cost node * _node_cost_w self
   + path_avg_entropy * _path_ent_avg_w self)%R.

(** *** Search Engine *)

Definition open_nodes_on_depth_zero (self : Setup) (w : World) : result World :=
  match _starting_state self with
  | None =>
      (* open center tile *)
      Ok {| _temp_world_state := _temp_world_state w;
            _tile_counts := _tile_counts w;
            _temp_world_open_super_tiles :=
              {[ ((_world_tdims self).1 `div` 2, (_world_tdims self).2 `div` 2)%Z ]}
              ∪ _temp_world_open_super_tiles w |}
  | Some starting =>
      let relative_indices_to_check : list coord :=
        _y ← range3; _x ← range3;
        if bool_decide (_y ≠ 1 ∨ _x ≠ 1)%Z then [(_y, _x)] else [] in
      let relative_indices_to_check :=
        if _use_8cardinals self then relative_indices_to_check
        else select [1; 3; 4; 6]%nat relative_indices_to_check in
      (* for (y, x), tile in np.ndenumerate(self._starting_state) *)
      let cells : list coord :=
        y ← WFC_Sample.range (shape starting).1;
        x ← WFC_Sample.range (shape starting).2; [(y, x)] in
      wost ← foldM (fun wost yx =>
                tile ← getitem starting yx;
                if bool_decide (tile ≠ 0%Z) then Ok wost
                else
                  let indices_to_check :=
                    filter (in_shape (_temp_world_state w))
                      ((fun r : coord => (yx.1 + r.1, yx.2 + r.2)%Z)
                         <$> relative_indices_to_check) in
                  b ← any_decided starting indices_to_check;
                  Ok (if (b : bool) then {[yx]} ∪ wost else wost))
              (_temp_world_open_super_tiles w) cells;
      Ok {| _temp_world_state := _temp_world_state w;
            _tile_counts := _tile_counts w;
            _temp_world_open_super_tiles := wost |}
  end.

(** The body of the innermost loop of [successors]: place the tile, hash the
    grid, reset the cell, yield the child. *)
Definition yield_child (node : Node) (depth : nat) (cum_entropy entropy : R)
    (yx : coord) (acc : ndarray * list Node) (item : Z * R)
  : result (ndarray * list Node) :=
  let '(tile_type, cost) := item in
  a1 ← setitem acc.1 yx tile_type;
  let world_state_hash := world_hash a1 in
  a2 ← setitem a1 yx 0%Z;
  Ok (a2, acc.2 ++ [mkNode (Z.of_nat depth + 1, world_state_hash)%Z (Some node)
                           (Some (yx, tile_type)) cost (cum_entropy + entropy)%R]).

(** The loop [for (y, x), (potential_states, costs, entropy) in
    zip(iyxs, potential_collapses)]. *)
Definition yield_children (node : Node) (depth : nat) (cum_entropy : R)
    (world_state : ndarray)
    (cells : list (coord * (list Z * option (list R) * option R)))
  : result (ndarray * list Node) :=
  foldM (fun acc cell =>
           let '(yx, (potential_states, costs, entropy)) := cell in
           foldM (yield_child node depth cum_entropy (default 0%R entropy) yx) acc
                 (zip potential_states (default [] costs)))
        (world_state, []) cells.

(** The list comprehension computing [potential_collapses]; the generator
    state is threaded through the calls. *)
Fixpoint potential_collapses (self : Setup) (s : State) (world_state : ndarray)
    (depth : nat) (iyxs : list coord)
  : result (list (list Z * option (list R) * option R) * Generator) :=
  match iyxs with
  | [] => Ok ([], rng s)
  | (y, x) :: iyxs =>
      '(c, g) ← get_cell_potential_states_and_costs self s y x world_state depth;
      '(cs, g') ← potential_collapses self (set_rng g s) world_state depth iyxs;
      Ok (c :: cs, g')
  end.

(** The first part of [successors]: bring the shared world to the node. *)
Definition synchronise (self : Setup) (node : Node) (s : State)
  : result (R * State) :=
  if bool_decide (depth node = 0%nat) then
    w ← open_nodes_on_depth_zero self (world s);
    Ok (0%R, set_last_node node (set_world w (set_best_node node s)))
  else
    last_node ← from_option AttributeError (_last_node s);
    w ← get_world_state (_use_8cardinals self) last_node node (world s);
    temperature ← get_new_temperature self (_min_temperature s)
                     (Z.of_nat (depth node)) (Z.of_nat (depth last_node));
    parent_node ← from_option AttributeError (parent node);
    Ok (extra parent_node,
        set_last_node node (set_min_temperature temperature (set_world w s))).

(** The last part of [successors]: costs of the open cells and children. *)
Definition expand (self : Setup) (node : Node) (cum_entropy : R) (s : State)
  : result (list Node * State) :=
  let world_state := _temp_world_state (world s) in
  let iyxs := set_iter (_temp_world_open_super_tiles (world s)) in
  '(collapses, g) ← potential_collapses self s world_state (depth node) iyxs;
  let s := set_rng g s in
  if bool_decide (length collapses = 0%nat)
     || existsb (fun c : list Z * option (list R) * option R =>
                   bool_decide (c.1.2 = None)) collapses
  then Ok ([], s)  (* this state is impossible: no children *)
  else
    '(world_state', children) ←
      yield_children node (depth node) cum_entropy world_state (zip iyxs collapses);
    Ok (children,
        set_world {| _temp_world_state := world_state';
                     _tile_counts := _tile_counts (world s);
                     _temp_world_open_super_tiles :=
                       _temp_world_open_super_tiles (world s) |} s).

(** The plateau check of [successors].  [inl] stands for the early
    [return] with the stop flag set. *)
Definition plateau_check (self : Setup) (s : State) : result (State + State) :=
  if bool_decide (0 < _plateau_stop_steps self)%R then
    let s := set_plateau_check_ticker (_plateau_check_ticker s + 1) s in
    if bool_decide (_plateau_stop_steps self <= IZR (_plateau_check_ticker s))%R then
      best ← from_option AttributeError (_best_node s);
      if bool_decide (_prev_best_depth s = depth best)
      then Ok (inl (tick (_number_of_tiles_to_process self - Z.of_nat (depth best))
                         (set_stop true s)))
      else Ok (inr (set_prev_best_depth (depth best) (set_plateau_check_ticker 0 s)))
    else Ok (inr s)
  else Ok (inr s).

(** What one call of [successors] (run to the end of its generator) does:
    it is interrupted before anything is touched, it raises, or it yields
    the children and leaves the problem in a new state. *)
Inductive expansion :=
| Interrupted
| Failed (e : exn)
| Expanded (children : list Node) (s : State).

Definition successors_body (self : Setup) (node : Node) (s : State)
  : result (list Node * State) :=
  '(cum_entropy, s) ← synchronise self node s;
  best ← from_option AttributeError (_best_node s);
  let s := if bool_decide (depth best < depth node)%nat
           then tick 1 (set_best_node node s) else s in
  if bool_decide (_number_of_tiles_to_process self ≤ Z.of_nat (depth node))%Z
  then Ok ([], set_stop true s)
  else
    sc ← plateau_check self s;
    match sc with
    | inl s => Ok ([], s)
    | inr s => expand self node cum_entropy s
    end.

Definition successors (self : Setup) (node : Node) (s : State) : expansion :=
  let run s := match successors_body self node s with
               | Ok (children, s') => Expanded children s'
               | Raise e => Failed e
               end in
  match _stop_proxy self with
  | Some get => if get (polls s) then Interrupted else run (polled s)
  | None => run s
  end.

Definition goal_test (s : State) : bool := _stop s.

(** The loop of [get_solution_state]. *)
Fixpoint write_path (n : nat) (node : option Node) (encoded_state : ndarray)
  : result ndarray :=
  match n with
  | O => Ok encoded_state
  | S n =>
      a ← attr action node;
      '(yx, tile_hash) ← from_option TypeError a;
      node' ← attr parent node;
      encoded_state' ← (if bool_decide (tile_hash ≠ 0%Z)
                        then setitem encoded_state yx tile_hash
                        else Ok encoded_state);
      write_path n node' encoded_state'
  end.

(** The final [astype] keeps the integer values. *)
Definition get_solution_state (self : Setup) (s : State) : result ndarray :=
  node ← from_option AttributeError (_best_node s);
  let encoded_state :=
    match _starting_state self with
    | None => np_zeros (shape (_temp_world_state (world s)))
    | Some starting => starting
    end in
  write_path (depth node) (Some node) encoded_state.

End with_externals.

End WFC_Problem.

(** ** The search driver

    Modelled from the spec: [best_first_search(problem, graph=True)] of the
    py_search library, which is not under src/.  The engine is a best-first
    search over a lazily expanded, deduplicated tree: the fringe is ordered
    by [node_value]; a node is popped, the run ends when the explicit stop
    flag is set ([goal_test]), otherwise the node is expanded and each child
    whose identity has not been seen yet joins the fringe.  The generator is
    consumed for its first solution only ([next]). *)

(** What a call returns to its caller: a value, an exception, or nothing
    yet when the fuel of the model runs out. *)
Inductive returned (A : Type) :=
| Returns (a : A)
| Propagates (e : exn)
| Unfinished.
Arguments Returns {A} a.
Arguments Propagates {A} e.
Arguments Unfinished {A}.

Section driver.
Context `{Externals}.
Import WFC_Problem.

Inductive outcome :=
| Solution (node : Node) (s : State)   (* the generator yields *)
| Exhausted (s : State)                (* StopIteration *)
| Cancelled (s : State)                (* InterruptedError, after the read of the proxy *)
| Crashed (e : exn) (polls : nat)      (* any other exception *)
| OutOfFuel.

(** [for s in problem.successors(node): if s not in closed: ...] *)
Definition push_children (self : Setup) (children : list Node)
    (fringe : list (R * Node)) (closed : gset (Z * Z))
  : list (R * Node) * gset (Z * Z) :=
  foldl (fun fc child =>
           if bool_decide (state child ∈ fc.2) then fc
           else (fc.1 ++ [(node_value self child, child)], {[state child]} ∪ fc.2))
        (fringe, closed) children.

Fixpoint search (fuel : nat) (self : Setup) (fringe : list (R * Node))
    (closed : gset (Z * Z)) (s : State) : outcome :=
  match fuel with
  | O => OutOfFuel
  | S fuel =>
      match fringe_pop fringe with
      | None => Exhausted s
      | Some (node, fringe) =>
          if goal_test s then Solution node s
          else
            match successors self node s with
            | Interrupted => Cancelled (polled s)
            | Failed e =>
                Crashed e (match _stop_proxy self with
                           | Some _ => S (polls s)
                           | None => polls s
                           end)
            | Expanded children s' =>
                let '(fringe', closed') := push_children self children fringe closed in
                search fuel self fringe' closed' s'
            end
      end
  end.

Definition best_first_search (fuel : nat) (self : Setup) (s : State) : outcome :=
  search fuel self [(node_value self (initial self), initial self)]
         {[state (initial self)]} s.

(** ** nodes.py *)

(** [generate_single(i_kwargs)]; [None] is the value returned on
    cancellation. *)
Definition generate_single (fuel : nat) (i_kwargs : Kwargs)
  : returned (option ndarray) :=
  match __init__ i_kwargs with
  | Raise e => Propagates e
  | Ok (problem, s0) =>
      match best_first_search fuel problem s0 with
      | Cancelled _ => Returns None
      | Crashed e _ => Propagates e
      | OutOfFuel => Unfinished
      | Solution _ s | Exhausted s =>
          match get_solution_state problem s with
          | Ok r => Returns (Some r)
          | Raise e => Propagates e
          end
      end
  end.

(** [WFC_GenerateNode.compute]: the proxies are created by the method, the
    cancellation proxy is written by the waiting thread; [interrupted] is the
    host's interrupt flag read by
    [throw_exception_if_processing_interrupted] in the [finally] block. *)
Definition compute (fuel : nat) (kwargs : Kwargs) (stop : nat -> bool)
    (interrupted : bool) : returned ndarray :=
  let kwargs :=
    {| sample := sample kwargs; starting_state := starting_state kwargs;
       seed := seed kwargs; use_8_cardinals := use_8_cardinals kwargs;
       max_freq_adjust := max_freq_adjust kwargs;
       plateau_check_interval := plateau_check_interval kwargs;
       starting_temperature := starting_temperature kwargs;
       min_min_temperature := min_min_temperature kwargs;
       max_min_temperature := max_min_temperature kwargs;
       reverse_depth_w := reverse_depth_w kwargs;
       node_cost_w := node_cost_w kwargs;
       path_entropy_average_w := path_entropy_average_w kwargs;
       stop_proxy := Some stop; ticker_proxy := Some 0%Z |} in
  match __init__ kwargs with
  | Raise e => Propagates e
  | Ok (problem, s0) =>
      let finally (polls : nat) (k : returned ndarray) : returned ndarray :=
        if stop polls && interrupted
        then Propagates InterruptProcessingException else k in
      let result (s : State) : returned ndarray :=
        match get_solution_state problem s with
        | Ok r => Returns r
        | Raise e => Propagates e
        end in
      match best_first_search fuel problem s0 with
      | Cancelled s | Solution _ s | Exhausted s => finally (polls s) (result s)
      | Crashed e polls => finally polls (Propagates e)
      | OutOfFuel => Unfinished
      end
  end.

End driver.

(** [l[i]] on a Python list. *)
Definition list_getitem {A} (l : list A) (i : Z) : result A :=
  from_option IndexError
    (norm_index (Z.of_nat (length l)) i ≫= fun j => l !! Z.to_nat j).

Module WFC_EmptyState.

(** [np.zeros((width, height))]: a negative dimension raises. *)
Definition create (width height : Z) : result ndarray :=
  if bool_decide (width < 0 ∨ height < 0)%Z then Raise ValueError
  else Ok (np_zeros (width, height)).

End WFC_EmptyState.

Module WFC_Filter.
Section with_externals.
Context `{Externals}.

Definition create (state : ndarray) (tiles_batch : list (list Z)) (invert : bool)
  : ndarray :=
  let to_filter := tile_to_hash <$> tiles_batch in
  let new_state :=
    (fun t => if xorb (bool_decide (t ∈ to_filter)) invert then t else 0%Z)
      <$> data state in
  {| shape := shape state; data := new_state |}.

End with_externals.
End WFC_Filter.

Module WFC_GenParallel.

(** With [INPUT_IS_LIST] every input of [gen] is a list. *)
Record kwargs := {
  sample : list WFC_Sample.t;
  starting_state : list ndarray;
  seed : list Z;
  max_freq_adjust : list R;
  use_8_cardinals : list bool;
  plateau_check_interval : list Z
}.

(** What [WFC_CustomTemperature.send] and [WFC_CustomValueWeights.send]
    return. *)
Record TemperatureConfig := {
  starting_temperature : R;
  min_min_temperature : R;
  max_min_temperature : R
}.

Record NodeValueConfig := {
  reverse_depth_w : R;
  node_cost_w : R;
  path_entropy_average_w : R
}.

(** [item[1][min(i, len(item[1]) - 1)]] *)
Definition broadcast {A} (l : list A) (i : nat) : result A :=
  list_getitem l (Z.min (Z.of_nat i) (Z.of_nat (length l) - 1)).

(** The loop [for v in kwargs.values()]. *)
Definition max_len (kw : kwargs) : nat :=
  foldl (fun max_len v_len => if bool_decide (max_len < v_len)%nat then v_len else max_len)
        0%nat
        [length (sample kw); length (starting_state kw); length (seed kw);
         length (max_freq_adjust kw); length (use_8_cardinals kw);
         length (plateau_check_interval kw)].

Definition total_tiles_to_proc (kw : kwargs) : result Z :=
  let ss := starting_state kw in
  let total := foldr Z.add 0%Z ((fun i => (size_of i - count_nonzero i)%Z) <$> ss) in
  last ← list_getitem ss (-1);
  Ok (total + (size_of last - count_nonzero last)
              * (Z.of_nat (max_len kw) - Z.of_nat (length ss)))%Z.

(** One iteration of the loop that fills [per_gen_inputs]; without a custom
    configuration the defaults of [WFC_Problem] apply. *)
Definition input (kw : kwargs) (custom_temperature_config : option (list TemperatureConfig))
    (custom_node_value_config : option (list NodeValueConfig))
    (stop : nat -> bool) (i : nat) : result WFC_Problem.Kwargs :=
  let ct_len := match custom_temperature_config with
                | None => 0%nat | Some l => length l end in
  let cnv_len := match custom_node_value_config with
                 | None => 0%nat | Some l => length l end in
  sample_i ← broadcast (sample kw) i;
  starting_state_i ← broadcast (starting_state kw) i;
  seed_i ← broadcast (seed kw) i;
  max_freq_adjust_i ← broadcast (max_freq_adjust kw) i;
  use_8_cardinals_i ← broadcast (use_8_cardinals kw) i;
  plateau_check_interval_i ← broadcast (plateau_check_interval kw) i;
  ct ← (if bool_decide (0 < ct_len)%nat
        then broadcast (default [] custom_temperature_config) i
        else Ok {| starting_temperature := 50; min_min_temperature := 0;
                   max_min_temperature := 80 |});
  cnv ← (if bool_decide (0 < cnv_len)%nat
         then broadcast (default [] custom_node_value_config) i
         else Ok {| reverse_depth_w := 1; node_cost_w := 1;
                    path_entropy_average_w := 0 |});
  Ok {| WFC_Problem.sample := sample_i;
        WFC_Problem.starting_state := starting_state_i;
        WFC_Problem.seed := seed_i;
        WFC_Problem.use_8_cardinals := use_8_cardinals_i;
        WFC_Problem.max_freq_adjust := max_freq_adjust_i;
        WFC_Problem.plateau_check_interval := plateau_check_interval_i;
        WFC_Problem.starting_temperature := starting_temperature ct;
        WFC_Problem.min_min_temperature := min_min_temperature ct;
        WFC_Problem.max_min_temperature := max_min_temperature ct;
        WFC_Problem.reverse_depth_w := reverse_depth_w cnv;
        WFC_Problem.node_cost_w := node_cost_w cnv;
        WFC_Problem.path_entropy_average_w := path_entropy_average_w cnv;
        WFC_Problem.stop_proxy := Some stop;
        WFC_Problem.ticker_proxy := Some 0%Z |}.

(** [per_gen_inputs], the argument lists of the parallel calls of
    [generate_single]. *)
Definition per_gen_inputs (kw : kwargs)
    (custom_temperature_config : option (list TemperatureConfig))
    (custom_node_value_config : option (list NodeValueConfig))
    (stop : nat -> bool) : result (list WFC_Problem.Kwargs) :=
  mapM (input kw custom_temperature_config custom_node_value_config stop)
       (seq 0 (max_len kw)).

End WFC_GenParallel.

Import WFC_Problem.

(** * Specifications

    The notions the theorems are stated with: well-formed grids, the frontier
    invariant, paths of the search tree, the children an enumeration should
    yield, the inputs of a run, three claims as the specification words
    them, and the data the theorems are instantiated on. *)

Section specifications.
Context `{ext : Externals}.

(** ** Grids *)

(** The data of the array has as many entries as its shape says. *)
Definition wf_array (a : ndarray) : Prop :=
  (0 ≤ (shape a).1)%Z ∧ (0 ≤ (shape a).2)%Z ∧
  length (data a) = Z.to_nat ((shape a).1 * (shape a).2).

(** Row-major position, content and update of a cell inside the shape. *)
Definition offset (a : ndarray) (p : coord) : nat :=
  Z.to_nat (p.1 * (shape a).2 + p.2).

Definition cell (a : ndarray) (p : coord) : Z :=
  default 0%Z (data a !! offset a p).

Definition upd (a : ndarray) (p : coord) (v : Z) : ndarray :=
  {| shape := shape a; data := <[offset a p := v]> (data a) |}.

(** ** The frontier *)

(** [q] is a neighbour of [p] in the mode of the run. *)
Definition adjacent (use8 : bool) (p q : coord) : Prop :=
  if use8 then (p ≠ q ∧ Z.abs (q.1 - p.1) ≤ 1 ∧ Z.abs (q.2 - p.2) ≤ 1)%Z
  else (Z.abs (q.1 - p.1) + Z.abs (q.2 - p.2) = 1)%Z.

(** One of the cells that the reopening branch inspects around [n] is
    decided. *)
Definition decided_near (use8 : bool) (a : ndarray) (n : coord) : Prop :=
  Exists (fun q => cell a q ≠ 0%Z) (sub_indices_to_check use8 a n.1 n.2).

(** The frontier after closing, and after reopening, the cell [pos]. *)
Definition closed_frontier (use8 : bool) (a : ndarray) (pos : coord)
    (F : gset coord) : gset coord :=
  list_to_set (filter (fun q => cell a q = 0%Z)
                      (indices_to_check use8 a pos.1 pos.2))
  ∪ (F ∖ {[pos]}).

Definition reopened_frontier (use8 : bool) (a : ndarray) (pos : coord)
    (F : gset coord) : gset coord :=
  ({[pos]} ∪ F) ∖
  list_to_set (filter (fun q => ¬ decided_near use8 a q)
                      (indices_to_check use8 a pos.1 pos.2)).

(** Among the neighbours of [pos], the frontier holds exactly the undecided
    cells that have a decided neighbour of their own. *)
Definition local_consistent (use8 : bool) (w : World) (pos : coord) : Prop :=
  ∀ n : coord, n ∈ indices_to_check use8 (_temp_world_state w) pos.1 pos.2 →
    (n ∈ _temp_world_open_super_tiles w ↔
     getitem (_temp_world_state w) n = Ok 0%Z
     ∧ decided_near use8 (_temp_world_state w) n).

(** The frontier invariant: the frontier is the set of the undecided cells
    with a decided neighbour, or the grid is all undecided and a single seed
    cell is open. *)
Definition frontier_exact (use8 : bool) (w : World) : Prop :=
  ∀ c : coord, c ∈ _temp_world_open_super_tiles w ↔
    in_shape (_temp_world_state w) c ∧ cell (_temp_world_state w) c = 0%Z ∧
    decided_near use8 (_temp_world_state w) c.

Definition frontier_seed (w : World) : Prop :=
  (∀ q : coord, in_shape (_temp_world_state w) q →
     cell (_temp_world_state w) q = 0%Z) ∧
  ∃ c0 : coord, in_shape (_temp_world_state w) c0 ∧
    _temp_world_open_super_tiles w = {[c0]}.

Definition world_inv (use8 : bool) (w : World) : Prop :=
  wf_array (_temp_world_state w) ∧ (frontier_exact use8 w ∨ frontier_seed w).

(** Every open coordinate is an undecided cell of the grid. *)
Definition frontier_open (w : World) : Prop :=
  ∀ c : coord, c ∈ _temp_world_open_super_tiles w →
    in_shape (_temp_world_state w) c ∧ getitem (_temp_world_state w) c = Ok 0%Z.

(** ** The search tree *)

(** The [k]-th ancestor and the root of a node. *)
Fixpoint up (k : nat) (n : Node) : option Node :=
  match k with
  | O => Some n
  | S k => match parent n with Some p => up k p | None => None end
  end.

Fixpoint root (n : Node) : Node :=
  match parent n with Some p => root p | None => n end.

(** No action on the path to [n] places the hash 0, reserved for
    "undecided". *)
Definition tiles_nonzero (n : Node) : Prop :=
  ∀ (m : Node) (pos : coord) (t : Z),
    m ∈ ancestors n → action m = Some (pos, t) → t ≠ 0%Z.

(** Nodes of the two paths that share their identity stand for the same
    world (deduplication makes them one node of the graph). *)
Definition identity_sound (use8 : bool) (w0 : World) (A B : Node) : Prop :=
  ∀ p c : Node, p ∈ ancestors A → c ∈ ancestors B →
    depth p = depth c → state p = state c →
    world_of use8 w0 p = world_of use8 w0 c.

(** The children that the enumeration yields for one open cell with its
    candidates: one per (tile, cost), identified by the hash of the grid with
    the tile placed. *)
Definition children_of_cell (node : Node) (depth : nat) (cum_entropy : R)
    (world_state : ndarray) (cell : coord * (list Z * option (list R) * option R))
  : list Node :=
  (fun item : Z * R =>
     mkNode (Z.of_nat depth + 1, world_hash (upd world_state cell.1 item.1))%Z
            (Some node) (Some (cell.1, item.1)) item.2
            (cum_entropy + default 0%R cell.2.2)%R)
  <$> zip cell.2.1.1 (default [] cell.2.1.2).

(** ** Runs *)

(** The inputs of a run: the keyword arguments without the two proxies. *)
Definition inputs (kw : Kwargs) : Kwargs :=
  {| sample := sample kw; starting_state := starting_state kw; seed := seed kw;
     use_8_cardinals := use_8_cardinals kw; max_freq_adjust := max_freq_adjust kw;
     plateau_check_interval := plateau_check_interval kw;
     starting_temperature := starting_temperature kw;
     min_min_temperature := min_min_temperature kw;
     max_min_temperature := max_min_temperature kw;
     reverse_depth_w := reverse_depth_w kw; node_cost_w := node_cost_w kw;
     path_entropy_average_w := path_entropy_average_w kw;
     stop_proxy := None; ticker_proxy := None |}.







(** ** Three claims in the words of the specification *)

(** The merged frequency of a tile: the sum of its per-sample frequencies
    over the samples in which it occurs. *)
Definition summed_frequency (per_sample : list (gmap Z (list Z * R))) (k : Z) : R :=
  foldr (fun td acc => (default 0%R (snd <$> td !! k) + acc)%R) 0%R per_sample.

(** The depth adjustment: strength x (1 - Q(d)/T), for the quadratic Q with
    Q(0) = 0, Q(T) = 0 and Q(T/2) = T. *)
Definition claimed_depth_adjustment (self : Setup) (d : Z) : Prop :=
  let T := IZR (_number_of_tiles_to_process self) in
  ∀ q2 q1 q0 : R,
    poly1d (q2, q1, q0) 0 = 0%R → poly1d (q2, q1, q0) T = 0%R →
    poly1d (q2, q1, q0) (T / 2) = T →
    _tile_freq_adjustment_func self d
    = (_max_freq_adjust self * (1 - poly1d (q2, q1, q0) (IZR d) / T))%R.

(** The temperature: the capped ratio when the depth decreased or is
    unchanged, the power ratio when it increased; the floor is
    max_min_temperature when advancing, min_min_temperature otherwise. *)
Definition claimed_temperature (self : Setup) (current_temperature : R)
    (depth prior_depth : Z) : Prop :=
  let T := IZR (_number_of_tiles_to_process self) in
  let ratio :=
    if bool_decide (depth ≤ prior_depth)%Z
    then Rmin (9 / 10) (IZR (Z.abs (prior_depth - depth) * 3) / sqrt T)
    else (float_pow (IZR depth / T) (5 / 2) / 80)%R in
  let floor :=
    if bool_decide (prior_depth < depth)%Z
    then _max_min_temperature self else _min_min_temperature self in
  temp_ratio self depth prior_depth = Ok ratio ∧
  get_new_temperature self current_temperature depth prior_depth
  = Ok (floor * ratio + current_temperature * (1 - ratio))%R.

(** ** Catalogs and adjacency queries *)

(** The total count of the pairs of [l] whose key is [k]. *)
Definition total_count {K} `{EqDecision K} (k : K) (l : list (K * Z)) : Z :=
  foldr Z.add 0%Z (snd <$> filter (fun kv => kv.1 = k) l).

(** The sum of a list of reals. *)
Definition Rsum (l : list R) : R := foldr Rplus 0%R l.

(** The centre of a flattened 3x3 pattern. *)
Definition centre (pattern : list Z) : Z := default 0%Z (pattern !! 4%nat).

(** The pattern agrees with every decided neighbour of the cell (y, x) that
    lies in the grid and that the mode of the run inspects. *)
Definition agrees (use8 : bool) (g : ndarray) (y x : Z) (pattern : list Z) : Prop :=
  ∀ q : coord, adjacent use8 (y, x) q → in_shape g q → cell g q ≠ 0%Z →
    pattern !! Z.to_nat (3 * (q.1 - y + 1) + (q.2 - x + 1)) = Some (cell g q).

(** The content of a neighbour as the cost model reads it: 0 outside the
    grid. *)
Definition neighbour (g : ndarray) (p : coord) : Z :=
  if bool_decide (in_shape g p) then cell g p else 0%Z.

(** The 3x3 query that the cost model builds around the cell (y, x): the
    eight neighbours, or the four cardinal ones, around an unknown centre. *)
Definition neighbour_query (use8 : bool) (g : ndarray) (y x : Z) : list Z :=
  if use8 then
    [neighbour g (y - 1, x - 1); neighbour g (y - 1, x); neighbour g (y - 1, x + 1);
     neighbour g (y, x - 1); 0; neighbour g (y, x + 1);
     neighbour g (y + 1, x - 1); neighbour g (y + 1, x); neighbour g (y + 1, x + 1)]%Z
  else
    [0; neighbour g (y - 1, x); 0;
     neighbour g (y, x - 1); 0; neighbour g (y, x + 1);
     0; neighbour g (y + 1, x); 0]%Z.

(** The number of occurrences of a row among the rows. *)
Definition occurrences (row : list Z) (rows : list (list Z)) : Z :=
  Z.of_nat (length (filter (fun r => r = row) rows)).

(** What [merge_images] keeps: every key is the hash of the tile stored
    under it, a tile of one of the images seen so far, and every tile seen
    so far has its key. *)
Definition catalog_of (imgs : list WFC_Sample.image) (td : gmap Z (list Z * R)) : Prop :=
  (∀ k tile f, td !! k = Some (tile, f) →
     tile_to_hash tile = k ∧
     ∃ img, img ∈ imgs ∧ tile ∈ WFC_Sample.img_tiles img) ∧
  (∀ img tile, img ∈ imgs → tile ∈ WFC_Sample.img_tiles img →
     is_Some (td !! tile_to_hash tile)).

(** ** Example data *)

(** An instance of the externals: positional hashes, a generator that
    counts its calls, sets iterated in the order of [elements] and a
    first-in first-out fringe. *)
Definition example_externals : Externals :=
  {| tile_to_hash := fun px => foldr (fun b h => (b + 256 * h)%Z) 1%Z px;
     world_hash := fun a => foldr (fun v h => (v + 4294967296 * h)%Z) 1%Z (data a);
     Generator := nat;
     default_rng := Z.to_nat;
     rng_random := fun g n => (replicate n (1 / 2)%R, S g);
     rng_integers := fun g low high => (low, S g);
     set_iter := elements;
     set_iter_perm := fun s => Permutation_refl (elements s);
     fringe_pop := fun l => match l with [] => None | vn :: l' => Some (vn.2, l') end;
     fringe_pop_nil := eq_refl;
     fringe_pop_perm := fun v n l =>
       ex_intro _ n (ex_intro _ l (conj eq_refl (ex_intro _ v (Permutation_refl _)))) |}.

(** A sample image of 3 x 3 copies of one tile. *)
Definition uniform_image (tile : list Z) : WFC_Sample.image :=
  {| WFC_Sample.img_tiles := replicate 9 tile;
     WFC_Sample.size_in_tiles := (3, 3)%Z;
     WFC_Sample.channels := 1%Z |}.

(** The catalog of one tile, of hash 7, and its single pattern. *)
Definition sample7 : WFC_Sample.t :=
  {| WFC_Sample.tile_data := {[ 7%Z := ([7%Z], 1%R) ]};
     WFC_Sample.super_tile_data := [(replicate 9 7%Z, 1%Z)];
     WFC_Sample.tile_dims := (1, 1, 1)%Z |}.

(** The default settings of [WFC_Problem], in 4-cardinal mode. *)
Definition kwargs_on (grid : ndarray) (stop : option (nat → bool)) (ticker : option Z)
  : Kwargs :=
  {| sample := sample7; starting_state := grid; seed := 0;
     use_8_cardinals := false; max_freq_adjust := 1;
     plateau_check_interval := -1; starting_temperature := 50;
     min_min_temperature := 0; max_min_temperature := 80;
     reverse_depth_w := 1; node_cost_w := 1; path_entropy_average_w := 0;
     stop_proxy := stop; ticker_proxy := ticker |}.

Definition grid_1x1 (v : Z) : ndarray := {| shape := (1, 1)%Z; data := [v] |}.
Definition grid_1x2 : ndarray := {| shape := (1, 2)%Z; data := [0; 0]%Z |}.

Definition world_1x2 (open : gset coord) : World :=
  {| _temp_world_state := grid_1x2; _tile_counts := {[ 7%Z := 0%Z ]};
     _temp_world_open_super_tiles := open |}.

(** A starting grid of 2 x 4 cells with two decided cells, the frontier that
    [open_nodes_on_depth_zero] opens on it, the root and its children. *)
Definition grid24 : ndarray :=
  {| shape := (2, 4)%Z; data := [0; 0; 0; 0; 0; 0; 7; 7]%Z |}.

Definition kwargs24 : Kwargs := kwargs_on grid24 None None.

Definition frontier24 : gset coord :=
  {[ (0, 0)%Z; (0, 1)%Z; (0, 2)%Z; (0, 3)%Z; (1, 1)%Z ]}.

Definition world24 : World :=
  {| _temp_world_state := grid24; _tile_counts := {[ 7%Z := 0%Z ]};
     _temp_world_open_super_tiles := frontier24 |}.

Definition root24 : Node := mkNode (0, 0)%Z None None 0 0.

Definition child24 (h : Z) (yx : coord) : Node :=
  mkNode (1, h)%Z (Some root24) (Some (yx, 7%Z)) 0 0.

(** A world on that grid after one placement. *)
Definition world_at (cells : list Z) (open : gset coord) : World :=
  {| _temp_world_state := {| shape := (2, 4)%Z; data := cells |};
     _tile_counts := {[ 7%Z := 1%Z ]};
     _temp_world_open_super_tiles := open |}.

(** The catalog of tile 7 without any pattern. *)
Definition sample_without_patterns : WFC_Sample.t :=
  {| WFC_Sample.tile_data := {[ 7%Z := ([7%Z], 1%R) ]};
     WFC_Sample.super_tile_data := [];
     WFC_Sample.tile_dims := (1, 1, 1)%Z |}.

(** A problem object on a grid, with the default settings in 4-cardinal
    mode, and a state of the search on a world. *)
Definition problem_on (smp : WFC_Sample.t) (grid : ndarray) (starting : option ndarray)
  : Setup :=
  let T := (size_of grid - count_nonzero grid)%Z in
  {| initial := root24; _stop_proxy := None; _sample := smp;
     _number_of_tiles_to_process := T; _world_tdims := shape grid;
     _starting_state := starting;
     _min_min_temperature := 0; _max_min_temperature := 80;
     _rev_depth_w := 1; _node_cost_w := 1; _path_ent_avg_w := 0;
     _plateau_stop_steps := (IZR ((shape grid).1 * (shape grid).2) / 2)%R;
     _use_8cardinals := false; _max_freq_adjust := 1;
     _tile_freq_adjustment_poly := (4 / IZR T, -4, IZR T)%R |}.

Definition state_on (w : World) (temperature : R) (last best : option Node)
  : @State example_externals :=
  {| world := w; rng := @default_rng example_externals 0;
     _min_temperature := temperature;
     _best_node := best; _prev_best_depth := 0; _last_node := last;
     _plateau_check_ticker := 0; _stop := false; _ticker_proxy := None;
     polls := 0 |}.

(** The world of the root on an empty 1 x 1 grid, and the only child. *)
Definition world_1x1 (v : Z) (n : Z) (open : gset coord) : World :=
  {| _temp_world_state := grid_1x1 v; _tile_counts := {[ 7%Z := n ]};
     _temp_world_open_super_tiles := open |}.

Definition child_1x1 : Node :=
  mkNode (1, 8)%Z (Some root24) (Some ((0, 0)%Z, 7%Z)) 0 0.

(** The default settings without the plateau check. *)
Definition kwargs_without_plateau : Kwargs :=
  {| sample := sample7; starting_state := grid_1x2; seed := 0;
     use_8_cardinals := false; max_freq_adjust := 1;
     plateau_check_interval := 0; starting_temperature := 50;
     min_min_temperature := 0; max_min_temperature := 80;
     reverse_depth_w := 1; node_cost_w := 1; path_entropy_average_w := 0;
     stop_proxy := None; ticker_proxy := None |}.






(** An image of a single tile. *)
Definition one_tile_image (tile : list Z) : WFC_Sample.image :=
  {| WFC_Sample.img_tiles := [tile];
     WFC_Sample.size_in_tiles := (1, 1)%Z;
     WFC_Sample.channels := 1%Z |}.

(** The inputs of a parallel generation of three grids from two starting
    grids. *)
Definition gen_kwargs : WFC_GenParallel.kwargs :=
  {| WFC_GenParallel.sample := [sample7];
     WFC_GenParallel.starting_state := [grid_1x2; grid24];
     WFC_GenParallel.seed := [0; 1; 2]%Z;
     WFC_GenParallel.max_freq_adjust := [1%R];
     WFC_GenParallel.use_8_cardinals := [false];
     WFC_GenParallel.plateau_check_interval := [(-1)%Z] |}.

End specifications.

(** * Proofs *)

Ltac rsimpl := cbn [mbind result_bind mret result_ret from_option foldM any_decided].

(** ** Grid accesses *)

Section arrays.

Lemma norm_index_in_range n i : (0 ≤ i < n)%Z → norm_index n i = Some i.
Proof. intros H. unfold norm_index. by rewrite bool_decide_eq_true_2. Qed.

Lemma flat_index_in_shape a p :
  in_shape a p → flat_index a p = Some (offset a p).
Proof.
  intros [Hy Hx]. unfold flat_index.
  rewrite (norm_index_in_range _ _ Hy). simpl.
  rewrite (norm_index_in_range _ _ Hx). reflexivity.
Qed.

Lemma offset_lt a p : wf_array a → in_shape a p → (offset a p < length (data a))%nat.
Proof.
  intros (Hh & Hw & Hl) [Hy Hx]. rewrite Hl. unfold offset.
  apply Z2Nat.inj_lt; nia.
Qed.

Lemma offset_inj a p q :
  in_shape a p → in_shape a q → offset a p = offset a q → p = q.
Proof.
  intros [Hy Hx] [Hy' Hx'] Heq. unfold offset in Heq.
  apply Z2Nat.inj in Heq; [|nia|nia].
  destruct p as [y x], q as [y' x']; simpl in *.
  assert (y = y') by nia. subst. f_equal. lia.
Qed.

Lemma getitem_in_shape a p :
  wf_array a → in_shape a p → getitem a p = Ok (cell a p).
Proof.
  intros Hwf Hin. unfold getitem, cell. rewrite (flat_index_in_shape _ _ Hin). simpl.
  destruct (lookup_lt_is_Some_2 (data a) (offset a p) (offset_lt _ _ Hwf Hin)) as [v Hv].
  by rewrite Hv.
Qed.

Lemma setitem_in_shape a p v :
  wf_array a → in_shape a p → setitem a p v = Ok (upd a p v).
Proof.
  intros Hwf Hin. unfold setitem. rewrite (flat_index_in_shape _ _ Hin).
  rewrite bool_decide_eq_true_2; [done | by apply offset_lt].
Qed.

Lemma upd_wf a p v : wf_array a → wf_array (upd a p v).
Proof. intros (?&?&?). unfold wf_array, upd; simpl. by rewrite length_insert. Qed.

Lemma in_shape_upd a p v q : in_shape (upd a p v) q ↔ in_shape a q.
Proof. done. Qed.

Lemma cell_upd_eq a p v : wf_array a → in_shape a p → cell (upd a p v) p = v.
Proof.
  intros Hwf Hin. unfold cell, upd, offset; simpl.
  rewrite list_lookup_insert_eq; [done | by apply offset_lt].
Qed.

Lemma cell_upd_ne a p v q :
  in_shape a p → in_shape a q → q ≠ p → cell (upd a p v) q = cell a q.
Proof.
  intros Hp Hq Hne. unfold cell, upd, offset; simpl.
  rewrite list_lookup_insert_ne; [done|].
  intros Heq. apply Hne. symmetry. by apply (offset_inj a).
Qed.

Lemma upd_upd a p v v' : upd (upd a p v) p v' = upd a p v'.
Proof. unfold upd, offset; simpl. by rewrite list_insert_insert_eq. Qed.

Lemma upd_id a p : wf_array a → in_shape a p → upd a p (cell a p) = a.
Proof.
  intros Hwf Hin. unfold upd, cell. destruct a as [sh d]; simpl. f_equal.
  apply list_insert_id.
  destruct (lookup_lt_is_Some_2 d (offset {| shape := sh; data := d |} p)
              (offset_lt _ _ Hwf Hin)) as [v Hv].
  simpl in *. by rewrite Hv.
Qed.

End arrays.

(** ** The two loops of [update_open_nodes] *)

Section frontier_updates.

Lemma indices_to_check_in_shape (use8 : bool) (a : ndarray) (y x : Z) :
  Forall (in_shape a) (indices_to_check use8 a y x).
Proof. apply Forall_forall. intros q Hq. unfold indices_to_check in Hq.
  by apply list_elem_of_filter in Hq as [? _]. Qed.

Lemma sub_indices_to_check_in_shape (use8 : bool) (a : ndarray) (y x : Z) :
  Forall (in_shape a) (sub_indices_to_check use8 a y x).
Proof. apply Forall_forall. intros q Hq. unfold sub_indices_to_check in Hq.
  by apply list_elem_of_filter in Hq as [? _]. Qed.

Lemma any_decided_spec (a : ndarray) (ps : list coord) :
  wf_array a → Forall (in_shape a) ps →
  any_decided a ps = Ok (bool_decide (Exists (fun q => cell a q ≠ 0%Z) ps)).
Proof.
  intros Hwf. induction 1 as [|p ps Hp Hps IH].
  - reflexivity.
  - rsimpl. rewrite (getitem_in_shape _ _ Hwf Hp). rsimpl.
    destruct (decide (cell a p ≠ 0%Z)) as [Hc|Hc].
    + rewrite !bool_decide_eq_true_2; [done| |done]. by left.
    + rewrite (bool_decide_eq_false_2 _ Hc). rewrite IH.
      f_equal. apply bool_decide_ext. rewrite Exists_cons. tauto.
Qed.

Lemma close_step_ok (a : ndarray) (F : gset coord) (p : coord) :
  wf_array a → in_shape a p →
  close_step a F p = Ok (if bool_decide (cell a p = 0%Z) then {[p]} ∪ F else F).
Proof.
  intros Hwf Hp. unfold close_step. rewrite (getitem_in_shape _ _ Hwf Hp). rsimpl.
  by destruct (bool_decide (cell a p = 0%Z)).
Qed.

Lemma reopen_step_ok (use8 : bool) (a : ndarray) (F : gset coord) (p : coord) :
  wf_array a →
  reopen_step use8 a F p
  = Ok (if bool_decide (decided_near use8 a p) then F else F ∖ {[p]}).
Proof.
  intros Hwf. unfold reopen_step.
  destruct (decide (p ∈ F)) as [HpF|HpF].
  - rewrite (bool_decide_eq_true_2 _ HpF).
    rewrite (any_decided_spec _ _ Hwf (sub_indices_to_check_in_shape _ _ _ _)).
    rsimpl. fold (decided_near use8 a p).
    destruct (bool_decide (decided_near use8 a p)); [done|].
    unfold set_remove. by rewrite (bool_decide_eq_true_2 _ HpF).
  - rewrite (bool_decide_eq_false_2 _ HpF).
    destruct (bool_decide (decided_near use8 a p)); [done|].
    f_equal. set_solver.
Qed.

Lemma foldM_close (a : ndarray) (F : gset coord) (idx : list coord) :
  wf_array a → Forall (in_shape a) idx →
  foldM (close_step a) F idx
  = Ok (list_to_set (filter (fun q => cell a q = 0%Z) idx) ∪ F).
Proof.
  intros Hwf H. revert F. induction H as [|p ps Hp Hps IH]; intros F; rsimpl.
  - f_equal. set_solver.
  - rewrite (close_step_ok _ _ _ Hwf Hp). rsimpl. rewrite IH. f_equal.
    case_bool_decide.
    + rewrite filter_cons_True by done. set_solver.
    + rewrite filter_cons_False by done. done.
Qed.

Lemma foldM_reopen (use8 : bool) (a : ndarray) (F : gset coord) (idx : list coord) :
  wf_array a →
  foldM (reopen_step use8 a) F idx
  = Ok (F ∖ list_to_set (filter (fun q => ¬ decided_near use8 a q) idx)).
Proof.
  intros Hwf. revert F. induction idx as [|p ps IH]; intros F; rsimpl.
  - f_equal. set_solver.
  - rewrite (reopen_step_ok _ _ _ _ Hwf). rsimpl. rewrite IH. f_equal.
    case_bool_decide.
    + rewrite filter_cons_False by tauto. done.
    + rewrite filter_cons_True by done. set_solver.
Qed.

Lemma apply_action_ok (use8 : bool) (w : World) (pos : coord) (tile c : Z) :
  wf_array (_temp_world_state w) → in_shape (_temp_world_state w) pos →
  pos ∈ _temp_world_open_super_tiles w →
  _tile_counts w !! tile = Some c →
  apply_action use8 (Some (pos, tile)) w
  = Ok {| _temp_world_state := upd (_temp_world_state w) pos tile;
          _tile_counts := <[tile := (c + 1)%Z]> (_tile_counts w);
          _temp_world_open_super_tiles :=
            closed_frontier use8 (upd (_temp_world_state w) pos tile) pos
              (_temp_world_open_super_tiles w) |}.
Proof.
  intros Hwf Hin HF Hc. unfold apply_action. simpl.
  rewrite (setitem_in_shape _ _ _ Hwf Hin). simpl.
  unfold dict_add. rewrite Hc. simpl.
  unfold update_open_nodes. simpl. unfold set_remove.
  rewrite (bool_decide_eq_true_2 _ HF). simpl.
  destruct pos as [y x]. simpl.
  rewrite foldM_close; [done| by apply upd_wf | apply indices_to_check_in_shape].
Qed.

Lemma revert_action_ok (use8 : bool) (w : World) (pos : coord) (tile c : Z) :
  wf_array (_temp_world_state w) → in_shape (_temp_world_state w) pos →
  _tile_counts w !! cell (_temp_world_state w) pos = Some c →
  revert_action use8 (Some (pos, tile)) w
  = Ok {| _temp_world_state := upd (_temp_world_state w) pos 0;
          _tile_counts := <[cell (_temp_world_state w) pos := (c + -1)%Z]> (_tile_counts w);
          _temp_world_open_super_tiles :=
            reopened_frontier use8 (upd (_temp_world_state w) pos 0) pos
              (_temp_world_open_super_tiles w) |}.
Proof.
  intros Hwf Hin Hc. unfold revert_action. simpl.
  rewrite (getitem_in_shape _ _ Hwf Hin). simpl.
  unfold dict_add. rewrite Hc. simpl.
  rewrite (setitem_in_shape _ _ _ Hwf Hin). simpl.
  unfold update_open_nodes. simpl. destruct pos as [y x]. simpl.
  rewrite foldM_reopen; [done| by apply upd_wf].
Qed.

End frontier_updates.

(** ** Neighbourhoods *)

Section neighbourhoods.

Lemma adjacent_sym (use8 : bool) (p q : coord) : adjacent use8 p q → adjacent use8 q p.
Proof. unfold adjacent. destruct use8; [intros (?&?&?); split; [congruence|lia] | lia]. Qed.

Lemma adjacent_ne (use8 : bool) (p q : coord) : adjacent use8 p q → p ≠ q.
Proof. unfold adjacent. destruct use8; [tauto|]. intros H ->. lia. Qed.

Lemma indices_around_eq (y x : Z) :
  indices_around y x
  = [(y - 1 + 0, x - 1 + 0); (y - 1 + 0, x - 1 + 1); (y - 1 + 0, x - 1 + 2);
     (y - 1 + 1, x - 1 + 0); (y - 1 + 1, x - 1 + 2);
     (y - 1 + 2, x - 1 + 0); (y - 1 + 2, x - 1 + 1); (y - 1 + 2, x - 1 + 2)]%Z.
Proof. reflexivity. Qed.

Lemma block_around_eq (y x : Z) :
  block_around y x
  = [(y - 1 + 0, x - 1 + 0); (y - 1 + 0, x - 1 + 1); (y - 1 + 0, x - 1 + 2);
     (y - 1 + 1, x - 1 + 0); (y - 1 + 1, x - 1 + 1); (y - 1 + 1, x - 1 + 2);
     (y - 1 + 2, x - 1 + 0); (y - 1 + 2, x - 1 + 1); (y - 1 + 2, x - 1 + 2)]%Z.
Proof. reflexivity. Qed.

Lemma indices_around_cross_eq (y x : Z) :
  select [1; 3; 4; 6]%nat (indices_around y x)
  = [(y - 1 + 0, x - 1 + 1); (y - 1 + 1, x - 1 + 0);
     (y - 1 + 1, x - 1 + 2); (y - 1 + 2, x - 1 + 1)]%Z.
Proof. reflexivity. Qed.

Lemma block_around_cross_eq (y x : Z) :
  select [1; 3; 5; 7]%nat (block_around y x)
  = [(y - 1 + 0, x - 1 + 1); (y - 1 + 1, x - 1 + 0);
     (y - 1 + 1, x - 1 + 2); (y - 1 + 2, x - 1 + 1)]%Z.
Proof. reflexivity. Qed.

Lemma elem_of_indices_to_check (use8 : bool) (a : ndarray) (y x : Z) (q : coord) :
  q ∈ indices_to_check use8 a y x ↔ in_shape a q ∧ adjacent use8 (y, x) q.
Proof.
  unfold indices_to_check. rewrite list_elem_of_filter, indices_around_cross_eq, indices_around_eq.
  apply and_iff_compat_l. destruct q as [qy qx].
  unfold adjacent. destruct use8; rewrite ?elem_of_cons, ?elem_of_nil;
    split.
  - intros H. repeat destruct H as [H|H]; try done; injection H as ? ?; subst;
      (split; [intros [=]; lia | simpl; lia]).
  - simpl. intros (Hne & Hy & Hx).
    assert (qy = y - 1 + 0 ∨ qy = y - 1 + 1 ∨ qy = y - 1 + 2)%Z as Hy' by lia.
    assert (qx = x - 1 + 0 ∨ qx = x - 1 + 1 ∨ qx = x - 1 + 2)%Z as Hx' by lia.
    destruct Hy' as [-> | [-> | ->]], Hx' as [-> | [-> | ->]]; try tauto.
    exfalso. apply Hne. f_equal; lia.
  - intros H. repeat destruct H as [H|H]; try done; injection H as ? ?; subst; simpl; lia.
  - simpl. intros H.
    assert ((qy = y - 1 + 0 ∧ qx = x - 1 + 1) ∨ (qy = y - 1 + 1 ∧ qx = x - 1 + 0) ∨
            (qy = y - 1 + 1 ∧ qx = x - 1 + 2) ∨ (qy = y - 1 + 2 ∧ qx = x - 1 + 1))%Z
      as [[-> ->] | [[-> ->] | [[-> ->] | [-> ->]]]] by lia; tauto.
Qed.

Lemma elem_of_sub_indices_to_check (use8 : bool) (a : ndarray) (y x : Z) (q : coord) :
  q ∈ sub_indices_to_check use8 a y x ↔
  in_shape a q ∧ (adjacent use8 (y, x) q ∨ (use8 = true ∧ q = (y, x))).
Proof.
  unfold sub_indices_to_check. rewrite list_elem_of_filter, block_around_cross_eq, block_around_eq.
  apply and_iff_compat_l. destruct q as [qy qx].
  unfold adjacent. destruct use8; rewrite ?elem_of_cons, ?elem_of_nil;
    split.
  - intros H. repeat destruct H as [H|H]; try done; injection H as ? ?; subst;
      first [ right; split; [done|f_equal; lia]
            | left; (split; [intros [=]; lia | simpl; lia]) ].
  - simpl. intros [(Hne & Hy & Hx)|[_ [= -> ->]]].
    + assert (qy = y - 1 + 0 ∨ qy = y - 1 + 1 ∨ qy = y - 1 + 2)%Z as Hy' by lia.
      assert (qx = x - 1 + 0 ∨ qx = x - 1 + 1 ∨ qx = x - 1 + 2)%Z as Hx' by lia.
      destruct Hy' as [-> | [-> | ->]], Hx' as [-> | [-> | ->]]; tauto.
    + do 4 right. left. f_equal; lia.
  - intros H. left. repeat destruct H as [H|H]; try done; injection H as ? ?; subst; simpl; lia.
  - simpl. intros [H|[? _]]; [|done].
    assert ((qy = y - 1 + 0 ∧ qx = x - 1 + 1) ∨ (qy = y - 1 + 1 ∧ qx = x - 1 + 0) ∨
            (qy = y - 1 + 1 ∧ qx = x - 1 + 2) ∨ (qy = y - 1 + 2 ∧ qx = x - 1 + 1))%Z
      as [[-> ->] | [[-> ->] | [[-> ->] | [-> ->]]]] by lia; tauto.
Qed.

End neighbourhoods.

(** ** Apply then revert *)

Section apply_revert.

Lemma getitem_cell (a : ndarray) (p : coord) (v : Z) :
  wf_array a → in_shape a p → getitem a p = Ok v ↔ cell a p = v.
Proof.
  intros Hwf Hin. rewrite (getitem_in_shape _ _ Hwf Hin). split; [by intros [= ->]|by intros ->].
Qed.

Lemma not_elem_of_indices_to_check (use8 : bool) (a : ndarray) (pos : coord) :
  pos ∉ indices_to_check use8 a pos.1 pos.2.
Proof.
  rewrite elem_of_indices_to_check. intros [_ H%adjacent_ne]. by destruct pos.
Qed.

Lemma apply_then_revert (use8 : bool) (w : World) (pos : coord) (tile c : Z) :
  wf_array (_temp_world_state w) →
  in_shape (_temp_world_state w) pos →
  pos ∈ _temp_world_open_super_tiles w →
  cell (_temp_world_state w) pos = 0%Z →
  _tile_counts w !! tile = Some c →
  local_consistent use8 w pos →
  apply_action use8 (Some (pos, tile)) w ≫= revert_action use8 (Some (pos, tile)) = Ok w.
Proof.
  intros Hwf Hin HF Hz Hc Hloc.
  rewrite (apply_action_ok _ _ _ _ _ Hwf Hin HF Hc). rsimpl.
  destruct w as [g counts F]. simpl in *.
  rewrite (revert_action_ok use8 _ pos tile (c + 1)); simpl.
  2: by apply upd_wf. 2: done.
  2: { rewrite (cell_upd_eq _ _ _ Hwf Hin). apply lookup_insert_eq. }
  rewrite (cell_upd_eq _ _ _ Hwf Hin), upd_upd.
  rewrite <- Hz at 1. rewrite (upd_id _ _ Hwf Hin). rewrite <- Hz at 1. rewrite (upd_id _ _ Hwf Hin).
  f_equal. f_equal.
  - rewrite insert_insert_eq. apply insert_id. rewrite Hc. f_equal. lia.
  - unfold reopened_frontier, closed_frontier.
    change (indices_to_check use8 (upd g pos tile)) with (indices_to_check use8 g).
    apply set_eq. intros q.
    rewrite elem_of_difference, elem_of_union, elem_of_union, elem_of_difference,
      !elem_of_list_to_set, !list_elem_of_filter, elem_of_singleton.
    destruct (decide (q = pos)) as [->|Hne].
    { split; [done|]. intros _. split; [by left|].
      intros [_ H]. by apply not_elem_of_indices_to_check in H. }
    destruct (decide (q ∈ indices_to_check use8 g pos.1 pos.2)) as [Hq|Hq].
    + specialize (Hloc q Hq).
      assert (in_shape g q) as Hqin by (by apply elem_of_indices_to_check in Hq as [? _]).
      rewrite (getitem_cell _ _ _ Hwf Hqin) in Hloc.
      rewrite (cell_upd_ne _ _ _ _ Hin Hqin Hne).
      split.
      * intros [[?|[[? _]|[? _]]] Hnd]; [done| |done].
        apply Hloc. split; [done|]. destruct (decide (decided_near use8 g q)); tauto.
      * intros HqF. apply Hloc in HqF as [? ?]. split; [right; left; done|]. tauto.
    + split.
      * intros [[?|[[_ ?]|[? _]]] _]; done.
      * intros HqF. split; [by right; right|]. tauto.
Qed.

(** C5 (amended).  In a world whose grid is well formed, for a coordinate
    of the grid that is open (in the frontier) and undecided, a tile that is
    a key of the occurrence counters, and a frontier that holds, among the
    neighbours of the coordinate, exactly the undecided ones with a decided
    neighbour of their own: apply then revert succeeds and restores the
    grid, the counters and the frontier exactly. *)
Theorem apply_revert_restores (use8 : bool) (w : World) (pos : coord) (tile : Z) :
  wf_array (_temp_world_state w) →
  in_shape (_temp_world_state w) pos →
  pos ∈ _temp_world_open_super_tiles w →
  getitem (_temp_world_state w) pos = Ok 0%Z →
  is_Some (_tile_counts w !! tile) →
  local_consistent use8 w pos →
  apply_action use8 (Some (pos, tile)) w ≫= revert_action use8 (Some (pos, tile)) = Ok w.
Proof.
  intros Hwf Hin HF Hz [c Hc] Hloc.
  apply (apply_then_revert use8 w pos tile c); try done.
  by apply getitem_cell.
Qed.

End apply_revert.

(** ** The frontier invariant *)

Section frontier_invariant.

Lemma decided_near_alt (use8 : bool) (a : ndarray) (c : coord) :
  decided_near use8 a c ↔
  ∃ q : coord, in_shape a q ∧ (adjacent use8 c q ∨ (use8 = true ∧ q = c)) ∧ cell a q ≠ 0%Z.
Proof.
  unfold decided_near. rewrite Exists_exists. destruct c as [y x]. simpl.
  split; intros (q & H1 & H2); exists q.
  - apply elem_of_sub_indices_to_check in H1. tauto.
  - rewrite elem_of_sub_indices_to_check. tauto.
Qed.

Lemma world_inv_frontier (use8 : bool) (w : World) (pos : coord) :
  world_inv use8 w → pos ∈ _temp_world_open_super_tiles w →
  in_shape (_temp_world_state w) pos ∧ cell (_temp_world_state w) pos = 0%Z.
Proof.
  intros [Hwf [Hex|[Hz (c0 & Hc0 & HF)]]] Hpos.
  - apply Hex in Hpos. tauto.
  - rewrite HF in Hpos. apply elem_of_singleton in Hpos as ->. auto.
Qed.

Lemma world_inv_local (use8 : bool) (w : World) (pos : coord) :
  world_inv use8 w → pos ∈ _temp_world_open_super_tiles w →
  local_consistent use8 w pos.
Proof.
  intros [Hwf [Hex|[Hz (c0 & Hc0 & HF)]]] Hpos n Hn.
  - assert (in_shape (_temp_world_state w) n) as Hin
      by (by apply elem_of_indices_to_check in Hn as [? _]).
    rewrite (getitem_cell _ _ _ Hwf Hin). pose proof (Hex n). tauto.
  - rewrite HF in Hpos. apply elem_of_singleton in Hpos as ->.
    rewrite HF, elem_of_singleton. split.
    + intros ->. by apply not_elem_of_indices_to_check in Hn.
    + intros [_ (q & Hq & _ & Hc)%decided_near_alt]. by rewrite Hz in Hc.
Qed.

Lemma apply_action_inv (use8 : bool) (act : option (coord * Z)) (w w' : World) :
  apply_action use8 act w = Ok w' →
  ∃ (pos : coord) (tile c : Z), act = Some (pos, tile) ∧
    pos ∈ _temp_world_open_super_tiles w ∧ _tile_counts w !! tile = Some c.
Proof.
  unfold apply_action. destruct act as [[pos tile]|]; [|done]. rsimpl.
  destruct (setitem _ _ _); [|done]. rsimpl.
  unfold dict_add. destruct (_tile_counts w !! tile) as [c|] eqn:Hc; [|done]. rsimpl.
  unfold update_open_nodes, set_remove. simpl.
  case_bool_decide; [|done]. intros _. by exists pos, tile, c.
Qed.

Lemma apply_action_inv_ok (use8 : bool) (act : option (coord * Z)) (w w' : World) :
  world_inv use8 w → apply_action use8 act w = Ok w' →
  ∃ (pos : coord) (tile c : Z), act = Some (pos, tile) ∧
    pos ∈ _temp_world_open_super_tiles w ∧ _tile_counts w !! tile = Some c ∧
    in_shape (_temp_world_state w) pos ∧ cell (_temp_world_state w) pos = 0%Z ∧
    w' = {| _temp_world_state := upd (_temp_world_state w) pos tile;
          _tile_counts := <[tile := (c + 1)%Z]> (_tile_counts w);
          _temp_world_open_super_tiles :=
            closed_frontier use8 (upd (_temp_world_state w) pos tile) pos
              (_temp_world_open_super_tiles w) |}.
Proof.
  intros Hinv Happ.
  destruct (apply_action_inv _ _ _ _ Happ) as (pos & tile & c & -> & HF & Hc).
  destruct (world_inv_frontier _ _ _ Hinv HF) as [Hin Hz].
  exists pos, tile, c.
  rewrite (apply_action_ok _ _ _ _ _ (proj1 Hinv) Hin HF Hc) in Happ.
  injection Happ as <-. done.
Qed.

Lemma revert_of_apply (use8 : bool) (act : option (coord * Z)) (w w' : World) :
  world_inv use8 w → apply_action use8 act w = Ok w' → revert_action use8 act w' = Ok w.
Proof.
  intros Hinv Happ.
  destruct (apply_action_inv _ _ _ _ Happ) as (pos & tile & c & -> & HF & Hc).
  destruct (world_inv_frontier _ _ _ Hinv HF) as [Hin Hz].
  pose proof (apply_then_revert use8 w pos tile c (proj1 Hinv) Hin HF Hz Hc
                (world_inv_local _ _ _ Hinv HF)) as H.
  by rewrite Happ in H.
Qed.

Lemma apply_preserves_inv (use8 : bool) (pos : coord) (tile : Z) (w w' : World) :
  world_inv use8 w → tile ≠ 0%Z →
  apply_action use8 (Some (pos, tile)) w = Ok w' →
  wf_array (_temp_world_state w') ∧ frontier_exact use8 w'.
Proof.
  intros Hinv Htile Happ.
  destruct (apply_action_inv_ok _ _ _ _ Hinv Happ)
    as (pos' & tile' & c & [= <- <-] & HF & Hc & Hin & Hz & ->).
  destruct Hinv as [Hwf Hfr]. destruct w as [g counts F]. simpl in *.
  split; [by apply upd_wf|].
  intros q. simpl. unfold closed_frontier.
  change (indices_to_check use8 (upd g pos tile)) with (indices_to_check use8 g).
  rewrite elem_of_union, elem_of_list_to_set, list_elem_of_filter, elem_of_difference,
    elem_of_singleton, elem_of_indices_to_check.
  change (in_shape (upd g pos tile) q) with (in_shape g q).
  rewrite decided_near_alt.
  assert (Hpos' : cell (upd g pos tile) pos ≠ 0%Z) by (by rewrite cell_upd_eq).
  destruct (decide (q = pos)) as [->|Hne].
  { split.
    - intros [[_ [_ H%adjacent_ne]]|[_ ?]]; [|done]. by destruct pos.
    - intros (_ & ? & _). done. }
  split.
  - intros [(Hc0 & Hqin & Hadj)|[HqF _]].
    + split; [done|]. split; [done|]. exists pos. split; [done|]. split; [|done].
      left. apply adjacent_sym. by destruct pos.
    + assert (in_shape g q ∧ cell g q = 0%Z ∧ decided_near use8 g q) as (Hqin & Hqz & Hd).
      { destruct Hfr as [Hex|[Hzero (c0 & _ & HF0)]]; [by apply Hex|].
        simpl in HF0. rewrite HF0 in HF, HqF. apply elem_of_singleton in HF, HqF. congruence. }
      split; [done|]. rewrite (cell_upd_ne _ _ _ _ Hin Hqin Hne). split; [done|].
      apply decided_near_alt in Hd as (r & Hrin & Hr & Hrc). exists r.
      split; [done|]. split; [done|].
      rewrite cell_upd_ne; [done..|]. intros ->. done.
  - intros (Hqin & Hqz & (r & Hrin & Hr & Hrc)).
    rewrite (cell_upd_ne _ _ _ _ Hin Hqin Hne) in Hqz.
    destruct (decide (r = pos)) as [->|Hrne].
    + left. split; [by rewrite cell_upd_ne|]. split; [done|].
      destruct Hr as [Hr|[_ ->]]; [|done]. apply adjacent_sym in Hr. by destruct pos.
    + rewrite (cell_upd_ne _ _ _ _ Hin Hrin Hrne) in Hrc.
      right. split; [|done].
      destruct Hfr as [Hex|[Hzero _]]; [|by specialize (Hzero r Hrin)].
      apply Hex. split; [done|]. split; [done|]. apply decided_near_alt. eauto.
Qed.

End frontier_invariant.

(** ** Paths in the search tree *)

Section paths.

Lemma Node_parent_ind (P : Node → Prop) :
  (∀ n, parent n = None → P n) →
  (∀ n p, parent n = Some p → P p → P n) →
  ∀ n, P n.
Proof.
  intros Hroot Hstep. fix IH 1. intros [s [p|] a c e].
  - apply (Hstep _ p); [done|apply IH].
  - by apply Hroot.
Qed.

Lemma ancestors_parent (n p : Node) :
  parent n = Some p → ancestors n = n :: ancestors p.
Proof. intros H. destruct n; simpl in *. by rewrite H. Qed.

Lemma depth_parent (n p : Node) : parent n = Some p → depth n = S (depth p).
Proof. intros H. destruct n; simpl in *. by rewrite H. Qed.

Lemma depth_root_node (n : Node) : parent n = None → depth n = 0%nat.
Proof. intros H. destruct n; simpl in *. by rewrite H. Qed.

Lemma world_of_parent (use8 : bool) (w0 : World) (n p : Node) :
  parent n = Some p →
  world_of use8 w0 n = world_of use8 w0 p ≫= apply_action use8 (action n).
Proof. intros H. destruct n; simpl in *. by rewrite H. Qed.

Lemma world_of_root_node (use8 : bool) (w0 : World) (n : Node) :
  parent n = None → world_of use8 w0 n = Ok w0.
Proof. intros H. destruct n; simpl in *. by rewrite H. Qed.

Lemma length_ancestors (n : Node) : length (ancestors n) = S (depth n).
Proof.
  induction n as [n Hn|n p Hp IH] using Node_parent_ind.
  - destruct n; simpl in *. by rewrite Hn.
  - rewrite (ancestors_parent _ _ Hp), (depth_parent _ _ Hp). simpl. by rewrite IH.
Qed.

Lemma root_depth (n p : Node) : p ∈ ancestors n → depth p = 0%nat → p = root n.
Proof.
  induction n as [n Hn|n q Hq IH] using Node_parent_ind; intros Hin Hd.
  - destruct n; simpl in *. rewrite Hn in *. by apply list_elem_of_singleton in Hin.
  - rewrite (ancestors_parent _ _ Hq) in Hin. apply elem_of_cons in Hin as [->|Hin].
    + by rewrite (depth_parent _ _ Hq) in Hd.
    + destruct n; simpl in *. rewrite Hq. by apply IH.
Qed.

Lemma tiles_nonzero_parent (n p : Node) :
  parent n = Some p → tiles_nonzero n → tiles_nonzero p.
Proof.
  intros Hp H m pos t Hm. apply H. rewrite (ancestors_parent _ _ Hp). by right.
Qed.

Lemma world_of_inv (use8 : bool) (w0 : World) (n : Node) (w : World) :
  world_inv use8 w0 → tiles_nonzero n → world_of use8 w0 n = Ok w → world_inv use8 w.
Proof.
  intros H0. revert w. induction n as [n Hn|n p Hp IH] using Node_parent_ind;
    intros w Hnz Hw.
  - rewrite (world_of_root_node _ _ _ Hn) in Hw. by injection Hw as <-.
  - rewrite (world_of_parent _ _ _ _ Hp) in Hw.
    destruct (world_of use8 w0 p) as [wp|] eqn:Hwp; [|done]. simpl in Hw.
    specialize (IH wp (tiles_nonzero_parent _ _ Hp Hnz) eq_refl).
    destruct (apply_action_inv _ _ _ _ Hw) as (pos & tile & c & Hact & _).
    rewrite Hact in Hw.
    destruct (apply_preserves_inv use8 pos tile wp w IH) as [? ?]; [|done|].
    + apply (Hnz n pos tile); [|done]. destruct n; simpl. by left.
    + split; [done|by left].
Qed.

(** Reverting [k] steps from the world of [n] yields the world of its [k]-th
    ancestor. *)
Lemma revert_path_spec (use8 : bool) (w0 : World) (k : nat) (n : Node) (wn : World) :
  world_inv use8 w0 → tiles_nonzero n → world_of use8 w0 n = Ok wn →
  (k ≤ depth n)%nat →
  ∃ (m : Node) (wm : World), up k n = Some m ∧ world_of use8 w0 m = Ok wm ∧
    revert_path use8 k (Some n) wn = Ok (Some m, wm).
Proof.
  intros H0. revert n wn. induction k as [|k IH]; intros n wn Hnz Hw Hk.
  - exists n, wn. done.
  - destruct (parent n) as [p|] eqn:Hp.
    2: { rewrite (depth_root_node _ Hp) in Hk. lia. }
    rewrite (depth_parent _ _ Hp) in Hk.
    pose proof Hw as Hw'. rewrite (world_of_parent _ _ _ _ Hp) in Hw'.
    destruct (world_of use8 w0 p) as [wp|] eqn:Hwp; [|done]. simpl in Hw'.
    pose proof (world_of_inv _ _ _ _ H0 (tiles_nonzero_parent _ _ Hp Hnz) Hwp) as Hinv.
    destruct (IH p wp (tiles_nonzero_parent _ _ Hp Hnz) Hwp ltac:(lia))
      as (m & wm & Hup & Hwm & Hrev).
    exists m, wm. split; [by simpl; rewrite Hp|]. split; [done|].
    cbn [revert_path attr]. rsimpl.
    rewrite (revert_of_apply _ _ _ _ Hinv Hw'). rsimpl. by rewrite Hp.
Qed.

Lemma climb_spec (k : nat) (n : Node) :
  (k ≤ depth n)%nat → ∃ m, up k n = Some m ∧ climb k (Some n) = Ok (Some m).
Proof.
  revert n. induction k as [|k IH]; intros n Hk; [by exists n|].
  destruct (parent n) as [p|] eqn:Hp.
  2: { rewrite (depth_root_node _ Hp) in Hk. lia. }
  rewrite (depth_parent _ _ Hp) in Hk.
  destruct (IH p ltac:(lia)) as (m & Hup & Hcl). exists m.
  split; [by simpl; rewrite Hp|]. cbn [climb attr]. rsimpl. by rewrite Hp.
Qed.

Lemma depth_up (k : nat) (n m : Node) : up k n = Some m → depth n = (k + depth m)%nat.
Proof.
  revert n. induction k as [|k IH]; intros n H; simpl in *; [by injection H as ->|].
  destruct (parent n) as [p|] eqn:Hp; [|done].
  rewrite (depth_parent _ _ Hp), (IH _ H). lia.
Qed.

Lemma up_ancestors (k : nat) (n m : Node) : up k n = Some m → m ∈ ancestors n.
Proof.
  revert n. induction k as [|k IH]; intros n H; simpl in *.
  - injection H as ->. destruct m; simpl. by left.
  - destruct (parent n) as [p|] eqn:Hp; [|done].
    rewrite (ancestors_parent _ _ Hp). right. by apply IH.
Qed.

Lemma ancestors_trans (n m q : Node) : m ∈ ancestors n → q ∈ ancestors m → q ∈ ancestors n.
Proof.
  induction n as [n Hn|n p Hp IH] using Node_parent_ind; intros Hm Hq.
  - destruct n; simpl in *. rewrite Hn in *. apply list_elem_of_singleton in Hm. by subst.
  - rewrite (ancestors_parent _ _ Hp) in Hm. apply elem_of_cons in Hm as [->|Hm]; [done|].
    rewrite (ancestors_parent _ _ Hp). right. by apply IH.
Qed.

Lemma up_add (j k : nat) (n m q : Node) :
  up j n = Some m → up k m = Some q → up (j + k) n = Some q.
Proof.
  revert n. induction j as [|j IH]; intros n Hj Hk; simpl in *; [by injection Hj as ->|].
  destruct (parent n) as [p|]; [|done]. by apply IH.
Qed.

End paths.

(** ** Materialization: [get_world_state] *)

Section materialization.

Lemma find_common_spec (use8 : bool) (w0 : World) (A B : Node) :
  world_inv use8 w0 → identity_sound use8 w0 A B → state (root A) = state (root B) →
  ∀ (s : nat) (P C : Node) (wP : World),
    P ∈ ancestors A → C ∈ ancestors B → depth P = s → depth C = s →
    tiles_nonzero P → world_of use8 w0 P = Ok wP →
    ∃ (i : nat) (ci : Node) (wi : World),
      find_common use8 (S s) (Some P) (Some C) wP = Ok (i, wi) ∧
      (i ≤ s)%nat ∧ up (s - i) C = Some ci ∧ world_of use8 w0 ci = Ok wi.
Proof.
  intros H0 Hid Hroot. induction s as [|s IH]; intros P C wP HPA HCB HdP HdC Hnz HwP.
  - exists 0%nat, C, wP. cbn [find_common attr]. rsimpl.
    rewrite bool_decide_eq_true_2.
    2: { rewrite (root_depth _ _ HPA HdP), (root_depth _ _ HCB HdC). done. }
    split; [done|]. split; [done|]. split; [done|].
    rewrite <- HwP. symmetry. apply Hid; try done; [congruence|].
    by rewrite (root_depth _ _ HPA HdP), (root_depth _ _ HCB HdC).
  - cbn [find_common attr]. rsimpl.
    destruct (decide (state P = state C)) as [Heq|Hne].
    + rewrite (bool_decide_eq_true_2 _ Heq). exists (S s), C, wP.
      split; [done|]. split; [done|]. rewrite Nat.sub_diag. split; [done|].
      rewrite <- HwP. symmetry. apply Hid; try done. congruence.
    + rewrite (bool_decide_eq_false_2 _ Hne).
      destruct (parent P) as [P'|] eqn:HP'.
      2: { by rewrite (depth_root_node _ HP') in HdP. }
      destruct (parent C) as [C'|] eqn:HC'.
      2: { by rewrite (depth_root_node _ HC') in HdC. }
      rewrite (depth_parent _ _ HP') in HdP. rewrite (depth_parent _ _ HC') in HdC.
      pose proof HwP as Hw'. rewrite (world_of_parent _ _ _ _ HP') in Hw'.
      destruct (world_of use8 w0 P') as [wP'|] eqn:HwP'; [|done]. simpl in Hw'.
      pose proof (world_of_inv _ _ _ _ H0 (tiles_nonzero_parent _ _ HP' Hnz) HwP') as Hinv.
      rewrite (revert_of_apply _ _ _ _ Hinv Hw'). rsimpl.
      destruct (IH P' C' wP') as (i & ci & wi & Hfc & Hi & Hup & Hwi); try done.
      * apply (ancestors_trans _ P); [done|]. rewrite (ancestors_parent _ _ HP').
        right. destruct P'; simpl; by left.
      * apply (ancestors_trans _ C); [done|]. rewrite (ancestors_parent _ _ HC').
        right. destruct C'; simpl; by left.
      * lia.
      * lia.
      * by apply (tiles_nonzero_parent _ _ HP').
      * exists i, ci, wi. split; [done|]. split; [lia|]. split; [|done].
        replace (S s - i)%nat with (S (s - i)) by lia. simpl. by rewrite HC'.
Qed.

Lemma nodes_to_apply_spec (k : nat) (n : Node) :
  (k ≤ depth n)%nat →
  nodes_to_apply k (Some n) = Ok (Some <$> take k (ancestors n)).
Proof.
  revert n. induction k as [|k IH]; intros n Hk; [done|].
  destruct (parent n) as [p|] eqn:Hp.
  2: { rewrite (depth_root_node _ Hp) in Hk. lia. }
  rewrite (depth_parent _ _ Hp) in Hk.
  cbn [nodes_to_apply attr]. rsimpl. rewrite Hp, IH by lia. rsimpl.
  by rewrite (ancestors_parent _ _ Hp).
Qed.

Lemma foldM_app {A B} (f : B → A → result B) (b : B) (l1 l2 : list A) :
  foldM f b (l1 ++ l2) = foldM f b l1 ≫= fun b' => foldM f b' l2.
Proof.
  revert b. induction l1 as [|a l1 IH]; intros b; [done|].
  simpl. destruct (f b a); simpl; [apply IH|done].
Qed.

Lemma replay_spec (use8 : bool) (w0 : World) (k : nat) (n m : Node) (wm : World) :
  up k n = Some m → world_of use8 w0 m = Ok wm →
  foldM (fun w node => a ← attr action node; apply_action use8 a w) wm
        (reverse (Some <$> take k (ancestors n)))
  = world_of use8 w0 n.
Proof.
  revert n. induction k as [|k IH]; intros n Hup Hwm.
  - simpl in Hup. injection Hup as ->. by rewrite take_0.
  - simpl in Hup. destruct (parent n) as [p|] eqn:Hp; [|done].
    rewrite (ancestors_parent _ _ Hp). rewrite firstn_cons, fmap_cons, reverse_cons.
    rewrite foldM_app, (IH p Hup Hwm), (world_of_parent _ _ _ _ Hp).
    destruct (world_of use8 w0 p) as [wp|]; [|done]. rsimpl.
    cbn [attr]. rsimpl. by destruct (apply_action use8 (action n) wp).
Qed.

Theorem get_world_state_spec (use8 : bool) (w0 : World) (A B : Node) (wA wB : World) :
  world_inv use8 w0 → tiles_nonzero A →
  identity_sound use8 w0 A B → state (root A) = state (root B) →
  world_of use8 w0 A = Ok wA → world_of use8 w0 B = Ok wB →
  get_world_state use8 A B wA = Ok wB.
Proof.
  intros H0 HnzA Hid Hroot HwA HwB. unfold get_world_state.
  set (s := Nat.min (depth A) (depth B)).
  destruct (revert_path_spec use8 w0 (depth A - s) A wA H0 HnzA HwA ltac:(lia))
    as (P & wP & HupP & HwP & ->). rsimpl.
  destruct (climb_spec (depth B - s) B ltac:(lia)) as (C & HupC & ->). rsimpl.
  pose proof (depth_up _ _ _ HupP) as HdP. pose proof (depth_up _ _ _ HupC) as HdC.
  destruct (find_common_spec use8 w0 A B H0 Hid Hroot s P C wP)
    as (i & ci & wi & -> & Hi & Hupci & Hwi).
  - by apply (up_ancestors (depth A - s)).
  - by apply (up_ancestors (depth B - s)).
  - lia.
  - lia.
  - intros m pos t Hm. apply HnzA. apply (ancestors_trans _ P); [|done].
    by apply (up_ancestors (depth A - s)).
  - done.
  - rsimpl. rewrite nodes_to_apply_spec by lia. rsimpl.
    rewrite (replay_spec use8 w0 (depth B - i) B ci wi); [done| |done].
    replace (depth B - i)%nat with ((depth B - s) + (s - i))%nat by lia.
    by apply (up_add _ _ _ C).
Qed.

(** X6.  Materializing the node that is already materialized succeeds and
    changes nothing. *)
Lemma get_world_state_same (use8 : bool) (A : Node) (w : World) :
  get_world_state use8 A A w = Ok w.
Proof.
  unfold get_world_state. rewrite Nat.min_id, Nat.sub_diag.
  cbn [revert_path climb find_common]. unfold attr. rsimpl.
  rewrite bool_decide_eq_true_2 by done. rsimpl.
  rewrite Nat.sub_diag. done.
Qed.

End materialization.

(** ** Occurrence counters *)

Section counters.

Lemma sum_counts_insert (m : gmap Z Z) (k c d : Z) :
  m !! k = Some c → sum_counts (<[k := (c + d)%Z]> m) = (sum_counts m + d)%Z.
Proof.
  intros Hk. unfold sum_counts.
  rewrite <- (insert_delete_id m k c Hk) at 2.
  rewrite <- (insert_delete_eq m k (c + d)%Z).
  rewrite !map_fold_insert_L; [lia| | | |]; try (intros; lia); apply lookup_delete_eq.
Qed.

Lemma update_open_nodes_counts (use8 : bool) (y x : Z) (b : bool) (w w' : World) :
  update_open_nodes use8 y x b w = Ok w' → _tile_counts w' = _tile_counts w.
Proof.
  unfold update_open_nodes. destruct b.
  - destruct (foldM _ _ _); [|done]. by intros [= <-].
  - destruct (set_remove _ _); [|done]. rsimpl.
    destruct (foldM _ _ _); [|done]. by intros [= <-].
Qed.

Lemma apply_action_sum (use8 : bool) (act : option (coord * Z)) (w w' : World) :
  apply_action use8 act w = Ok w' →
  sum_counts (_tile_counts w') = (sum_counts (_tile_counts w) + 1)%Z.
Proof.
  unfold apply_action. destruct act as [[pos tile]|]; [|done]. rsimpl.
  destruct (setitem _ _ _); [|done]. rsimpl.
  unfold dict_add. destruct (_tile_counts w !! tile) as [c|] eqn:Hc; [|done]. rsimpl.
  intros Hu%update_open_nodes_counts. rewrite Hu. simpl.
  by apply sum_counts_insert.
Qed.

Lemma revert_action_sum (use8 : bool) (act : option (coord * Z)) (w w' : World) :
  revert_action use8 act w = Ok w' →
  sum_counts (_tile_counts w') = (sum_counts (_tile_counts w) - 1)%Z.
Proof.
  unfold revert_action. destruct act as [[pos tile]|]; [|done]. rsimpl.
  destruct (getitem _ _) as [k|]; [|done]. rsimpl.
  unfold dict_add. destruct (_tile_counts w !! k) as [c|] eqn:Hc; [|done]. rsimpl.
  destruct (setitem _ _ _); [|done]. rsimpl.
  intros Hu%update_open_nodes_counts. rewrite Hu. simpl.
  by apply sum_counts_insert.
Qed.

Lemma revert_path_sum (use8 : bool) (k : nat) (n : Node) (w w' : World) (p : option Node) :
  revert_path use8 k (Some n) w = Ok (p, w') → (k ≤ depth n)%nat →
  p = up k n ∧
  sum_counts (_tile_counts w') = (sum_counts (_tile_counts w) - Z.of_nat k)%Z.
Proof.
  revert n w. induction k as [|k IH]; intros n w Hr Hk.
  - simpl in Hr. injection Hr as <- <-. split; [done|lia].
  - cbn [revert_path] in Hr. unfold attr in Hr. revert Hr. rsimpl.
    destruct (revert_action use8 (action n) w) as [w1|] eqn:Hrev; [|done]. rsimpl.
    destruct (parent n) as [q|] eqn:Hq.
    2: { rewrite (depth_root_node _ Hq) in Hk. lia. }
    rewrite (depth_parent _ _ Hq) in Hk. intros Hr.
    destruct (IH q w1 Hr ltac:(lia)) as [-> Hs]. split; [by simpl; rewrite Hq|].
    rewrite Hs, (revert_action_sum _ _ _ _ Hrev). lia.
Qed.

Lemma climb_up (k : nat) (n : Node) (c : option Node) :
  climb k (Some n) = Ok c → (k ≤ depth n)%nat → c = up k n.
Proof.
  revert n. induction k as [|k IH]; intros n Hc Hk.
  - simpl in Hc. by injection Hc as <-.
  - cbn [climb] in Hc. unfold attr in Hc. revert Hc. rsimpl.
    destruct (parent n) as [q|] eqn:Hq.
    2: { rewrite (depth_root_node _ Hq) in Hk. lia. }
    rewrite (depth_parent _ _ Hq) in Hk. intros Hc.
    rewrite (IH q Hc ltac:(lia)). by simpl; rewrite Hq.
Qed.

Lemma root_parent (n p : Node) : parent n = Some p → root n = root p.
Proof. intros H. destruct n; simpl in *. by rewrite H. Qed.

Lemma root_self (n : Node) : parent n = None → root n = n.
Proof. intros H. destruct n; simpl in *. by rewrite H. Qed.

Lemma root_up (k : nat) (n m : Node) : up k n = Some m → root m = root n.
Proof.
  revert n. induction k as [|k IH]; intros n H; simpl in H; [by injection H as ->|].
  destruct (parent n) as [p|] eqn:Hp; [|done].
  rewrite (root_parent _ _ Hp). by apply IH.
Qed.

Lemma find_common_sum (use8 : bool) (s : nat) (P C : Node) (w w' : World) (i : nat) :
  find_common use8 (S s) (Some P) (Some C) w = Ok (i, w') →
  depth P = s → depth C = s → state (root P) = state (root C) →
  (i ≤ s)%nat ∧
  sum_counts (_tile_counts w') = (sum_counts (_tile_counts w) - Z.of_nat (s - i))%Z.
Proof.
  revert P C w. induction s as [|s IH]; intros P C w Hf HdP HdC Hroot;
    cbn [find_common] in Hf; unfold attr in Hf; revert Hf; rsimpl.
  - rewrite bool_decide_eq_true_2.
    2: { destruct (parent P) eqn:HP; [by rewrite (depth_parent _ _ HP) in HdP|].
         destruct (parent C) eqn:HC; [by rewrite (depth_parent _ _ HC) in HdC|].
         by rewrite (root_self _ HP), (root_self _ HC) in Hroot. }
    intros [= <- <-]. split; [done|]. simpl. lia.
  - case_bool_decide as Hst.
    + intros [= <- <-]. split; [done|]. rewrite Nat.sub_diag. simpl. lia.
    + destruct (revert_action use8 (action P) w) as [w1|] eqn:Hrev; [|done]. rsimpl.
      destruct (parent P) as [P'|] eqn:HP; [|by rewrite (depth_root_node _ HP) in HdP].
      destruct (parent C) as [C'|] eqn:HC; [|by rewrite (depth_root_node _ HC) in HdC].
      rewrite (depth_parent _ _ HP) in HdP. rewrite (depth_parent _ _ HC) in HdC.
      intros Hf. destruct (IH P' C' w1 Hf) as [Hi Hs]; [lia|lia| |].
      { by rewrite <- (root_parent _ _ HP), <- (root_parent _ _ HC). }
      split; [lia|]. rewrite Hs, (revert_action_sum _ _ _ _ Hrev). lia.
Qed.

Lemma nodes_to_apply_length (k : nat) (c : option Node) (l : list (option Node)) :
  nodes_to_apply k c = Ok l → length l = k.
Proof.
  revert c l. induction k as [|k IH]; intros c l Hn; simpl in Hn.
  - by injection Hn as <-.
  - destruct (attr parent c) as [c'|]; [|done]. revert Hn. rsimpl.
    destruct (nodes_to_apply k c') as [l'|] eqn:Hl; [|done]. rsimpl.
    intros [= <-]. simpl. by rewrite (IH _ _ Hl).
Qed.

Lemma replay_sum (use8 : bool) (l : list (option Node)) (w w' : World) :
  foldM (fun w node => a ← attr action node; apply_action use8 a w) w l = Ok w' →
  sum_counts (_tile_counts w') = (sum_counts (_tile_counts w) + Z.of_nat (length l))%Z.
Proof.
  revert w. induction l as [|n l IH]; intros w Hf; simpl in Hf.
  - injection Hf as <-. simpl. lia.
  - destruct (attr action n) as [a|]; [|done]. revert Hf. rsimpl.
    destruct (apply_action use8 a w) as [w1|] eqn:Ha; [|done]. rsimpl.
    intros Hf. rewrite (IH _ Hf), (apply_action_sum _ _ _ _ Ha). simpl length. lia.
Qed.

Theorem get_world_state_sum (use8 : bool) (A B : Node) (w w' : World) :
  state (root A) = state (root B) →
  get_world_state use8 A B w = Ok w' →
  sum_counts (_tile_counts w')
  = (sum_counts (_tile_counts w) - Z.of_nat (depth A) + Z.of_nat (depth B))%Z.
Proof.
  intros Hroot. unfold get_world_state.
  set (s := Nat.min (depth A) (depth B)).
  destruct (revert_path use8 (depth A - s) (Some A) w) as [[p w1]|] eqn:H1; [|done]. rsimpl.
  destruct (revert_path_sum _ _ _ _ _ _ H1 ltac:(lia)) as [-> Hs1].
  destruct (climb (depth B - s) (Some B)) as [c|] eqn:H2; [|done]. rsimpl.
  rewrite (climb_up _ _ _ H2 ltac:(lia)).
  destruct (climb_spec (depth A - s) A ltac:(lia)) as (P & HupP & _).
  destruct (climb_spec (depth B - s) B ltac:(lia)) as (C & HupC & _).
  rewrite HupP, HupC.
  destruct (find_common use8 (S s) (Some P) (Some C) w1) as [[i w2]|] eqn:H3; [|done]. rsimpl.
  pose proof (depth_up _ _ _ HupP) as HdP. pose proof (depth_up _ _ _ HupC) as HdC.
  destruct (find_common_sum _ _ _ _ _ _ _ H3) as [Hi Hs2]; [lia|lia| |].
  { by rewrite (root_up _ _ _ HupP), (root_up _ _ _ HupC). }
  destruct (nodes_to_apply (depth B - i) (Some B)) as [l|] eqn:H4; [|done]. rsimpl.
  intros H5. rewrite (replay_sum _ _ _ _ H5), length_reverse,
    (nodes_to_apply_length _ _ _ H4), Hs2, Hs1. lia.
Qed.

(** C10.  For nodes of one tree: if the counters sum to the depth of the
    last materialized node, then after the grid has been materialized for a
    node the counters sum to the depth of that node. *)
Theorem counters_sum_to_depth (use8 : bool) (last_node node : Node) (w w' : World) :
  state (root last_node) = state (root node) →
  sum_counts (_tile_counts w) = Z.of_nat (depth last_node) →
  get_world_state use8 last_node node w = Ok w' →
  sum_counts (_tile_counts w') = Z.of_nat (depth node).
Proof.
  intros Hroot Hsum Hgws. rewrite (get_world_state_sum _ _ _ _ _ Hroot Hgws). lia.
Qed.

End counters.

(** ** Enumeration of the children *)

Section enumeration.
Context `{ext : Externals}.

Lemma upd_zero_id (g : ndarray) (yx : coord) :
  wf_array g → in_shape g yx → cell g yx = 0%Z → upd g yx 0%Z = g.
Proof. intros Hwf Hin Hz. rewrite <- Hz. by apply upd_id. Qed.

Lemma yield_child_ok (node : Node) (depth : nat) (cum entropy : R) (yx : coord)
    (g : ndarray) (acc : list Node) (tile : Z) (cost : R) :
  wf_array g → in_shape g yx → cell g yx = 0%Z →
  yield_child node depth cum entropy yx (g, acc) (tile, cost)
  = Ok (g, acc ++ [mkNode (Z.of_nat depth + 1, world_hash (upd g yx tile))%Z
                          (Some node) (Some (yx, tile)) cost (cum + entropy)%R]).
Proof.
  intros Hwf Hin Hz. unfold yield_child. cbn [fst snd].
  rewrite (setitem_in_shape _ _ _ Hwf Hin). rsimpl.
  rewrite (setitem_in_shape _ _ _ (upd_wf _ _ _ Hwf) Hin). rsimpl.
  by rewrite upd_upd, (upd_zero_id _ _ Hwf Hin Hz).
Qed.

Lemma yield_child_fold (node : Node) (depth : nat) (cum entropy : R) (yx : coord)
    (g : ndarray) (acc : list Node) (items : list (Z * R)) :
  wf_array g → in_shape g yx → cell g yx = 0%Z →
  foldM (yield_child node depth cum entropy yx) (g, acc) items
  = Ok (g, acc ++ ((fun item : Z * R =>
                      mkNode (Z.of_nat depth + 1, world_hash (upd g yx item.1))%Z
                             (Some node) (Some (yx, item.1)) item.2 (cum + entropy)%R)
                   <$> items)).
Proof.
  intros Hwf Hin Hz. revert acc. induction items as [|[tile cost] items IH]; intros acc.
  - simpl. by rewrite app_nil_r.
  - cbn [foldM]. rewrite (yield_child_ok _ _ _ _ _ _ _ _ _ Hwf Hin Hz). rsimpl.
    rewrite IH. rewrite fmap_cons. by rewrite <- app_assoc.
Qed.

Lemma yield_children_fold (node : Node) (depth : nat) (cum : R) (g : ndarray)
    (acc : list Node) (cells : list (coord * (list Z * option (list R) * option R))) :
  wf_array g →
  Forall (fun c => in_shape g c.1 ∧ getitem g c.1 = Ok 0%Z) cells →
  foldM (fun acc cell =>
           let '(yx, (potential_states, costs, entropy)) := cell in
           foldM (yield_child node depth cum (default 0%R entropy) yx) acc
                 (zip potential_states (default [] costs)))
        (g, acc) cells
  = Ok (g, acc ++ (cells ≫= children_of_cell node depth cum g)).
Proof.
  intros Hwf Hc. revert acc. induction Hc as [|[yx [[sts costs] ent]] cells [Hin Hz] _ IH];
    intros acc.
  - simpl. by rewrite app_nil_r.
  - cbn [foldM]. simpl in Hin, Hz. apply (getitem_cell _ _ _ Hwf Hin) in Hz.
    rewrite (yield_child_fold _ _ _ _ _ _ _ _ Hwf Hin Hz). rsimpl.
    rewrite IH. rewrite bind_cons. by rewrite <- app_assoc.
Qed.

(** C9.  When every enumerated cell is an undecided cell of the
    (well-formed) materialized grid, the enumeration of the children
    succeeds, returns the grid unchanged, and every child has the node as
    parent, a placement (cell, tile) at one of the cells as action, and as
    identity the depth plus one with the content hash of the grid in which
    that single placement is made. *)
Theorem enumeration_restores_grid (node : Node) (depth : nat) (cum_entropy : R)
    (world_state : ndarray)
    (cells : list (coord * (list Z * option (list R) * option R))) :
  wf_array world_state →
  Forall (fun c => in_shape world_state c.1 ∧ getitem world_state c.1 = Ok 0%Z) cells →
  ∃ children : list Node,
    yield_children node depth cum_entropy world_state cells = Ok (world_state, children) ∧
    children = cells ≫= children_of_cell node depth cum_entropy world_state ∧
    Forall (fun child =>
              ∃ (yx : coord) (tile : Z) (placed : ndarray),
                yx ∈ cells.*1 ∧
                action child = Some (yx, tile) ∧ parent child = Some node ∧
                setitem world_state yx tile = Ok placed ∧
                state child = (Z.of_nat depth + 1, world_hash placed)%Z) children.
Proof.
  intros Hwf Hcells. eexists. split; [|split; [reflexivity|]].
  - unfold yield_children. by rewrite (yield_children_fold _ _ _ _ [] _ Hwf Hcells).
  - apply Forall_forall. intros child Hchild.
    apply list_elem_of_bind in Hchild as (cell & Hchild & Hcell).
    unfold children_of_cell in Hchild.
    apply list_elem_of_fmap in Hchild as ([tile cost] & -> & _).
    rewrite Forall_forall in Hcells. destruct (Hcells _ Hcell) as [Hin _].
    exists cell.1, tile, (upd world_state cell.1 tile).
    split; [by apply list_elem_of_fmap_2|]. split; [done|]. split; [done|].
    split; [by apply setitem_in_shape|done].
Qed.

End enumeration.

(** ** The constructor and its polynomial fit *)

Section constructor.
Context `{ext : Externals}.

Lemma init_singular (kw : Kwargs) :
  (size_of (starting_state kw) - count_nonzero (starting_state kw) = 0)%Z →
  __init__ kw = Raise LinAlgError.
Proof.
  intros HT. unfold __init__. rewrite HT. unfold linalg_solve.
  rewrite (bool_decide_eq_true_2 (det3 _ = 0%R)); [reflexivity|]. unfold det3. lra.
Qed.

Lemma init_poly (kw : Kwargs) :
  let T := (size_of (starting_state kw) - count_nonzero (starting_state kw))%Z in
  T ≠ 0%Z →
  ∃ (self : Setup) (s0 : State), __init__ kw = Ok (self, s0) ∧
    _tile_freq_adjustment_poly self = (4 / IZR T, -4, IZR T)%R ∧
    _number_of_tiles_to_process self = T ∧
    _max_freq_adjust self = max_freq_adjust kw.
Proof.
  intros T HT. unfold __init__. fold T. unfold linalg_solve.
  assert (IZR T ≠ 0)%R as Ht by (by apply not_0_IZR).
  assert (IZR T * IZR T * IZR T ≠ 0)%R as Ht3.
  { intros H3. apply Rmult_integral in H3 as [H3|H3]; [|done].
    by apply Rmult_integral in H3 as [H3|H3]. }
  rewrite (bool_decide_eq_false_2 (det3 _ = 0%R)).
  2: { unfold det3. intros Hd. apply Ht3. lra. }
  rsimpl. eexists _, _. split; [reflexivity|]. simpl. split; [|split; reflexivity].
  unfold det3. f_equal; [f_equal|]; field;
    try (split; [exact Ht|intros Hd; apply Ht3; lra]); try (intros Hd; apply Ht3; lra).
Qed.

(** The fields that the constructor copies from its arguments. *)
Lemma init_fields (kw : Kwargs) (self : Setup) (s0 : State) :
  __init__ kw = Ok (self, s0) →
  _number_of_tiles_to_process self
  = (size_of (starting_state kw) - count_nonzero (starting_state kw))%Z ∧
  _max_freq_adjust self = max_freq_adjust kw ∧
  _min_min_temperature self = min_min_temperature kw ∧
  _max_min_temperature self = max_min_temperature kw.
Proof.
  unfold __init__. destruct (linalg_solve _ _); [|done]. by intros [= <- <-].
Qed.

End constructor.

(** ** The tile catalog *)

Section catalog.
Context `{ext : Externals}.
Import WFC_Sample.

Lemma lookup_merge_tile_data (old new : gmap Z (list Z * R)) (k : Z) :
  merge_tile_data old new !! k
  = match new !! k, old !! k with
    | Some v, Some o => Some (v.1, (o.2 + v.2)%R)
    | Some v, None => Some (v.1, (0 + v.2)%R)
    | None, Some o => Some (o.1, (o.2 + o.2)%R)
    | None, None => None
    end.
Proof.
  unfold merge_tile_data. rewrite map_lookup_imap, lookup_union.
  destruct (new !! k) as [v|], (old !! k) as [o|]; reflexivity.
Qed.

Lemma merge_doubles_absent (old new : gmap Z (list Z * R)) (k : Z) (px : list Z) (f : R) :
  old !! k = Some (px, f) → new !! k = None →
  merge_tile_data old new !! k = Some (px, (f + f)%R).
Proof. intros Ho Hn. by rewrite lookup_merge_tile_data, Ho, Hn. Qed.

Lemma np_unique_replicate (row : list Z) (n : nat) :
  np_unique (replicate (S n) row) = [(row, Z.of_nat (S n))].
Proof.
  induction n as [|n IH]; [done|].
  change (replicate (S (S n)) row) with (row :: replicate (S n) row).
  unfold np_unique in *. cbn [foldr]. rewrite IH. cbn [insert_count].
  rewrite bool_decide_eq_true_2 by done. f_equal. f_equal. lia.
Qed.

Lemma prepare_uniform (tile : list Z) (tw th : Z) :
  (prepare (uniform_image tile) tw th).1.1 = {[ tile_to_hash tile := (tile, 1%R) ]}.
Proof.
  unfold prepare, uniform_image. cbn [fst snd img_tiles].
  rewrite np_unique_replicate. cbn [fmap list_fmap fst snd dict_of foldl].
  rewrite length_replicate. rewrite insert_empty. f_equal. f_equal.
  change (Z.of_nat 9) with 9%Z. field.
Qed.

Lemma prepare_uniform_super (tile : list Z) (tw th : Z) :
  (prepare (uniform_image tile) tw th).1.2 = [(replicate 9 (tile_to_hash tile), 1%Z)].
Proof. reflexivity. Qed.

Lemma merge_tuples_uniform (ha hb : Z) :
  ∃ std, merge_tuples [(replicate 9 ha, 1%Z)] [(replicate 9 hb, 1%Z)] = Ok std.
Proof.
  unfold merge_tuples.
  cbn [head from_option mbind result_bind app foldl defaultdict_add fst snd].
  destruct (bool_decide (replicate 9 hb = replicate 9 ha)); vm_compute; eauto.
Qed.

(** C1 (violated by the code).  Build a catalog from two samples, the first
    made of tile [a] only, the second of tile [b] only, with distinct
    hashes.  The catalog is built, and the frequency it stores for [a] is 2,
    although the sum of the per-sample frequencies of [a] over the samples
    in which it occurs is 1: a tile absent from a later sample has its
    accumulated frequency added to itself. *)
Theorem absent_tile_frequency_doubled (a b : list Z) (tw th : Z) :
  tile_to_hash a ≠ tile_to_hash b →
  ∃ smp : t,
    __init__ [uniform_image a; uniform_image b] tw th = Ok smp ∧
    snd <$> tile_data smp !! tile_to_hash a = Some 2%R ∧
    summed_frequency [(prepare (uniform_image a) tw th).1.1;
                      (prepare (uniform_image b) tw th).1.1] (tile_to_hash a) = 1%R.
Proof.
  intros Hne. unfold __init__. cbn [head from_option mbind result_bind tail].
  destruct (prepare (uniform_image a) tw th) as [[tda sta] dims] eqn:Ha.
  cbn [merge_images].
  destruct (prepare (uniform_image b) tw th) as [[tdb stb] dimsb] eqn:Hb.
  pose proof (prepare_uniform a tw th) as Hta. rewrite Ha in Hta. simpl in Hta.
  pose proof (prepare_uniform b tw th) as Htb. rewrite Hb in Htb. simpl in Htb.
  pose proof (prepare_uniform_super a tw th) as Hsa. rewrite Ha in Hsa. simpl in Hsa.
  pose proof (prepare_uniform_super b tw th) as Hsb. rewrite Hb in Hsb. simpl in Hsb.
  subst. cbn [tile_data super_tile_data].
  destruct (merge_tuples_uniform (tile_to_hash a) (tile_to_hash b)) as [std Hstd].
  cbn [replicate] in Hstd. rewrite Hstd.
  cbn [mbind result_bind merge_images].
  eexists. split; [reflexivity|]. cbn [tile_data]. split.
  - rewrite (merge_doubles_absent _ _ _ a 1%R).
    + simpl. f_equal; lra.
    + apply lookup_singleton_eq.
    + by apply lookup_singleton_ne.
  - unfold summed_frequency. cbn [foldr fst snd].
    rewrite lookup_singleton_eq, lookup_singleton_ne by done. simpl. lra.
Qed.

End catalog.

(** ** A supplied starting grid *)

Section starting_grid.
Context `{ext : Externals}.

Lemma init24 :
  ∃ self s0, __init__ kwargs24 = Ok (self, s0) ∧
    _use_8cardinals self = false ∧
    ∃ w0, open_nodes_on_depth_zero self (world s0) = Ok w0 ∧
      w0 = {| _temp_world_state := grid24; _tile_counts := {[ 7%Z := 0%Z ]};
              _temp_world_open_super_tiles := frontier24 |}.
Proof.
  destruct (init_poly kwargs24) as (self & s0 & Hinit & _); [done|].
  exists self, s0. split; [done|].
  unfold __init__ in Hinit. destruct (linalg_solve _ _) as [poly|]; [|done].
  injection Hinit as <- <-. split; [done|].
  eexists. split; [|reflexivity].
  unfold open_nodes_on_depth_zero. cbn [_starting_state _use_8cardinals world].
  vm_compute. reflexivity.
Qed.

Lemma get_world_state_siblings (use8 : bool) (A B r : Node) (w : World) :
  parent A = Some r → parent B = Some r → parent r = None → state A ≠ state B →
  get_world_state use8 A B w
  = revert_action use8 (action A) w ≫= apply_action use8 (action B).
Proof.
  intros HA HB Hr Hne.
  destruct A as [sA pA aA cA eA], B as [sB pB aB cB eB], r as [sr pr ar cr er].
  simpl in HA, HB, Hr, Hne. subst pA pB pr.
  unfold get_world_state.
  simpl. rewrite (bool_decide_eq_false_2 _ Hne). simpl.
  destruct (revert_action use8 aA w) as [w1|]; [|reflexivity]. simpl.
  rewrite bool_decide_eq_true_2 by done. simpl.
  by destruct (apply_action use8 aB w1).
Qed.

(** C6 (violated by the code).  Starting grid of 2 x 4 cells whose two
    last cells of the second row are decided, 4-cardinal mode: [world24] is
    the world of the root as [open_nodes_on_depth_zero] builds it (lemma
    [init24]).  For the children A (tile placed at (0, 3)) and B (tile
    placed at (0, 1)) of the root, with distinct identities: from the world
    of A, materializing B and then A again yields a world that differs from
    the world of A, the open cell (0, 0) is lost. *)
Theorem round_trip_loses_open_cell (hA hB : Z) :
  hA ≠ hB →
  let A := child24 hA (0, 3)%Z in
  let B := child24 hB (0, 1)%Z in
  let wA := world_at [0; 0; 0; 7; 0; 0; 7; 7]%Z
              {[ (0, 0)%Z; (0, 1)%Z; (0, 2)%Z; (1, 1)%Z ]} in
  let wA' := world_at [0; 0; 0; 7; 0; 0; 7; 7]%Z
               {[ (0, 1)%Z; (0, 2)%Z; (1, 1)%Z ]} in
  world_of false world24 A = Ok wA ∧
  get_world_state false A B wA ≫= get_world_state false B A = Ok wA' ∧
  wA' ≠ wA.
Proof.
  intros Hne A B wA wA'.
  assert (state A ≠ state B) as HAB by (intros [=]; done).
  assert (state B ≠ state A) as HBA by (intros [=]; done).
  split; [vm_compute; reflexivity|]. split.
  - rewrite (get_world_state_siblings false A B root24) by done.
    assert (revert_action false (action A) wA ≫= apply_action false (action B)
            = Ok (world_at [0; 7; 0; 0; 0; 0; 7; 7]%Z
                    {[ (0, 0)%Z; (0, 2)%Z; (0, 3)%Z; (1, 1)%Z ]})) as ->
      by (vm_compute; reflexivity).
    rsimpl. rewrite (get_world_state_siblings false B A root24) by done.
    vm_compute. reflexivity.
  - vm_compute. intros [=].
Qed.

End starting_grid.

(** ** Runs that end at the first step *)

Section runs.
Context `{ext : Externals}.

Lemma fringe_pop_singleton (v : R) (n : Node) : fringe_pop [(v, n)] = Some (n, []).
Proof.
  destruct (fringe_pop_perm v n []) as (m & l' & Hpop & w & Hperm).
  rewrite Hpop. apply Permutation_singleton_l in Hperm.
  injection Hperm as _ <- <-. done.
Qed.

Lemma count_nonzero_full (a : ndarray) :
  Forall (fun v => v ≠ 0%Z) (data a) → (size_of a - count_nonzero a = 0)%Z.
Proof.
  intros Hall. unfold size_of, count_nonzero.
  assert (filter (λ v : Z, v ≠ 0%Z) (data a) = data a) as ->; [|lia].
  induction Hall as [|v l Hv _ IH]; [done|].
  by rewrite filter_cons_True, IH.
Qed.

(** C2 (violated by the code).  For every starting grid without undecided
    (zero) cells the number of cells to fill is 0, the linear system of the
    constructor is singular, and constructing the search problem raises
    [LinAlgError]: the engine never runs, and the run propagates the
    exception instead of returning the starting grid. *)
Theorem prefilled_grid_crashes_constructor (kw : Kwargs) :
  Forall (fun v => v ≠ 0%Z) (data (starting_state kw)) →
  __init__ kw = Raise LinAlgError ∧
  ∀ fuel, generate_single fuel kw = Propagates LinAlgError.
Proof.
  intros Hall. pose proof (init_singular kw (count_nonzero_full _ Hall)) as Hinit.
  split; [done|]. intros fuel. unfold generate_single. by rewrite Hinit.
Qed.

Lemma init_inv (kw : Kwargs) (self : Setup) (s0 : State) :
  __init__ kw = Ok (self, s0) →
  initial self = mkNode (0, 0)%Z None None 0 0 ∧
  _stop_proxy self = stop_proxy kw ∧
  _starting_state self =
    (if bool_decide (count_nonzero (starting_state kw) > 0)%Z
     then Some (starting_state kw) else None) ∧
  world s0 = {| _temp_world_state := starting_state kw;
                _tile_counts := (fun _ => 0%Z) <$> WFC_Sample.tile_data (sample kw);
                _temp_world_open_super_tiles := ∅ |} ∧
  _best_node s0 = None ∧ _last_node s0 = None ∧ _stop s0 = false ∧ polls s0 = 0%nat.
Proof.
  unfold __init__. destruct (linalg_solve _ _); [|done]. rsimpl.
  intros [= <- <-]. simpl. done.
Qed.

Lemma init_proxies (kw kw' : Kwargs) (self : Setup) (s0 : State) :
  __init__ kw = Ok (self, s0) →
  starting_state kw' = starting_state kw →
  ∃ self' s0', __init__ kw' = Ok (self', s0').
Proof.
  unfold __init__. intros Hi Hs. rewrite Hs.
  destruct (linalg_solve _ _); [|done]. rsimpl. eauto.
Qed.

Lemma sum_counts_zero {V} (m : gmap Z V) : sum_counts ((fun _ => 0%Z) <$> m) = 0%Z.
Proof.
  unfold sum_counts. induction m as [|k v m Hk _ IH] using map_first_key_ind.
  - by rewrite fmap_empty.
  - rewrite fmap_insert, map_fold_insert_L.
    + rewrite IH. lia.
    + intros. lia.
    + by rewrite lookup_fmap, Hk.
Qed.

(** A proxy that reads true at the first poll interrupts the first
    expansion, and the interruption makes [generate_single] return [None]. *)
Lemma first_poll_interrupts (kw : Kwargs) (get : nat → bool)
    (self : Setup) (s0 : State) (fuel : nat) :
  stop_proxy kw = Some get → get 0%nat = true →
  __init__ kw = Ok (self, s0) →
  successors self (initial self) s0 = Interrupted ∧
  generate_single (S fuel) kw = Returns None.
Proof.
  intros Hstop Hget Hinit.
  destruct (init_inv _ _ _ Hinit) as (_ & Hproxy & _ & _ & _ & _ & Hst & Hpolls).
  assert (successors self (initial self) s0 = Interrupted) as Hsucc.
  { unfold successors. by rewrite Hproxy, Hstop, Hpolls, Hget. }
  split; [done|].
  unfold generate_single. rewrite Hinit. unfold best_first_search.
  cbn [search]. rewrite fringe_pop_singleton. unfold goal_test. rewrite Hst.
  by rewrite Hsucc.
Qed.

(** C7 (amended).  If the cancellation proxy reads true at its first read,
    the first expansion is interrupted before anything is assigned: the grid
    is the starting grid, every counter is 0 and no best node is recorded.
    The run then produces no grid: [generate_single] returns [None], and
    [compute] raises: the host's interruption exception when the proxy
    still reads true in the [finally] block and the host's flag is set,
    [AttributeError] from [get_solution_state] otherwise. *)
Theorem cancelled_before_first_expansion (kw : Kwargs) (get : nat → bool)
    (self : Setup) (s0 : State) (fuel : nat) (interrupted : bool) :
  stop_proxy kw = Some get → get 0%nat = true →
  __init__ kw = Ok (self, s0) →
  successors self (initial self) s0 = Interrupted ∧
  _temp_world_state (world s0) = starting_state kw ∧
  (∀ tile count : Z, _tile_counts (world s0) !! tile = Some count → count = 0%Z) ∧
  _best_node s0 = None ∧
  generate_single (S fuel) kw = Returns None ∧
  compute (S fuel) kw get interrupted
  = Propagates (if get 1%nat && interrupted
                then InterruptProcessingException else AttributeError).
Proof.
  intros Hstop Hget Hinit.
  destruct (first_poll_interrupts kw get self s0 fuel Hstop Hget Hinit) as [Hsucc Hgen].
  destruct (init_inv _ _ _ Hinit) as (_ & _ & _ & Hworld & Hbest & _).
  split; [done|]. rewrite Hworld. split; [done|]. split.
  { cbn [_tile_counts]. intros tile count. rewrite lookup_fmap.
    destruct (_ !! tile); simpl; intros [=]; done. }
  split; [done|]. split; [done|].
  unfold compute.
  match goal with |- context [__init__ ?k] =>
    destruct (init_proxies kw k self s0 Hinit eq_refl) as (self' & s0' & Hinit') end.
  rewrite Hinit'.
  destruct (init_inv _ _ _ Hinit') as (_ & Hproxy' & _ & _ & Hbest' & _ & Hst' & Hpolls').
  cbn [stop_proxy] in Hproxy'.
  unfold best_first_search. cbn [search]. rewrite fringe_pop_singleton.
  unfold goal_test. rewrite Hst'. unfold successors.
  rewrite Hproxy', Hpolls', Hget.
  unfold get_solution_state. cbn [polled polls _best_node]. rewrite Hbest', Hpolls'.
  cbn [from_option mbind result_bind].
  by destruct (get 1%nat), interrupted.
Qed.

End runs.

(** ** Depth adjustment and temperature *)

Section numeric.
Context `{ext : Externals}.

(** C3 (amended).  When at least one cell is to be filled (T > 0), the
    constructor succeeds and, for every depth d, the depth adjustment used
    by the cost model equals strength * (Q(d) / T), for every quadratic Q
    with Q(0) = 0, Q(T) = 0 and Q(T/2) = T. *)
Theorem depth_adjustment_formula (kw : Kwargs) :
  let T := (size_of (starting_state kw) - count_nonzero (starting_state kw))%Z in
  (0 < T)%Z →
  ∃ (self : Setup) (s0 : State), __init__ kw = Ok (self, s0) ∧
    ∀ q2 q1 q0 : R,
      poly1d (q2, q1, q0) 0 = 0%R →
      poly1d (q2, q1, q0) (IZR T) = 0%R →
      poly1d (q2, q1, q0) (IZR T / 2) = IZR T →
      ∀ d : Z,
        _tile_freq_adjustment_func self d
        = (max_freq_adjust kw * (poly1d (q2, q1, q0) (IZR d) / IZR T))%R.
Proof.
  intros T HT.
  destruct (init_poly kw) as (self & s0 & Hinit & Hpoly & HTs & Hm); [fold T; lia|].
  fold T in Hpoly, HTs. exists self, s0. split; [done|].
  intros q2 q1 q0 H0 H1 H2 d. unfold _tile_freq_adjustment_func.
  rewrite Hpoly, HTs, Hm. unfold poly1d in *.
  assert (0 < IZR T)%R as Ht by (by apply IZR_lt).
  assert (q0 = 0)%R as -> by lra.
  assert (q1 = 4)%R as ->.
  { assert (IZR T * (q2 * IZR T + q1) = 0)%R as Ha by lra.
    assert (IZR T * (q2 * IZR T + 2 * q1 - 4) = 0)%R as Hb.
    { replace (IZR T * (q2 * IZR T + 2 * q1 - 4))%R
        with (4 * (q2 * (IZR T / 2) * (IZR T / 2) + q1 * (IZR T / 2) + 0 - IZR T))%R
        by field. lra. }
    apply Rmult_integral in Ha as [Ha|Ha]; [lra|].
    apply Rmult_integral in Hb as [Hb|Hb]; [lra|]. lra. }
  assert (q2 = - 4 / IZR T)%R as ->.
  { assert (IZR T * (q2 * IZR T + 4) = 0)%R as Ha by lra.
    apply Rmult_integral in Ha as [Ha|Ha]; [lra|].
    apply (Rmult_eq_reg_r (IZR T)); [|lra]. field_simplify; lra. }
  field. lra.
Qed.

(** The ratio branches on whether the depth differs from the prior one,
    not on its sign. *)
Lemma temp_ratio_cases (self : Setup) (depth prior_depth : Z) :
  let T := _number_of_tiles_to_process self in
  T ≠ 0%Z →
  temp_ratio self depth prior_depth
  = Ok (if bool_decide (depth = prior_depth)
        then (float_pow (IZR depth / IZR T) (5 / 2) / 80)%R
        else Rmin (9 / 10) (IZR (Z.abs (prior_depth - depth) * 3) / sqrt (IZR T))).
Proof.
  intros T HT. unfold temp_ratio. fold T. rewrite (bool_decide_eq_false_2 _ HT). f_equal.
  destruct (decide (depth = prior_depth)) as [->|Hne].
  - rewrite bool_decide_eq_false_2 by lia. by rewrite bool_decide_eq_true_2.
  - rewrite bool_decide_eq_true_2 by lia. by rewrite bool_decide_eq_false_2.
Qed.

(** C4 (amended).  For T <> 0 and every pair (depth, prior_depth): the
    temperature ratio equals (depth/T)^2.5 / 80 when the depth is unchanged,
    and min(0.9, |prior_depth - depth| * 3 / sqrt(T)) when it differs
    (decreased or increased); the new temperature equals
    floor * ratio + current_temperature * (1 - ratio), with floor the
    max_min_temperature when depth <= prior_depth and the
    min_min_temperature when the depth increased. *)
Theorem temperature_formula (self : Setup) (current_temperature : R)
    (depth prior_depth : Z) :
  let T := _number_of_tiles_to_process self in
  T ≠ 0%Z →
  let ratio :=
    if bool_decide (depth = prior_depth)
    then (float_pow (IZR depth / IZR T) (5 / 2) / 80)%R
    else Rmin (9 / 10) (IZR (Z.abs (prior_depth - depth) * 3) / sqrt (IZR T)) in
  let floor :=
    if bool_decide (depth ≤ prior_depth)%Z
    then _max_min_temperature self else _min_min_temperature self in
  temp_ratio self depth prior_depth = Ok ratio ∧
  get_new_temperature self current_temperature depth prior_depth
  = Ok (floor * ratio + current_temperature * (1 - ratio))%R.
Proof.
  intros T HT ratio floor.
  pose proof (temp_ratio_cases self depth prior_depth HT) as Hr. fold T ratio in Hr.
  split; [done|]. unfold get_new_temperature. by rewrite Hr.
Qed.

Lemma float_pow_one (y : R) : float_pow 1 y = 1%R.
Proof.
  unfold float_pow. rewrite bool_decide_eq_false_2 by lra.
  unfold Rpower. by rewrite ln_1, Rmult_0_r, exp_0.
Qed.

End numeric.

(** ** The run as a function of its inputs *)

Section determinism.
Context `{ext : Externals}.















End determinism.

(** ** Open cells are undecided cells *)

Section open_cells.
Context `{ext : Externals}.

Lemma Forall_zip_fst {A B} (P : A → Prop) (l : list A) (k : list B) :
  Forall P l → Forall (fun c => P c.1) (zip l k).
Proof.
  intros Hl. revert k. induction Hl as [|a l Ha _ IH]; intros [|b k]; simpl; auto.
Qed.

(** the enumeration inside [successors] leaves the world as materialized *)
Lemma expand_keeps_world (self : Setup) (node : Node) (cum_entropy : R)
    (s s' : State) (children : list Node) :
  wf_array (_temp_world_state (world s)) → frontier_open (world s) →
  expand self node cum_entropy s = Ok (children, s') →
  world s' = world s.
Proof.
  intros Hwf Hopen. unfold expand.
  destruct (potential_collapses _ _ _ _ _) as [[collapses g]|]; [|done]. rsimpl.
  destruct (_ || _); [by intros [= _ <-]|].
  unfold yield_children.
  rewrite (yield_children_fold node (depth node) cum_entropy
             (_temp_world_state (world s)) []
             (zip (set_iter (_temp_world_open_super_tiles (world s))) collapses) Hwf).
  2: { apply (Forall_zip_fst (fun c : coord =>
             in_shape (_temp_world_state (world s)) c
             ∧ getitem (_temp_world_state (world s)) c = Ok 0%Z)).
    apply Forall_forall. intros c Hc. apply Hopen.
    apply elem_of_elements. by rewrite <- (set_iter_perm _). }
  rsimpl. intros [= _ <-]. by destruct (world s).
Qed.

Lemma apply_keeps_frontier_open (use8 : bool) (act : option (coord * Z)) (w w' : World) :
  wf_array (_temp_world_state w) → frontier_open w →
  apply_action use8 act w = Ok w' →
  wf_array (_temp_world_state w') ∧ frontier_open w'.
Proof.
  intros Hwf Hopen Happ.
  destruct (apply_action_inv _ _ _ _ Happ) as (pos & tile & c & -> & HF & Hc).
  destruct (Hopen _ HF) as [Hin Hz].
  rewrite (apply_action_ok _ _ _ _ _ Hwf Hin HF Hc) in Happ. injection Happ as <-.
  simpl. split; [by apply upd_wf|]. intros q. simpl. unfold closed_frontier.
  rewrite elem_of_union, elem_of_list_to_set, list_elem_of_filter, elem_of_difference,
    elem_of_singleton, elem_of_indices_to_check.
  change (in_shape (upd (_temp_world_state w) pos tile) q)
    with (in_shape (_temp_world_state w) q).
  intros [(Hq0 & Hqin & _)|[HqF Hne]].
  - split; [done|]. rewrite getitem_in_shape; [by rewrite Hq0|by apply upd_wf|done].
  - destruct (Hopen _ HqF) as [Hqin Hqz]. split; [done|].
    apply (getitem_cell _ _ _ Hwf Hqin) in Hqz.
    rewrite getitem_in_shape; [|by apply upd_wf|done].
    rewrite cell_upd_ne by done. by rewrite Hqz.
Qed.

Lemma revert_keeps_frontier_open (use8 : bool) (pos : coord) (tile : Z) (w w' : World) :
  wf_array (_temp_world_state w) → frontier_open w →
  in_shape (_temp_world_state w) pos →
  revert_action use8 (Some (pos, tile)) w = Ok w' →
  wf_array (_temp_world_state w') ∧ frontier_open w'.
Proof.
  intros Hwf Hopen Hin Hrev.
  destruct (_tile_counts w !! cell (_temp_world_state w) pos) as [c|] eqn:Hc.
  2: { unfold revert_action in Hrev. revert Hrev. rsimpl.
       rewrite (getitem_in_shape _ _ Hwf Hin). rsimpl. unfold dict_add. by rewrite Hc. }
  rewrite (revert_action_ok _ _ _ _ _ Hwf Hin Hc) in Hrev. injection Hrev as <-.
  simpl. split; [by apply upd_wf|]. intros q. simpl. unfold reopened_frontier.
  rewrite elem_of_difference, elem_of_union, elem_of_singleton.
  change (in_shape (upd (_temp_world_state w) pos 0) q)
    with (in_shape (_temp_world_state w) q).
  intros [[->|HqF] _].
  - split; [done|]. rewrite getitem_in_shape; [|by apply upd_wf|done].
    by rewrite cell_upd_eq.
  - destruct (Hopen _ HqF) as [Hqin Hqz]. split; [done|].
    apply (getitem_cell _ _ _ Hwf Hqin) in Hqz.
    rewrite getitem_in_shape; [|by apply upd_wf|done].
    destruct (decide (q = pos)) as [->|Hne]; [by rewrite cell_upd_eq|].
    rewrite cell_upd_ne by done. by rewrite Hqz.
Qed.

End open_cells.

(** ** Round trips *)

Section round_trips.

Lemma identity_sound_sym (use8 : bool) (w0 : World) (A B : Node) :
  identity_sound use8 w0 A B → identity_sound use8 w0 B A.
Proof. intros Hid p c Hp Hc Hd Hs. symmetry. by apply Hid. Qed.

(** X7.  Where the world of the root satisfies the frontier invariant, a
    round trip of [get_world_state] between two nodes of the tree restores
    the grid, the counters and the frontier. *)
Lemma materialize_round_trip (use8 : bool) (w0 : World) (A B : Node) (wA wB : World) :
  world_inv use8 w0 → tiles_nonzero A → tiles_nonzero B →
  identity_sound use8 w0 A B → state (root A) = state (root B) →
  world_of use8 w0 A = Ok wA → world_of use8 w0 B = Ok wB →
  get_world_state use8 A B wA ≫= get_world_state use8 B A = Ok wA.
Proof.
  intros H0 HnA HnB Hid Hroot HwA HwB.
  rewrite (get_world_state_spec use8 w0 A B wA wB); try done. rsimpl.
  apply (get_world_state_spec use8 w0 B A wB wA); try done.
  by apply identity_sound_sym.
Qed.

(** The world of the root when no starting grid is supplied: an all-zero
    grid whose only open cell is the centre. *)
Lemma seed_world_inv (use8 : bool) (g : ndarray) (counts : gmap Z Z) :
  wf_array g → Forall (fun v => v = 0%Z) (data g) →
  (0 < (shape g).1)%Z → (0 < (shape g).2)%Z →
  world_inv use8
    {| _temp_world_state := g; _tile_counts := counts;
       _temp_world_open_super_tiles :=
         {[ ((shape g).1 `div` 2, (shape g).2 `div` 2)%Z ]} ∪ ∅ |}.
Proof.
  intros Hwf Hzero Hh Hw. split; [done|]. right. split; simpl.
  - intros q Hq. unfold cell.
    destruct (data g !! offset g q) as [v|] eqn:Hv; [|done]. simpl.
    rewrite Forall_forall in Hzero. apply Hzero. by apply list_elem_of_lookup_2 in Hv.
  - eexists. split; [|by rewrite union_empty_r_L].
    split; simpl; split; try (apply Z.div_pos; lia); apply Z.div_lt_upper_bound; lia.
Qed.

End round_trips.

(** ** Placing and removing a tile *)

Section world_state.

(** X1.  On a well-formed grid, applying a placement at an open cell of the
    grid, of a tile that has a counter, succeeds: the cell holds the tile,
    the other cells are unchanged, the counter of the tile is incremented,
    and the frontier loses the cell and gains the undecided neighbours of
    the cell that lie in the grid. *)
Theorem apply_action_closes_cell (use8 : bool) (w : World) (pos : coord) (tile c : Z) :
  wf_array (_temp_world_state w) → in_shape (_temp_world_state w) pos →
  pos ∈ _temp_world_open_super_tiles w →
  _tile_counts w !! tile = Some c →
  ∃ w' : World,
    apply_action use8 (Some (pos, tile)) w = Ok w' ∧
    getitem (_temp_world_state w') pos = Ok tile ∧
    (∀ q, in_shape (_temp_world_state w) q → q ≠ pos →
          getitem (_temp_world_state w') q = getitem (_temp_world_state w) q) ∧
    _tile_counts w' = <[tile := (c + 1)%Z]> (_tile_counts w) ∧
    ∀ q, q ∈ _temp_world_open_super_tiles w' ↔
         (q ∈ _temp_world_open_super_tiles w ∧ q ≠ pos) ∨
         (in_shape (_temp_world_state w) q ∧ adjacent use8 pos q ∧
          getitem (_temp_world_state w) q = Ok 0%Z).
Proof.
  intros Hwf Hin HF Hc. eexists. split; [by apply apply_action_ok|]. simpl.
  pose proof (upd_wf _ pos tile Hwf) as Hwf'.
  split; [|split; [|split; [done|]]].
  - rewrite getitem_in_shape by done. by rewrite cell_upd_eq.
  - intros q Hq Hne. rewrite !getitem_in_shape by done. by rewrite cell_upd_ne.
  - intros q. unfold closed_frontier.
    rewrite elem_of_union, elem_of_list_to_set, list_elem_of_filter,
      elem_of_difference, elem_of_singleton, elem_of_indices_to_check.
    change (in_shape (upd (_temp_world_state w) pos tile) q)
      with (in_shape (_temp_world_state w) q).
    destruct pos as [y x]. simpl. split.
    + intros [(Hz & Hq & Hadj)|[? ?]]; [right|by left].
      split; [done|]. split; [done|].
      rewrite getitem_in_shape by done.
      rewrite cell_upd_ne in Hz; [by rewrite Hz|done|done|].
      intros ->. by apply adjacent_ne in Hadj.
    + intros [[? ?]|(Hq & Hadj & Hz)]; [by right|left].
      split; [|done]. apply getitem_cell in Hz; [|done|done].
      rewrite cell_upd_ne; [done|done|done|].
      intros ->. by apply adjacent_ne in Hadj.
Qed.

(** X2.  Applying a placement at a cell of the grid that is not open, or of a
    tile without a counter, raises [KeyError]. *)
Theorem apply_action_not_open_raises (use8 : bool) (w : World) (pos : coord) (tile : Z) :
  wf_array (_temp_world_state w) → in_shape (_temp_world_state w) pos →
  pos ∉ _temp_world_open_super_tiles w ∨ _tile_counts w !! tile = None →
  apply_action use8 (Some (pos, tile)) w = Raise KeyError.
Proof.
  intros Hwf Hin Hor. unfold apply_action. rsimpl.
  rewrite setitem_in_shape by done. rsimpl. unfold dict_add.
  destruct (_tile_counts w !! tile) as [c|] eqn:Hc; [|done]. rsimpl.
  destruct Hor as [HF|?]; [|done].
  unfold update_open_nodes, set_remove. simpl.
  by rewrite bool_decide_eq_false_2.
Qed.

(** X3.  On a well-formed grid, reverting at a cell of the grid whose content
    has a counter succeeds, whatever tile the action names: the cell is
    undecided again, the other cells are unchanged, the counter of the
    content is decremented, and the frontier gains the cell and loses the
    neighbours of the cell that no longer have a decided cell near them. *)
Theorem revert_action_reopens_cell (use8 : bool) (w : World) (pos : coord)
    (tile k c : Z) :
  wf_array (_temp_world_state w) → in_shape (_temp_world_state w) pos →
  getitem (_temp_world_state w) pos = Ok k →
  _tile_counts w !! k = Some c →
  ∃ w' : World,
    revert_action use8 (Some (pos, tile)) w = Ok w' ∧
    getitem (_temp_world_state w') pos = Ok 0%Z ∧
    (∀ q, in_shape (_temp_world_state w) q → q ≠ pos →
          getitem (_temp_world_state w') q = getitem (_temp_world_state w) q) ∧
    _tile_counts w' = <[k := (c - 1)%Z]> (_tile_counts w) ∧
    ∀ q, q ∈ _temp_world_open_super_tiles w' ↔
         (q = pos ∨ q ∈ _temp_world_open_super_tiles w) ∧
         (in_shape (_temp_world_state w) q → adjacent use8 pos q →
          decided_near use8 (_temp_world_state w') q).
Proof.
  intros Hwf Hin Hk Hc. apply getitem_cell in Hk; [|done|done]. subst k.
  eexists. split; [by apply revert_action_ok|]. simpl.
  pose proof (upd_wf _ pos 0%Z Hwf) as Hwf'.
  split; [|split; [|split; [done|]]].
  - rewrite getitem_in_shape by done. by rewrite cell_upd_eq.
  - intros q Hq Hne. rewrite !getitem_in_shape by done. by rewrite cell_upd_ne.
  - intros q. unfold reopened_frontier.
    rewrite elem_of_difference, elem_of_union, elem_of_singleton,
      elem_of_list_to_set, list_elem_of_filter, elem_of_indices_to_check.
    change (in_shape (upd (_temp_world_state w) pos 0) q)
      with (in_shape (_temp_world_state w) q).
    destruct pos as [y x]. simpl. split.
    + intros [Hor Hn]. split; [done|]. intros Hq Hadj.
      destruct (decide (decided_near use8 (upd (_temp_world_state w) (y, x) 0) q)); [done|].
      exfalso. apply Hn. done.
    + intros [Hor Himp]. split; [done|]. intros (Hn & Hq & Hadj). apply Hn. by apply Himp.
Qed.

(** X4.  Reverting at a cell whose content has no counter (an undecided cell,
    when no tile hashes to 0) raises [KeyError]. *)
Theorem revert_action_unknown_content_raises (use8 : bool) (w : World) (pos : coord)
    (tile k : Z) :
  getitem (_temp_world_state w) pos = Ok k →
  _tile_counts w !! k = None →
  revert_action use8 (Some (pos, tile)) w = Raise KeyError.
Proof.
  intros Hk Hc. unfold revert_action. rsimpl. rewrite Hk. rsimpl.
  unfold dict_add. by rewrite Hc.
Qed.

(** X5.  From a root world that satisfies the frontier invariant, along a
    path that places non-zero tiles only, the world of every node below the
    root has as frontier exactly the undecided cells of the grid with a
    decided cell near them. *)
Theorem frontier_is_boundary (use8 : bool) (w0 : World) (n : Node) (w : World) :
  world_inv use8 w0 → tiles_nonzero n → (0 < depth n)%nat →
  world_of use8 w0 n = Ok w →
  ∀ c : coord, c ∈ _temp_world_open_super_tiles w ↔
    in_shape (_temp_world_state w) c ∧ getitem (_temp_world_state w) c = Ok 0%Z ∧
    decided_near use8 (_temp_world_state w) c.
Proof.
  intros H0 Hnz Hd Hw.
  destruct (parent n) as [p|] eqn:Hp.
  2: { rewrite (depth_root_node _ Hp) in Hd. lia. }
  rewrite (world_of_parent _ _ _ _ Hp) in Hw.
  destruct (world_of use8 w0 p) as [wp|] eqn:Hwp; [|done]. simpl in Hw.
  pose proof (world_of_inv _ _ _ _ H0 (tiles_nonzero_parent _ _ Hp Hnz) Hwp) as Hinv.
  destruct (apply_action_inv _ _ _ _ Hw) as (pos & tile & c' & Hact & _).
  rewrite Hact in Hw.
  destruct (apply_preserves_inv _ _ _ _ _ Hinv (Hnz n pos tile ltac:(rewrite (ancestors_parent _ _ Hp); left) Hact) Hw)
    as [Hwf Hex].
  intros c. rewrite (Hex c). split.
  - intros (? & ? & ?). split; [done|]. split; [|done]. by apply getitem_cell.
  - intros (? & Hg & ?). split; [done|]. split; [|done]. by apply getitem_cell in Hg.
Qed.

End world_state.

(** ** The keys of the occurrence counters *)

Section counter_keys.

Lemma dict_add_dom (k d : Z) (m m' : gmap Z Z) :
  dict_add k d m = Ok m' → dom m' = dom m.
Proof.
  unfold dict_add. destruct (m !! k) as [c|] eqn:Hc; [|done]. rsimpl.
  intros [= <-]. rewrite dom_insert_L. apply elem_of_dom_2 in Hc. set_solver.
Qed.

Lemma apply_action_dom (use8 : bool) (act : option (coord * Z)) (w w' : World) :
  apply_action use8 act w = Ok w' → dom (_tile_counts w') = dom (_tile_counts w).
Proof.
  unfold apply_action. destruct act as [[pos tile]|]; [|done]. rsimpl.
  destruct (setitem _ _ _) as [a|]; [|done]. rsimpl.
  destruct (dict_add _ _ _) as [m|] eqn:Hm; [|done]. rsimpl.
  intros Hu. rewrite (update_open_nodes_counts _ _ _ _ _ _ Hu). simpl.
  by apply dict_add_dom in Hm.
Qed.

Lemma revert_action_dom (use8 : bool) (act : option (coord * Z)) (w w' : World) :
  revert_action use8 act w = Ok w' → dom (_tile_counts w') = dom (_tile_counts w).
Proof.
  unfold revert_action. destruct act as [[pos tile]|]; [|done]. rsimpl.
  destruct (getitem _ _) as [k|]; [|done]. rsimpl.
  destruct (dict_add _ _ _) as [m|] eqn:Hm; [|done]. rsimpl.
  destruct (setitem _ _ _) as [a|]; [|done]. rsimpl.
  intros Hu. rewrite (update_open_nodes_counts _ _ _ _ _ _ Hu). simpl.
  by apply dict_add_dom in Hm.
Qed.

Lemma revert_path_dom (use8 : bool) (k : nat) (p p' : option Node) (w w' : World) :
  revert_path use8 k p w = Ok (p', w') → dom (_tile_counts w') = dom (_tile_counts w).
Proof.
  revert p w. induction k as [|k IH]; intros p w; simpl.
  - by intros [= _ <-].
  - destruct (attr action p) as [a|]; [|done]. rsimpl.
    destruct (revert_action use8 a w) as [w1|] eqn:Hr; [|done]. rsimpl.
    destruct (attr parent p) as [q|]; [|done]. rsimpl.
    intros Hk. rewrite (IH _ _ Hk). by apply revert_action_dom in Hr.
Qed.

Lemma find_common_dom (use8 : bool) (k i : nat) (p c : option Node) (w w' : World) :
  find_common use8 k p c w = Ok (i, w') → dom (_tile_counts w') = dom (_tile_counts w).
Proof.
  revert p c w. induction k as [|k IH]; intros p c w; simpl.
  - by intros [= _ <-].
  - destruct (attr state p) as [ps|]; [|done]. rsimpl.
    destruct (attr state c) as [cs|]; [|done]. rsimpl.
    case_bool_decide; [by intros [= _ <-]|].
    destruct (attr action p) as [a|]; [|done]. rsimpl.
    destruct (revert_action use8 a w) as [w1|] eqn:Hr; [|done]. rsimpl.
    destruct (attr parent p) as [p1|]; [|done]. rsimpl.
    destruct (attr parent c) as [c1|]; [|done]. rsimpl.
    intros Hk. rewrite (IH _ _ _ Hk). by apply revert_action_dom in Hr.
Qed.

Lemma replay_dom (use8 : bool) (l : list (option Node)) (w w' : World) :
  foldM (fun w node => a ← attr action node; apply_action use8 a w) w l = Ok w' →
  dom (_tile_counts w') = dom (_tile_counts w).
Proof.
  revert w. induction l as [|n l IH]; intros w; simpl.
  - by intros [= <-].
  - destruct (attr action n) as [a|]; [|done]. rsimpl.
    destruct (apply_action use8 a w) as [w1|] eqn:Ha; [|done]. rsimpl.
    intros Hk. rewrite (IH _ Hk). by apply apply_action_dom in Ha.
Qed.

(** X8.  [get_world_state] never adds or removes a counter: the tiles with a
    counter are the same before and after. *)
Theorem get_world_state_keeps_counter_keys (use8 : bool) (last_node node : Node)
    (w w' : World) :
  get_world_state use8 last_node node w = Ok w' →
  ∀ tile : Z, is_Some (_tile_counts w' !! tile) ↔ is_Some (_tile_counts w !! tile).
Proof.
  intros Hg. assert (dom (_tile_counts w') = dom (_tile_counts w)) as Hd.
  { revert Hg. unfold get_world_state.
    destruct (revert_path _ _ _ _) as [[p w1]|] eqn:H1; [|done]. rsimpl.
    destruct (climb _ _) as [c|]; [|done]. rsimpl.
    destruct (find_common _ _ _ _ _) as [[i w2]|] eqn:H2; [|done]. rsimpl.
    destruct (nodes_to_apply _ _) as [l|]; [|done]. rsimpl.
    intros H3. rewrite (replay_dom _ _ _ _ H3), (find_common_dom _ _ _ _ _ _ _ H2).
    by apply revert_path_dom in H1. }
  intros tile. by rewrite <- !elem_of_dom, Hd.
Qed.

End counter_keys.

(** ** Counting patterns: [merge_tuples] *)

Section counting.
Context {K : Type} `{EqDecision K}.

Lemma total_count_nil (k : K) : total_count k [] = 0%Z.
Proof. done. Qed.

Lemma total_count_cons (k : K) (kv : K * Z) (l : list (K * Z)) :
  total_count k (kv :: l)
  = ((if bool_decide (kv.1 = k) then kv.2 else 0) + total_count k l)%Z.
Proof.
  unfold total_count. rewrite filter_cons. case_bool_decide.
  - by rewrite decide_True.
  - by rewrite decide_False.
Qed.

Lemma total_count_app (k : K) (l1 l2 : list (K * Z)) :
  total_count k (l1 ++ l2) = (total_count k l1 + total_count k l2)%Z.
Proof.
  induction l1 as [|kv l1 IH]; [done|].
  rewrite <- app_comm_cons, !total_count_cons, IH. lia.
Qed.

Lemma total_count_not_in (k : K) (l : list (K * Z)) :
  k ∉ l.*1 → total_count k l = 0%Z.
Proof.
  induction l as [|kv l IH]; [done|]. rewrite fmap_cons, not_elem_of_cons.
  intros [Hne Hl]. rewrite total_count_cons, IH by done.
  by rewrite bool_decide_eq_false_2.
Qed.

Lemma total_count_defaultdict_add (k key : K) (value : Z) (d : list (K * Z)) :
  total_count k (WFC_Sample.defaultdict_add key value d)
  = (total_count k d + if bool_decide (key = k) then value else 0)%Z.
Proof.
  induction d as [|[k' c] d IH]; simpl.
  - rewrite total_count_cons. simpl. rewrite total_count_nil. lia.
  - destruct (decide (key = k')) as [->|Hk].
    + rewrite bool_decide_eq_true_2 by done.
      rewrite !total_count_cons. simpl. destruct (bool_decide (k' = k)); lia.
    + rewrite (bool_decide_eq_false_2 (key = k')) by done.
      rewrite !total_count_cons, IH. simpl. lia.
Qed.

Lemma keys_defaultdict_add (key : K) (value : Z) (d : list (K * Z)) (k : K) :
  k ∈ (WFC_Sample.defaultdict_add key value d).*1 ↔ k = key ∨ k ∈ d.*1.
Proof.
  induction d as [|[k' c] d IH]; simpl.
  - rewrite list_elem_of_singleton. set_solver.
  - case_bool_decide as Hk; subst; simpl.
    + rewrite !elem_of_cons. tauto.
    + rewrite !elem_of_cons, IH. tauto.
Qed.

Lemma NoDup_defaultdict_add (key : K) (value : Z) (d : list (K * Z)) :
  NoDup d.*1 → NoDup (WFC_Sample.defaultdict_add key value d).*1.
Proof.
  induction d as [|[k' c] d IH]; simpl.
  - intros _. apply NoDup_singleton.
  - rewrite NoDup_cons. intros [Hn Hd]. case_bool_decide as Hk; subst; simpl.
    + by apply NoDup_cons.
    + apply NoDup_cons. split; [|by apply IH].
      rewrite keys_defaultdict_add. intros [->|?]; done.
Qed.

Lemma positive_defaultdict_add (key : K) (value : Z) (d : list (K * Z)) :
  (0 < value)%Z → Forall (fun kc => 0 < kc.2)%Z d →
  Forall (fun kc => 0 < kc.2)%Z (WFC_Sample.defaultdict_add key value d).
Proof.
  intros Hv. induction 1 as [|[k' c] d Hc Hd IH]; simpl.
  - by repeat constructor.
  - case_bool_decide.
    + constructor; [simpl in *; lia|done].
    + constructor; [done|exact IH].
Qed.

(** the loop [for key, value in l: result_dict[key] += value] *)
Lemma accumulate_spec (l : list (K * Z)) (d : list (K * Z)) :
  NoDup d.*1 →
  let r := foldl (fun d kv => WFC_Sample.defaultdict_add kv.1 kv.2 d) d l in
  NoDup r.*1 ∧
  (∀ k, k ∈ r.*1 ↔ k ∈ d.*1 ∨ k ∈ l.*1) ∧
  (∀ k, total_count k r = (total_count k d + total_count k l)%Z).
Proof.
  revert d. induction l as [|kv l IH]; intros d Hd; simpl.
  - split; [done|]. split; intros k; [set_solver|rewrite total_count_nil; lia].
  - destruct (IH _ (NoDup_defaultdict_add kv.1 kv.2 d Hd)) as (H1 & H2 & H3).
    split; [done|]. split; intros k.
    + rewrite H2, keys_defaultdict_add, elem_of_cons. tauto.
    + rewrite H3, total_count_defaultdict_add, total_count_cons. lia.
Qed.

Lemma total_count_NoDup (k : K) (c : Z) (l : list (K * Z)) :
  NoDup l.*1 → (k, c) ∈ l → total_count k l = c.
Proof.
  induction l as [|[k' c'] l IH]; [by intros _ ?%elem_of_nil|].
  rewrite fmap_cons, NoDup_cons, elem_of_cons, total_count_cons. simpl.
  intros [Hn Hd] [[= <- <-]|Hin].
  - rewrite bool_decide_eq_true_2 by done. rewrite total_count_not_in by done. lia.
  - rewrite bool_decide_eq_false_2, (IH Hd Hin); [lia|].
    intros ->. apply Hn. by apply (list_elem_of_fmap_2 fst) in Hin.
Qed.

End counting.

Section merge.
Context `{ext : Externals}.

(** the list comprehension [np.array(key).reshape(shape)] *)
Lemma reshape_all (size : nat) (d : list (list Z * Z)) :
  Forall (fun kv => length kv.1 = size) d →
  mapM (fun kv : list Z * Z => key ← WFC_Sample.np_reshape size kv.1; Ok (key, kv.2)) d
  = Ok d.
Proof.
  unfold WFC_Sample.np_reshape.
  induction 1 as [|[k c] d Hk _ IH]; [done|]. cbn [mapM fst snd] in *. rewrite IH.
  by rewrite (bool_decide_eq_true_2 _ Hk).
Qed.

Lemma reshape_some (size : nat) (d : list (list Z * Z)) :
  Exists (fun kv => length kv.1 ≠ size) d →
  mapM (fun kv : list Z * Z => key ← WFC_Sample.np_reshape size kv.1; Ok (key, kv.2)) d
  = Raise ValueError.
Proof.
  unfold WFC_Sample.np_reshape.
  induction d as [|[k c] d IH]; intros Hex; [by apply Exists_nil in Hex|].
  cbn [mapM fst snd].
  destruct (decide (length k = size)) as [Hk|Hk].
  - rewrite (bool_decide_eq_true_2 _ Hk). cbn [mbind result_bind].
    apply Exists_cons in Hex as [Hex|Hex]; [done|]. by rewrite (IH Hex).
  - by rewrite (bool_decide_eq_false_2 _ Hk).
Qed.

(** X24.  [merge_tuples] of a non-empty first list, when every pattern of
    the two lists has as many entries as the first pattern, returns each
    pattern of the two lists once, with the sum of its counts over both
    lists; when some pattern has another number of entries, it raises
    [ValueError]. *)
Theorem merge_tuples_sums_counts (list1 list2 : list (list Z * Z))
    (first : list Z * Z) :
  head list1 = Some first →
  ((∀ pattern, pattern ∈ (list1 ++ list2).*1 → length pattern = length first.1) →
   ∃ merged : list (list Z * Z),
     WFC_Sample.merge_tuples list1 list2 = Ok merged ∧
     NoDup merged.*1 ∧
     ∀ (pattern : list Z) (count : Z),
       (pattern, count) ∈ merged ↔
       (pattern ∈ (list1 ++ list2).*1 ∧
        count = (total_count pattern list1 + total_count pattern list2)%Z)) ∧
  ((∃ pattern, pattern ∈ (list1 ++ list2).*1 ∧ length pattern ≠ length first.1) →
   WFC_Sample.merge_tuples list1 list2 = Raise ValueError).
Proof.
  intros Hhead. unfold WFC_Sample.merge_tuples. rewrite Hhead.
  cbn [from_option mbind result_bind].
  destruct (accumulate_spec (list1 ++ list2) [] (NoDup_nil_2)) as (H1 & H2 & H3).
  set (result_dict := foldl (λ d kv, WFC_Sample.defaultdict_add kv.1 kv.2 d) []
                            (list1 ++ list2)) in *.
  split.
  - intros Hsize. rewrite reshape_all.
    2:{ apply Forall_forall. intros [k c] Hkc. apply Hsize. simpl.
        apply (list_elem_of_fmap_2 fst) in Hkc. apply H2 in Hkc.
        destruct Hkc as [Hkc|Hkc]; [by apply elem_of_nil in Hkc|done]. }
    eexists. split; [reflexivity|]. split; [done|]. intros pattern count.
    rewrite <- total_count_app. split.
    + intros Hin. split.
      * apply (list_elem_of_fmap_2 fst) in Hin. apply H2 in Hin. simpl in Hin.
        destruct Hin as [Hin|Hin]; [by apply elem_of_nil in Hin|done].
      * rewrite <- (total_count_NoDup _ _ _ H1 Hin), H3, total_count_nil. lia.
    + intros [Hin ->].
      assert (pattern ∈ result_dict.*1) as Hk by (apply H2; by right).
      apply list_elem_of_fmap in Hk as ([k c] & -> & Hkc). simpl.
      assert (total_count k (list1 ++ list2) = c) as ->; [|done].
      pose proof (H3 k) as Hc. rewrite total_count_nil in Hc.
      rewrite (total_count_NoDup _ _ _ H1 Hkc) in Hc. lia.
  - intros (pattern & Hin & Hlen). apply reshape_some.
    assert (pattern ∈ result_dict.*1) as Hk by (apply H2; by right).
    apply list_elem_of_fmap in Hk as ([k c] & -> & Hkc).
    apply Exists_exists. by exists (k, c).
Qed.

Lemma merge_tuples_empty_raises (list2 : list (list Z * Z)) :
  WFC_Sample.merge_tuples [] list2 = Raise IndexError.
Proof. done. Qed.

End merge.

(** ** Probabilities of the candidates *)

Section probabilities.
Context `{ext : Externals}.

Lemma sum_positive (l : list Z) :
  Forall (fun c => 0 < c)%Z l → l ≠ [] →
  (0 < foldr Z.add 0 l)%Z ∧ Forall (fun c => c ≤ foldr Z.add 0 l)%Z l.
Proof.
  induction 1 as [|c l Hc Hl IH]; [done|]. intros _. simpl.
  destruct l as [|c' l].
  - simpl. split; [lia|]. constructor; [lia|done].
  - destruct IH as [IH1 IH2]; [done|]. split; [lia|].
    constructor; [lia|]. eapply Forall_impl; [exact IH2|]. simpl. intros; lia.
Qed.

Lemma Rsum_scaled (l : list Z) (t : R) :
  Rsum ((fun c => IZR c / t)%R <$> l) = (IZR (foldr Z.add 0%Z l) / t)%R.
Proof.
  induction l as [|c l IH].
  - simpl. unfold Rdiv. by rewrite Rmult_0_l.
  - rewrite fmap_cons. change (Rsum (?x :: ?l)) with (x + Rsum l)%R.
    rewrite IH. simpl. rewrite plus_IZR. unfold Rdiv. lra.
Qed.

Lemma map_to_probabilities_distribution (pcs : list (Z * Z)) :
  pcs ≠ [] → Forall (fun kc => 0 < kc.2)%Z pcs →
  ∃ probabilities : list R,
    map_to_probabilities pcs = Ok (pcs.*1, probabilities) ∧
    probabilities
    = (fun kc => IZR kc.2 / IZR (foldr Z.add 0%Z pcs.*2))%R <$> pcs ∧
    Forall (fun p => 0 < p <= 1)%R probabilities ∧
    Rsum probabilities = 1%R.
Proof.
  intros Hne Hpos. unfold map_to_probabilities.
  rewrite bool_decide_eq_false_2 by (by destruct pcs).
  destruct (sum_positive pcs.*2) as [Ht Hle].
  { by apply Forall_fmap. }
  { by destruct pcs. }
  apply IZR_lt in Ht.
  assert (Forall (fun p => 0 < p <= 1)%R
            ((fun c => IZR c / IZR (foldr Z.add 0%Z pcs.*2))%R <$> pcs.*2)) as Hin.
  { apply Forall_fmap. rewrite Forall_fmap in Hle. apply Forall_fmap.
    apply Forall_forall. intros kc Hkc. rewrite Forall_forall in Hpos, Hle.
    specialize (Hpos _ Hkc). specialize (Hle _ Hkc). simpl in *.
    apply IZR_lt in Hpos. apply IZR_le in Hle. split.
    - by apply Rdiv_lt_0_compat.
    - apply (Rmult_le_reg_r (IZR (foldr Z.add 0%Z pcs.*2))); [done|].
      unfold Rdiv. rewrite Rmult_assoc, Rinv_l by lra. lra. }
  rewrite bool_decide_eq_false_2.
  2: { rewrite Exists_exists. intros (p & Hp & Hgt). rewrite Forall_forall in Hin.
       specialize (Hin _ Hp). lra. }
  eexists. split; [reflexivity|]. split; [by rewrite <- list_fmap_compose|].
  split; [done|]. rewrite Rsum_scaled. by apply Rdiv_diag, Rgt_not_eq.
Qed.

(** [filter_super_tiles] accumulates the counts of the possible patterns
    under their centres *)
Lemma filter_super_tiles_spec (self : Setup) (query : list Z) :
  filter_super_tiles self query
  = foldl (fun d kv => WFC_Sample.defaultdict_add kv.1 kv.2 d) []
      ((fun sc : list Z * Z => (centre sc.1, sc.2))
         <$> filter (fun sc => is_possible query sc.1 = true)
               (WFC_Sample.super_tile_data (_sample self))).
Proof.
  unfold filter_super_tiles. generalize (@nil (Z * Z)).
  induction (WFC_Sample.super_tile_data (_sample self)) as [|sc l IH]; intros d; [done|].
  simpl. rewrite filter_cons. destruct (is_possible query sc.1) eqn:Hp.
  - rewrite decide_True by done. simpl. apply IH.
  - rewrite decide_False by done. apply IH.
Qed.

Lemma accumulate_positive {K} `{EqDecision K} (l d : list (K * Z)) :
  Forall (fun kc => 0 < kc.2)%Z l → Forall (fun kc => 0 < kc.2)%Z d →
  Forall (fun kc => 0 < kc.2)%Z
         (foldl (fun d kv => WFC_Sample.defaultdict_add kv.1 kv.2 d) d l).
Proof.
  intros Hl. revert d. induction Hl as [|kv l Hkv Hl IH]; intros d Hd; [done|].
  simpl. apply IH. by apply positive_defaultdict_add.
Qed.

End probabilities.

(** ** The adjacency query *)

Ltac idx_norm :=
  match goal with
  | |- context [Z.to_nat ?e] =>
      first [ replace (Z.to_nat e) with 0%nat by lia
            | replace (Z.to_nat e) with 1%nat by lia
            | replace (Z.to_nat e) with 2%nat by lia
            | replace (Z.to_nat e) with 3%nat by lia
            | replace (Z.to_nat e) with 4%nat by lia
            | replace (Z.to_nat e) with 5%nat by lia
            | replace (Z.to_nat e) with 6%nat by lia
            | replace (Z.to_nat e) with 7%nat by lia
            | replace (Z.to_nat e) with 8%nat by lia ]
  end.

Section adjacency.
Context `{ext : Externals}.

Local Abbreviation nb := neighbour.

Lemma adjacent_states_ok (g : ndarray) (l : list coord) :
  wf_array g →
  mapM (fun p => if bool_decide (in_shape g p) then getitem g p else Ok 0%Z) l
  = Ok (nb g <$> l).
Proof.
  intros Hwf. induction l as [|p l IH]; [done|]. simpl. rewrite IH. unfold nb.
  case_bool_decide; [|done]. by rewrite getitem_in_shape.
Qed.

Lemma nb_cases (g : ndarray) (p : coord) (v : Z) :
  (nb g p = 0%Z ∨ v = nb g p) ↔ (in_shape g p → cell g p ≠ 0%Z → v = cell g p).
Proof.
  unfold nb. case_bool_decide; [|tauto].
  destruct (decide (cell g p = 0%Z)); intuition.
Qed.

Lemma is_possible_9 (q1 q2 q3 q4 q5 q6 q7 q8 q9 a1 a2 a3 a4 a5 a6 a7 a8 a9 : Z) :
  is_possible [q1; q2; q3; q4; q5; q6; q7; q8; q9] [a1; a2; a3; a4; a5; a6; a7; a8; a9] = true
  ↔ (q1 = 0 ∨ a1 = q1)%Z ∧ (q2 = 0 ∨ a2 = q2)%Z ∧ (q3 = 0 ∨ a3 = q3)%Z ∧
    (q4 = 0 ∨ a4 = q4)%Z ∧ (q5 = 0 ∨ a5 = q5)%Z ∧ (q6 = 0 ∨ a6 = q6)%Z ∧
    (q7 = 0 ∨ a7 = q7)%Z ∧ (q8 = 0 ∨ a8 = q8)%Z ∧ (q9 = 0 ∨ a9 = q9)%Z.
Proof.
  unfold is_possible. cbn [zip zip_with forallb fst snd].
  rewrite !andb_true_iff, !orb_true_iff, !bool_decide_eq_true. tauto.
Qed.

Lemma agrees_8 (g : ndarray) (y x : Z) (a1 a2 a3 a4 a5 a6 a7 a8 a9 : Z) :
  is_possible [nb g (y - 1 + 0, x - 1 + 0); nb g (y - 1 + 0, x - 1 + 1);
               nb g (y - 1 + 0, x - 1 + 2); nb g (y - 1 + 1, x - 1 + 0); 0;
               nb g (y - 1 + 1, x - 1 + 2); nb g (y - 1 + 2, x - 1 + 0);
               nb g (y - 1 + 2, x - 1 + 1); nb g (y - 1 + 2, x - 1 + 2)]%Z
              [a1; a2; a3; a4; a5; a6; a7; a8; a9] = true
  ↔ agrees true g y x [a1; a2; a3; a4; a5; a6; a7; a8; a9].
Proof.
  rewrite is_possible_9.
  rewrite !(or_comm (nb _ _ = 0%Z)).
  assert (∀ (p : coord) (a : Z), (a = nb g p ∨ nb g p = 0%Z)
            ↔ (in_shape g p → cell g p ≠ 0%Z → a = cell g p)) as Hnb.
  { intros p a. rewrite <- nb_cases. tauto. }
  rewrite !Hnb. unfold agrees, adjacent. split.
  - intros (H1 & H2 & H3 & H4 & _ & H6 & H7 & H8 & H9) [qy qx] (Hne & Hy & Hx) Hin Hz.
    simpl in *.
    assert (qy = y - 1 + 0 ∨ qy = y - 1 + 1 ∨ qy = y - 1 + 2)%Z as Hqy by lia.
    assert (qx = x - 1 + 0 ∨ qx = x - 1 + 1 ∨ qx = x - 1 + 2)%Z as Hqx by lia.
    destruct Hqy as [-> | [-> | ->]]; destruct Hqx as [-> | [-> | ->]];
      idx_norm; simpl.
    all: try (f_equal; first [by apply H1|by apply H2|by apply H3|by apply H4|
                              by apply H6|by apply H7|by apply H8|by apply H9]).
    exfalso. apply Hne. f_equal; lia.
  - intros Hag.
    assert (∀ (p : coord) (a : Z) (i : nat),
              [a1; a2; a3; a4; a5; a6; a7; a8; a9] !! i = Some a →
              i = Z.to_nat (3 * (p.1 - y + 1) + (p.2 - x + 1)) →
              (y, x) ≠ p ∧ (Z.abs (p.1 - y) ≤ 1)%Z ∧ (Z.abs (p.2 - x) ≤ 1)%Z →
              in_shape g p → cell g p ≠ 0%Z → a = cell g p) as Hget.
    { intros p a i Hi -> Hadj Hin Hz. specialize (Hag p Hadj Hin Hz).
      rewrite Hi in Hag. by injection Hag. }
    repeat match goal with |- _ ∧ _ => split end.
    all: try (by left).
    all: intros Hin Hz.
    all: first [ apply (Hget _ _ 0%nat eq_refl) | apply (Hget _ _ 1%nat eq_refl)
               | apply (Hget _ _ 2%nat eq_refl) | apply (Hget _ _ 3%nat eq_refl)
               | apply (Hget _ _ 5%nat eq_refl) | apply (Hget _ _ 6%nat eq_refl)
               | apply (Hget _ _ 7%nat eq_refl) | apply (Hget _ _ 8%nat eq_refl) ].
    all: simpl; try done; try lia; try (split; [intros [= ? ?]; lia|lia]).
Qed.

Lemma agrees_4 (g : ndarray) (y x : Z) (a1 a2 a3 a4 a5 a6 a7 a8 a9 : Z) :
  is_possible [0; nb g (y - 1 + 0, x - 1 + 1); 0; nb g (y - 1 + 1, x - 1 + 0); 0;
               nb g (y - 1 + 1, x - 1 + 2); 0; nb g (y - 1 + 2, x - 1 + 1); 0]%Z
              [a1; a2; a3; a4; a5; a6; a7; a8; a9] = true
  ↔ agrees false g y x [a1; a2; a3; a4; a5; a6; a7; a8; a9].
Proof.
  rewrite is_possible_9.
  rewrite !(or_comm (nb _ _ = 0%Z)).
  assert (∀ (p : coord) (a : Z), (a = nb g p ∨ nb g p = 0%Z)
            ↔ (in_shape g p → cell g p ≠ 0%Z → a = cell g p)) as Hnb.
  { intros p a. rewrite <- nb_cases. tauto. }
  rewrite !Hnb. unfold agrees, adjacent. split.
  - intros (_ & H2 & _ & H4 & _ & H6 & _ & H8 & _) [qy qx] Hadj Hin Hz.
    simpl in *.
    assert ((qy = y - 1 + 0 ∧ qx = x - 1 + 1) ∨ (qy = y - 1 + 1 ∧ qx = x - 1 + 0) ∨
            (qy = y - 1 + 1 ∧ qx = x - 1 + 2) ∨ (qy = y - 1 + 2 ∧ qx = x - 1 + 1))%Z
      as Hq by lia.
    destruct Hq as [[-> ->] | [[-> ->] | [[-> ->] | [-> ->]]]]; idx_norm; simpl.
    all: f_equal; first [by apply H2|by apply H4|by apply H6|by apply H8].
  - intros Hag.
    assert (∀ (p : coord) (a : Z) (i : nat),
              [a1; a2; a3; a4; a5; a6; a7; a8; a9] !! i = Some a →
              i = Z.to_nat (3 * (p.1 - y + 1) + (p.2 - x + 1)) →
              (Z.abs (p.1 - y) + Z.abs (p.2 - x) = 1)%Z →
              in_shape g p → cell g p ≠ 0%Z → a = cell g p) as Hget.
    { intros p a i Hi -> Hadj Hin Hz. specialize (Hag p Hadj Hin Hz).
      rewrite Hi in Hag. by injection Hag. }
    repeat match goal with |- _ ∧ _ => split end.
    all: try (by left).
    all: intros Hin Hz.
    all: first [ apply (Hget _ _ 1%nat eq_refl) | apply (Hget _ _ 3%nat eq_refl)
               | apply (Hget _ _ 5%nat eq_refl) | apply (Hget _ _ 7%nat eq_refl) ].
    all: simpl; try done; lia.
Qed.

Lemma neighbour_query_eq (use8 : bool) (g : ndarray) (y x : Z) :
  neighbour_query use8 g y x
  = if use8 then
      [nb g (y - 1 + 0, x - 1 + 0); nb g (y - 1 + 0, x - 1 + 1);
       nb g (y - 1 + 0, x - 1 + 2); nb g (y - 1 + 1, x - 1 + 0); 0;
       nb g (y - 1 + 1, x - 1 + 2); nb g (y - 1 + 2, x - 1 + 0);
       nb g (y - 1 + 2, x - 1 + 1); nb g (y - 1 + 2, x - 1 + 2)]%Z
    else
      [0; nb g (y - 1 + 0, x - 1 + 1); 0; nb g (y - 1 + 1, x - 1 + 0); 0;
       nb g (y - 1 + 1, x - 1 + 2); 0; nb g (y - 1 + 2, x - 1 + 1); 0]%Z.
Proof.
  unfold neighbour_query.
  replace (y - 1 + 0)%Z with (y - 1)%Z by lia. replace (y - 1 + 1)%Z with y by lia.
  replace (y - 1 + 2)%Z with (y + 1)%Z by lia.
  replace (x - 1 + 0)%Z with (x - 1)%Z by lia. replace (x - 1 + 1)%Z with x by lia.
  replace (x - 1 + 2)%Z with (x + 1)%Z by lia. done.
Qed.

(** a pattern of nine entries is possible for the query of a cell exactly
    when it agrees with the decided neighbours of the cell *)
Lemma is_possible_agrees (use8 : bool) (g : ndarray) (y x : Z) (pattern : list Z) :
  length pattern = 9%nat →
  is_possible (neighbour_query use8 g y x) pattern = true ↔ agrees use8 g y x pattern.
Proof.
  intros Hlen.
  destruct pattern as [|a1 [|a2 [|a3 [|a4 [|a5 [|a6 [|a7 [|a8 [|a9 [|]]]]]]]]]]; try done.
  rewrite neighbour_query_eq. destruct use8; [apply agrees_8|apply agrees_4].
Qed.

(** the query that [get_cell_potential_states_and_costs] passes on *)
Lemma potential_states_query (self : Setup) (g : ndarray) (y x : Z) :
  wf_array g →
  (adjacent_states ← mapM (fun p => if bool_decide (in_shape g p)
                                    then getitem g p else Ok 0%Z)
                          (indices_around y x);
   if _use_8cardinals self then
     match adjacent_states with
     | [p1; p2; p3; p4; p6; p7; p8; p9] =>
         get_cell_potential_states_8cardinals self p1 p2 p3 p4 p6 p7 p8 p9
     | _ => Raise TypeError
     end
   else
     match select [1; 3; 4; 6]%nat adjacent_states with
     | [p2; p4; p6; p8] => get_cell_potential_states_4cardinals self p2 p4 p6 p8
     | _ => Raise TypeError
     end)
  = map_to_probabilities
      (filter_super_tiles self (neighbour_query (_use_8cardinals self) g y x)).
Proof.
  intros Hwf. rewrite adjacent_states_ok by done. rewrite neighbour_query_eq.
  rewrite indices_around_eq. cbn [mbind result_bind fmap list_fmap].
  destruct (_use_8cardinals self); reflexivity.
Qed.

End adjacency.

(** ** Candidates of a cell *)

Section candidates.
Context `{ext : Externals}.

Lemma sum_defaultdict_add {K} `{EqDecision K} (key : K) (value : Z) (d : list (K * Z)) :
  foldr Z.add 0%Z (WFC_Sample.defaultdict_add key value d).*2
  = (foldr Z.add 0%Z d.*2 + value)%Z.
Proof.
  induction d as [|[k c] d IH]; [simpl; lia|].
  cbn [WFC_Sample.defaultdict_add]. case_bool_decide.
  - rewrite !fmap_cons. cbn [foldr snd]. lia.
  - rewrite !fmap_cons. cbn [foldr snd]. rewrite IH. lia.
Qed.

Lemma sum_accumulate {K} `{EqDecision K} (l d : list (K * Z)) :
  foldr Z.add 0%Z (foldl (fun d kv => WFC_Sample.defaultdict_add kv.1 kv.2 d) d l).*2
  = (foldr Z.add 0%Z d.*2 + foldr Z.add 0%Z l.*2)%Z.
Proof.
  revert d. induction l as [|kv l IH]; intros d; [simpl; lia|].
  cbn [foldl]. rewrite IH, sum_defaultdict_add, fmap_cons. cbn [foldr]. lia.
Qed.

(** The patterns that fit a query, each as (centre, count). *)
Lemma potential_states_spec (self : Setup) (query : list Z) :
  Forall (fun sc => 0 < sc.2)%Z (WFC_Sample.super_tile_data (_sample self)) →
  let fits := (fun sc : list Z * Z => (centre sc.1, sc.2))
                <$> filter (fun sc => is_possible query sc.1 = true)
                      (WFC_Sample.super_tile_data (_sample self)) in
  ∃ (tiles : list Z) (probabilities : list R),
    map_to_probabilities (filter_super_tiles self query) = Ok (tiles, probabilities) ∧
    NoDup tiles ∧
    (∀ t, t ∈ tiles ↔ t ∈ fits.*1) ∧
    Forall (fun p => 0 < p <= 1)%R probabilities ∧
    (tiles ≠ [] → Rsum probabilities = 1%R) ∧
    zip tiles probabilities
    = (fun t => (t, (IZR (total_count t fits) / IZR (foldr Z.add 0%Z fits.*2))%R))
        <$> tiles.
Proof.
  intros Hpos fits. rewrite filter_super_tiles_spec. fold fits.
  destruct (accumulate_spec fits [] (NoDup_nil_2)) as (Hnd & Hkeys & Hcount).
  pose proof (sum_accumulate fits []) as Hsum.
  assert (Forall (fun kc => 0 < kc.2)%Z fits) as Hfits.
  { unfold fits. apply Forall_fmap. apply Forall_forall. intros sc Hsc. simpl.
    apply list_elem_of_filter in Hsc as [_ Hsc]. rewrite Forall_forall in Hpos.
    by apply Hpos. }
  pose proof (accumulate_positive fits [] Hfits (Forall_nil_2 _)) as Hacc.
  remember (foldl (fun d kv => WFC_Sample.defaultdict_add kv.1 kv.2 d) [] fits) as pcs
    eqn:Hpcs.
  clear Hpcs.
  destruct (decide (pcs = [])) as [Hnil|Hne].
  - rewrite Hnil. exists [], []. unfold map_to_probabilities. simpl.
    split; [done|]. split; [constructor|]. split.
    { intros t. pose proof (Hkeys t) as Hk. rewrite Hnil in Hk. simpl in Hk.
      rewrite elem_of_nil in *. tauto. }
    split; [constructor|]. split; [done|done].
  - destruct (map_to_probabilities_distribution pcs Hne Hacc)
      as (probs & Hmap & Hprobs & Hin & Hone).
    exists pcs.*1, probs. split; [done|]. split; [done|]. split.
    { intros t. rewrite (Hkeys t). rewrite elem_of_nil. tauto. }
    split; [done|]. split; [done|].
    rewrite Hprobs, Hsum. simpl. rewrite Z.add_0_l.
    rewrite <- list_fmap_compose.
    assert (∀ (f g : Z * Z → Z * R) (l : list (Z * Z)),
              (∀ x, x ∈ l → f x = g x) → zip l.*1 (snd ∘ f <$> l) = g <$> l
              ∨ True) as _ by (intros; by right).
    clear Hmap Hprobs Hin Hone Hne Hkeys Hsum Hacc.
    assert (∀ l : list (Z * Z), (∀ kc, kc ∈ l → kc ∈ pcs) →
              zip l.*1 ((fun kc : Z * Z => (IZR kc.2 / IZR (foldr Z.add 0%Z fits.*2))%R) <$> l)
              = ((fun t => (t, (IZR (total_count t fits)
                                / IZR (foldr Z.add 0%Z fits.*2))%R)) ∘ fst) <$> l) as Hzip.
    { induction l as [|[k c] l IH]; intros Hl; [done|]. simpl. f_equal.
      - f_equal. f_equal. f_equal.
        assert ((k, c) ∈ pcs) as Hkc by (apply Hl; left).
        rewrite <- (total_count_NoDup _ _ _ Hnd Hkc), (Hcount k), total_count_nil. lia.
      - apply IH. intros kc Hkc. apply Hl. by right. }
    by apply Hzip.
Qed.

(** What [get_cell_potential_states_and_costs] returns, read off its
    branches. *)
Lemma cell_costs_inv (self : Setup) (s : State) (y x : Z) (g : ndarray) (depth : nat)
    (tiles : list Z) (costs : option (list R)) (entropy : option R) (gen' : Generator) :
  wf_array g →
  get_cell_potential_states_and_costs self s y x g depth
  = Ok ((tiles, costs, entropy), gen') →
  ∃ probabilities : list R,
    map_to_probabilities
      (filter_super_tiles self (neighbour_query (_use_8cardinals self) g y x))
    = Ok (tiles, probabilities) ∧
    ((tiles = [] ∧ costs = None ∧ entropy = None ∧ gen' = rng s) ∨
     (tiles ≠ [] ∧
      ∃ cs : list R,
        costs = Some cs ∧
        entropy = Some (if bool_decide (1 < length probabilities)%nat
                        then (- foldr Rplus 0 ((fun p => p * np_log2 p) <$> probabilities)
                              / np_log2 (INR (length probabilities)))%R
                        else 0%R) ∧
        Forall (fun c => ∃ z : R,
                  c = ((1 - np_clip01 z)
                       * (if bool_decide (1 < length probabilities)%nat
                          then (- foldr Rplus 0 ((fun p => p * np_log2 p) <$> probabilities)
                                / np_log2 (INR (length probabilities)))%R
                          else 0%R))%R) cs)).
Proof.
  intros Hwf. unfold get_cell_potential_states_and_costs.
  pose proof (potential_states_query self g y x Hwf) as Hq.
  destruct (mapM _ (indices_around y x)) as [adj|] eqn:Hadj.
  2: { rewrite adjacent_states_ok in Hadj by done. done. }
  cbn [mbind result_bind] in Hq |- *. rewrite Hq. clear Hq.
  destruct (map_to_probabilities _) as [[tl probs]|]; [|done].
  cbn [mbind result_bind].
  case_bool_decide as Hlen.
  - intros [= <- <- <- <-]. exists probs. split; [|left].
    + by destruct tl.
    + by destruct tl.
  - destruct (rng_random _ _) as [rands g1].
    case_bool_decide; [done|].
    destruct (rng_integers _ _ _) as [i g2].
    repeat (match goal with
            | |- context [mapM ?f tl] => destruct (mapM f tl); cbn [mbind result_bind]
            end); try done.
    intros [= <- <- <- <-]. exists probs. split; [done|]. right.
    split; [by destruct tl|]. eexists. split; [reflexivity|]. split; [reflexivity|].
    apply Forall_fmap, Forall_forall. intros [[p' a'] r'] _. simpl. eexists. reflexivity.
Qed.

End candidates.

(** ** The cost model *)

Section cost_model.
Context `{ext : Externals}.

Lemma map_to_probabilities_keys (pcs : list (Z * Z)) (tiles : list Z) (probs : list R) :
  map_to_probabilities pcs = Ok (tiles, probs) →
  tiles = pcs.*1 ∧ length probs = length tiles.
Proof.
  unfold map_to_probabilities. case_bool_decide as Hl.
  - intros [= <- <-]. by destruct pcs.
  - case_bool_decide; [done|]. intros [= <- <-]. by rewrite !length_fmap.
Qed.

Lemma filter_super_tiles_keys (self : Setup) (query : list Z) (t : Z) :
  t ∈ (filter_super_tiles self query).*1 ↔
  ∃ sc, sc ∈ WFC_Sample.super_tile_data (_sample self) ∧
        is_possible query sc.1 = true ∧ centre sc.1 = t.
Proof.
  rewrite filter_super_tiles_spec.
  match goal with |- context [foldl _ [] ?l] =>
    destruct (accumulate_spec l [] (NoDup_nil_2)) as (_ & Hkeys & _) end.
  rewrite (Hkeys t), elem_of_nil, <- list_fmap_compose, list_elem_of_fmap.
  split.
  - intros [[]|(sc & -> & Hsc)]. apply list_elem_of_filter in Hsc as [? ?]. eauto.
  - intros (sc & Hsc & Hp & <-). right. exists sc. split; [done|].
    by apply list_elem_of_filter.
Qed.

(** X9.  For a catalog with positive counts, an adjacency query returns each
    centre of a fitting pattern once, with as probability the share of the
    fitting patterns (weighted by their counts) that have it as centre; the
    probabilities of a non-empty answer sum to 1 (in exact arithmetic). *)
Theorem potential_states_follow_patterns (self : Setup) (use8 : bool)
    (p1 p2 p3 p4 p6 p7 p8 p9 : Z) :
  Forall (fun sc => 0 < sc.2)%Z (WFC_Sample.super_tile_data (_sample self)) →
  let query := if use8 then [p1; p2; p3; p4; 0; p6; p7; p8; p9]%Z
               else [0; p2; 0; p4; 0; p6; 0; p8; 0]%Z in
  let fits := filter (fun sc => is_possible query sc.1 = true)
                     (WFC_Sample.super_tile_data (_sample self)) in
  let centres := (fun sc : list Z * Z => (centre sc.1, sc.2)) <$> fits in
  ∃ (tiles : list Z) (probabilities : list R),
    (if use8 then get_cell_potential_states_8cardinals self p1 p2 p3 p4 p6 p7 p8 p9
     else get_cell_potential_states_4cardinals self p2 p4 p6 p8)
    = Ok (tiles, probabilities) ∧
    NoDup tiles ∧
    (∀ t, t ∈ tiles ↔ ∃ sc, sc ∈ fits ∧ centre sc.1 = t) ∧
    zip tiles probabilities
    = (fun t => (t, (IZR (total_count t centres) / IZR (foldr Z.add 0%Z fits.*2))%R))
        <$> tiles ∧
    (tiles ≠ [] → Rsum probabilities = 1%R).
Proof.
  intros Hpos query fits centres.
  destruct (potential_states_spec self query Hpos)
    as (tiles & probs & Hmap & Hnd & Hkeys & _ & Hone & Hzip).
  exists tiles, probs. split.
  { unfold query. destruct use8; exact Hmap. }
  split; [done|]. split.
  { intros t. rewrite (Hkeys t), <- list_fmap_compose, list_elem_of_fmap.
    split; intros (sc & ? & ?); exists sc; done. }
  split; [|done]. rewrite Hzip. unfold centres.
  by rewrite <- (list_fmap_compose _ snd fits).
Qed.

(** X10.  When the cost model returns for a cell, its candidate tiles are
    exactly the centres of the patterns of the catalog that agree with every
    decided neighbour of the cell that lies in the grid and that the mode
    (8 or 4 neighbours) inspects. *)
Theorem cell_candidates_agree_with_neighbours (self : Setup) (s : State) (y x : Z)
    (g : ndarray) (depth : nat) (tiles : list Z) (costs : option (list R))
    (entropy : option R) (gen' : Generator) :
  wf_array g →
  Forall (fun sc => length sc.1 = 9%nat) (WFC_Sample.super_tile_data (_sample self)) →
  get_cell_potential_states_and_costs self s y x g depth
  = Ok ((tiles, costs, entropy), gen') →
  ∀ t : Z, t ∈ tiles ↔
    ∃ (pattern : list Z) (count : Z),
      (pattern, count) ∈ WFC_Sample.super_tile_data (_sample self) ∧
      agrees (_use_8cardinals self) g y x pattern ∧
      pattern !! 4%nat = Some t.
Proof.
  intros Hwf Hlen Hcell t.
  destruct (cell_costs_inv _ _ _ _ _ _ _ _ _ _ Hwf Hcell) as (probs & Hmap & _).
  apply map_to_probabilities_keys in Hmap as [-> _].
  rewrite filter_super_tiles_keys. rewrite Forall_forall in Hlen. split.
  - intros ([pattern count] & Hsc & Hp & Hc). exists pattern, count.
    specialize (Hlen _ Hsc). simpl in *. split; [done|].
    split; [by apply is_possible_agrees|].
    unfold centre in Hc. destruct (pattern !! 4%nat) as [v|] eqn:Hv; [by subst|].
    apply lookup_ge_None in Hv. lia.
  - intros (pattern & count & Hsc & Hag & H4). exists (pattern, count).
    specialize (Hlen _ Hsc). simpl in *. split; [done|].
    split; [by apply is_possible_agrees|]. unfold centre. by rewrite H4.
Qed.

Lemma np_log2_pos (x : R) : (1 < x)%R → (0 < np_log2 x)%R.
Proof.
  intros Hx. unfold np_log2. apply Rdiv_lt_0_compat.
  - rewrite <- ln_1. apply ln_increasing; lra.
  - rewrite <- ln_1. apply ln_increasing; lra.
Qed.

Lemma entropy_term_nonpos (p : R) : (0 < p <= 1)%R → (p * np_log2 p <= 0)%R.
Proof.
  intros [Hp0 Hp1]. unfold np_log2.
  assert (ln p <= 0)%R as Hln.
  { rewrite <- ln_1. destruct Hp1 as [Hlt| ->]; [|lra]. left. by apply ln_increasing. }
  assert (0 < ln 2)%R as H2 by (rewrite <- ln_1; apply ln_increasing; lra).
  assert (0 < / ln 2)%R as Hi by (by apply Rinv_0_lt_compat).
  assert (0 <= p * (- ln p) * / ln 2)%R as Hq.
  { apply Rmult_le_pos; [apply Rmult_le_pos|]; lra. }
  unfold Rdiv. lra.
Qed.

Lemma entropy_sum_nonpos (l : list R) :
  Forall (fun p => 0 < p <= 1)%R l →
  (foldr Rplus 0 ((fun p => p * np_log2 p) <$> l) <= 0)%R.
Proof.
  induction 1 as [|p l Hp _ IH]; [simpl; lra|].
  rewrite fmap_cons. cbn [foldr].
  pose proof (entropy_term_nonpos p Hp). lra.
Qed.

Lemma np_clip01_bounds (z : R) : (0 <= np_clip01 z <= 1)%R.
Proof.
  unfold np_clip01. split.
  - apply Rmin_glb; [apply Rmax_r|lra].
  - apply Rmin_r.
Qed.

(** X11.  When the cost model returns for a cell: without candidates it
    returns no costs and no entropy and leaves the random generator as it
    was; with candidates the entropy is not negative, every cost lies
    between 0 and the entropy, and a single candidate has entropy 0. *)
Theorem costs_within_entropy (self : Setup) (s : State) (y x : Z)
    (g : ndarray) (depth : nat) (tiles : list Z) (costs : option (list R))
    (entropy : option R) (gen' : Generator) :
  wf_array g →
  Forall (fun sc => 0 < sc.2)%Z (WFC_Sample.super_tile_data (_sample self)) →
  get_cell_potential_states_and_costs self s y x g depth
  = Ok ((tiles, costs, entropy), gen') →
  match costs, entropy with
  | Some cs, Some e =>
      tiles ≠ [] ∧ (0 <= e)%R ∧ Forall (fun c => 0 <= c <= e)%R cs ∧
      (length tiles = 1%nat → e = 0%R)
  | None, None => tiles = [] ∧ gen' = rng s
  | _, _ => False
  end.
Proof.
  intros Hwf Hpos Hcell.
  destruct (cell_costs_inv _ _ _ _ _ _ _ _ _ _ Hwf Hcell) as (probs & Hmap & Hcases).
  destruct (potential_states_spec self
              (neighbour_query (_use_8cardinals self) g y x) Hpos)
    as (tiles' & probs' & Hmap' & _ & _ & Hin & _ & _).
  rewrite Hmap in Hmap'. injection Hmap' as <- <-.
  apply map_to_probabilities_keys in Hmap as [_ Hlen].
  destruct Hcases as [(-> & -> & -> & ->)|(Hne & cs & -> & -> & Hcs)]; [done|].
  split; [done|].
  assert (0 <= (if bool_decide (1 < length probs)%nat
                then - foldr Rplus 0 ((fun p => p * np_log2 p) <$> probs)
                     / np_log2 (INR (length probs))
                else 0))%R as He.
  { case_bool_decide as Hn; [|lra].
    pose proof (entropy_sum_nonpos probs Hin) as Hs.
    assert (0 < np_log2 (INR (length probs)))%R as Hl.
    { apply np_log2_pos. change 1%R with (INR 1). by apply lt_INR. }
    unfold Rdiv. apply Rmult_le_pos; [lra|]. left. by apply Rinv_0_lt_compat. }
  split; [done|]. split.
  - eapply Forall_impl; [exact Hcs|]. simpl. intros c [z ->].
    pose proof (np_clip01_bounds z) as [Hz0 Hz1]. split.
    + apply Rmult_le_pos; lra.
    + rewrite <- (Rmult_1_l (if bool_decide _ then _ else _)) at 2.
      apply Rmult_le_compat_r; lra.
  - intros H1. rewrite Hlen, H1. by rewrite bool_decide_eq_false_2 by lia.
Qed.

End cost_model.

(** ** Dead ends, temperature and plateau check *)

Section engine.
Context `{ext : Externals}.

Lemma potential_collapses_inv (self : Setup) (s : State) (g : ndarray) (depth : nat)
    (iyxs : list coord) (cs : list (list Z * option (list R) * option R))
    (gen' : Generator) :
  wf_array g →
  potential_collapses self s g depth iyxs = Ok (cs, gen') →
  Forall2 (fun (yx : coord) (c : list Z * option (list R) * option R) =>
             (∃ probs, map_to_probabilities
                         (filter_super_tiles self
                            (neighbour_query (_use_8cardinals self) g yx.1 yx.2))
                       = Ok (c.1.1, probs)) ∧
             (c.1.1 = [] → c.1.2 = None)) iyxs cs.
Proof.
  intros Hwf. revert s cs gen'. induction iyxs as [|[y x] iyxs IH]; intros s cs gen'; simpl.
  - intros [= <- <-]. constructor.
  - destruct (get_cell_potential_states_and_costs self s y x g depth)
      as [[[[tiles costs] entropy] g1]|] eqn:Hcell; [|done].
    cbn [mbind result_bind].
    destruct (potential_collapses self (set_rng g1 s) g depth iyxs)
      as [[cs' g2]|] eqn:Hrest; [|done].
    cbn [mbind result_bind]. intros [= <- <-]. constructor; [|by eapply IH].
    destruct (cell_costs_inv _ _ _ _ _ _ _ _ _ _ Hwf Hcell) as (probs & Hmap & Hcases).
    simpl. split; [by exists probs|].
    intros ->. by destruct Hcases as [(_ & -> & _)|[? _]].
Qed.

(** X14.  Where the frontier is empty, or some open cell agrees with no
    pattern of the catalog, the expansion yields no child and leaves the
    world as it is. *)
Theorem dead_end_has_no_children (self : Setup) (node : Node) (cum_entropy : R)
    (s s' : State) (children : list Node) :
  wf_array (_temp_world_state (world s)) →
  Forall (fun sc => length sc.1 = 9%nat) (WFC_Sample.super_tile_data (_sample self)) →
  expand self node cum_entropy s = Ok (children, s') →
  (_temp_world_open_super_tiles (world s) = ∅ ∨
   ∃ yx : coord, yx ∈ _temp_world_open_super_tiles (world s) ∧
     ∀ (pattern : list Z) (count : Z),
       (pattern, count) ∈ WFC_Sample.super_tile_data (_sample self) →
       ¬ agrees (_use_8cardinals self) (_temp_world_state (world s)) yx.1 yx.2 pattern) →
  children = [] ∧ world s' = world s.
Proof.
  intros Hwf Hlen. unfold expand.
  destruct (potential_collapses _ _ _ _ _) as [[collapses g1]|] eqn:Hpc; [|done].
  cbn [mbind result_bind]. intros Hexp Hdead.
  assert (bool_decide (length collapses = 0%nat)
          || existsb (fun c : list Z * option (list R) * option R =>
                        bool_decide (c.1.2 = None)) collapses = true) as Hb.
  { pose proof (potential_collapses_inv _ _ _ _ _ _ _ Hwf Hpc) as Hall.
    destruct Hdead as [Hempty|(yx & Hyx & Hno)].
    - rewrite Hempty in Hall.
      pose proof (set_iter_perm ∅) as Hperm. rewrite elements_empty in Hperm.
      apply Permutation_nil_r in Hperm. rewrite Hperm in Hall.
      apply Forall2_nil_inv_l in Hall. by subst.
    - apply orb_true_iff. right. apply existsb_exists.
      assert (yx ∈ set_iter (_temp_world_open_super_tiles (world s))) as Hin.
      { rewrite (set_iter_perm _). by apply elem_of_elements. }
      apply list_elem_of_lookup in Hin as [i Hi].
      destruct (Forall2_lookup_l _ _ _ _ _ Hall Hi) as (c & Hc & (probs & Hmap) & Hnone).
      exists c. split; [apply list_elem_of_In; by eapply list_elem_of_lookup_2|].
      apply bool_decide_eq_true. apply Hnone.
      apply map_to_probabilities_keys in Hmap as [Hk _].
      destruct (c.1.1) as [|t l] eqn:Hc1; [done|]. exfalso.
      assert (t ∈ (filter_super_tiles self
                     (neighbour_query (_use_8cardinals self)
                        (_temp_world_state (world s)) yx.1 yx.2)).*1) as Ht.
      { rewrite <- Hk. left. }
      apply filter_super_tiles_keys in Ht as ([pattern count] & Hsc & Hp & _).
      apply (Hno pattern count Hsc). rewrite Forall_forall in Hlen.
      apply is_possible_agrees; [by apply (Hlen _ Hsc)|done]. }
  rewrite Hb in Hexp. by injection Hexp as <- <-.
Qed.

(** *** Temperature *)

Lemma float_pow_unit (x y : R) : (0 <= x <= 1)%R → (0 < y)%R → (0 <= float_pow x y <= 1)%R.
Proof.
  intros [Hx0 Hx1] Hy. unfold float_pow. case_bool_decide as Hz.
  - rewrite bool_decide_eq_false_2 by lra. lra.
  - unfold Rpower. split; [left; apply exp_pos|].
    rewrite <- exp_0. destruct Hx1 as [Hlt| ->].
    + left. apply exp_increasing.
      assert (ln x < 0)%R by (rewrite <- ln_1; apply ln_increasing; lra). nra.
    + rewrite ln_1, Rmult_0_r. lra.
Qed.

Lemma temp_ratio_unit (self : Setup) (depth prior_depth : Z) :
  (0 < _number_of_tiles_to_process self)%Z →
  (0 ≤ depth ≤ _number_of_tiles_to_process self)%Z →
  ∃ ratio : R, temp_ratio self depth prior_depth = Ok ratio ∧ (0 <= ratio <= 9 / 10)%R.
Proof.
  intros HT Hd. rewrite temp_ratio_cases by lia. eexists. split; [reflexivity|].
  assert (0 < IZR (_number_of_tiles_to_process self))%R as Ht by (by apply IZR_lt).
  case_bool_decide.
  - assert (0 <= IZR depth / IZR (_number_of_tiles_to_process self) <= 1)%R as Hq.
    { destruct Hd as [Hd0 Hd1]. apply IZR_le in Hd0, Hd1. split.
      - apply Rmult_le_pos; [done|]. left. by apply Rinv_0_lt_compat.
      - apply (Rmult_le_reg_r (IZR (_number_of_tiles_to_process self))); [done|].
        unfold Rdiv. rewrite Rmult_assoc, Rinv_l by lra. lra. }
    pose proof (float_pow_unit _ (5 / 2) Hq ltac:(lra)). lra.
  - split; [|apply Rmin_l]. apply Rmin_glb; [lra|].
    apply Rmult_le_pos.
    + apply IZR_le. lia.
    + left. apply Rinv_0_lt_compat. by apply sqrt_lt_R0.
Qed.

Lemma float_to_int_lt (x : R) (n : Z) : (0 < n)%Z → (x < IZR n)%R → (float_to_int x < n)%Z.
Proof.
  intros Hn Hx. unfold float_to_int. case_bool_decide.
  - apply lt_IZR. destruct (base_Int_part x). lra.
  - assert (0 ≤ Int_part (- x))%Z; [|lia].
    apply le_IZR. destruct (base_Int_part (- x)) as [H1 H2].
    assert (-1 < IZR (Int_part (- x)))%R as Hgt by lra.
    apply lt_IZR in Hgt. apply IZR_le. lia.
Qed.

(** X15.  With at least one cell to fill and a depth between 0 and the
    number of cells to fill, the new temperature is computed and stays
    within any bounds that hold the two temperature floors and the current
    temperature; with an upper bound below 100 its integer part is below
    100, as the random draw of the cost model needs. *)
Theorem temperature_stays_within_bounds (self : Setup) (current_temperature : R)
    (depth prior_depth : Z) (lo hi : R) :
  (0 < _number_of_tiles_to_process self)%Z →
  (0 ≤ depth ≤ _number_of_tiles_to_process self)%Z →
  (lo <= _min_min_temperature self <= hi)%R →
  (lo <= _max_min_temperature self <= hi)%R →
  (lo <= current_temperature <= hi)%R →
  ∃ new_temperature : R,
    get_new_temperature self current_temperature depth prior_depth = Ok new_temperature ∧
    (lo <= new_temperature <= hi)%R ∧
    ((hi < 100)%R → (float_to_int new_temperature < 100)%Z).
Proof.
  intros HT Hd Hmin Hmax Hcur.
  destruct (temp_ratio_unit self depth prior_depth HT Hd) as (ratio & Hr & Hr0 & Hr1).
  unfold get_new_temperature. rewrite Hr. cbn [mbind result_bind].
  eexists. split; [reflexivity|].
  assert (∀ limit, (lo <= limit <= hi)%R →
            (lo <= limit * ratio + current_temperature * (1 - ratio) <= hi)%R) as Hconv.
  { intros limit Hl. split; nra. }
  assert (lo <= (if bool_decide (depth ≤ prior_depth)%Z
                 then _max_min_temperature self else _min_min_temperature self) <= hi)%R
    as Hl by (by case_bool_decide).
  specialize (Hconv _ Hl). split; [done|].
  intros Hhi. apply float_to_int_lt; [lia|]. lra.
Qed.

(** *** Plateau check *)

(** X16.  A plateau check interval of 0 (or any negative value other than
    -1) disables the plateau check: it never stops the search and changes
    nothing. *)
Theorem plateau_check_disabled (kw : Kwargs) (self : Setup) (s0 s : State) :
  __init__ kw = Ok (self, s0) →
  (plateau_check_interval kw ≤ 0)%Z → plateau_check_interval kw ≠ (-1)%Z →
  plateau_check self s = Ok (inr s).
Proof.
  intros Hinit Hle Hne.
  assert (_plateau_stop_steps self = IZR (plateau_check_interval kw)) as Hsteps.
  { revert Hinit. unfold __init__. destruct (linalg_solve _ _); [|done].
    cbn [mbind result_bind]. intros [= <- _]. simpl.
    by rewrite bool_decide_eq_false_2. }
  unfold plateau_check. rewrite Hsteps.
  rewrite bool_decide_eq_false_2; [done|]. apply IZR_le in Hle. lra.
Qed.

End engine.

(** ** What [successors] keeps *)

Section successors_invariants.
Context `{ext : Externals}.

Lemma plateau_check_fields (self : Setup) (s : State) (r : State + State) :
  plateau_check self s = Ok r →
  let s' := match r with inl s' => s' | inr s' => s' end in
  world s' = world s ∧ _last_node s' = _last_node s ∧ _best_node s' = _best_node s.
Proof.
  intros Hp. unfold plateau_check in Hp.
  cbn [_best_node set_plateau_check_ticker] in Hp.
  destruct (_best_node s) as [b|] eqn:Hb; cbn [from_option mbind result_bind] in Hp;
    repeat (match type of Hp with
            | context [bool_decide ?P] => destruct (bool_decide P)
            end); try discriminate; injection Hp as <-; by cbn.
Qed.

Lemma expand_fields (self : Setup) (node : Node) (cum : R) (s s' : State)
    (children : list Node) :
  expand self node cum s = Ok (children, s') →
  _last_node s' = _last_node s ∧ _best_node s' = _best_node s.
Proof.
  unfold expand. destruct (potential_collapses _ _ _ _ _) as [[cs g1]|]; [|done].
  cbn [mbind result_bind]. destruct (_ || _); [by intros [= _ <-]|].
  destruct (yield_children _ _ _ _ _) as [[a ch]|]; [|done].
  cbn [mbind result_bind]. by intros [= _ <-].
Qed.

Lemma world_inv_frontier_open (use8 : bool) (w : World) :
  world_inv use8 w → frontier_open w.
Proof.
  intros Hinv c Hc. destruct (world_inv_frontier _ _ _ Hinv Hc) as [Hin Hz].
  split; [done|]. apply getitem_cell; [apply Hinv|done|done].
Qed.

(** X17.  If the shared world is the world of the last expanded node, then
    after the expansion of a node below the root it is the world of that
    node, which becomes the last expanded node (the root world satisfying
    the frontier invariant, the paths placing non-zero tiles only). *)
Theorem successors_leaves_world_of_node (self : Setup) (w0 : World)
    (last_node node : Node) (wn : World) (s s' : State) (children : list Node) :
  world_inv (_use_8cardinals self) w0 →
  tiles_nonzero last_node → tiles_nonzero node →
  identity_sound (_use_8cardinals self) w0 last_node node →
  state (root last_node) = state (root node) →
  _last_node s = Some last_node →
  world_of (_use_8cardinals self) w0 last_node = Ok (world s) →
  world_of (_use_8cardinals self) w0 node = Ok wn →
  (0 < depth node)%nat →
  successors_body self node s = Ok (children, s') →
  world s' = wn ∧ _last_node s' = Some node.
Proof.
  intros H0 Hnl Hnn Hid Hroot Hlast Hwl Hwn Hd. unfold successors_body, synchronise.
  rewrite (bool_decide_eq_false_2 (depth node = 0%nat)) by lia. rewrite Hlast.
  cbn [from_option mbind result_bind].
  rewrite (get_world_state_spec _ w0 last_node node (world s) wn) by done.
  cbn [mbind result_bind].
  destruct (get_new_temperature _ _ _ _) as [t|]; [|done]. cbn [mbind result_bind].
  destruct (parent node) as [p|]; [|done]. cbn [from_option mbind result_bind].
  cbn [_best_node set_last_node set_min_temperature set_world].
  destruct (_best_node s) as [best|]; [|done]. cbn [from_option mbind result_bind].
  pose proof (world_of_inv _ _ _ _ H0 Hnn Hwn) as Hinv.
  match goal with |- context [plateau_check self ?s1] => set (s1' := s1) end.
  assert (world s1' = wn ∧ _last_node s1' = Some node) as [Hw1 Hl1].
  { unfold s1'. by case_bool_decide. }
  clearbody s1'. case_bool_decide.
  - by intros [= _ <-].
  - destruct (plateau_check self s1') as [r|] eqn:Hpl; [|done].
    cbn [mbind result_bind].
    pose proof (plateau_check_fields _ _ _ Hpl) as Hf.
    destruct r as [s2|s2]; simpl in Hf; destruct Hf as (Hw2 & Hl2 & _).
    + intros [= _ <-]. by rewrite Hw2, Hl2.
    + intros Hexp. destruct (expand_fields _ _ _ _ _ _ Hexp) as [Hl3 _].
      rewrite Hl3, Hl2. split; [|done].
      assert (world s' = world s2) as ->; [|by rewrite Hw2].
      eapply expand_keeps_world; [| |exact Hexp].
      * rewrite Hw2, Hw1. apply Hinv.
      * rewrite Hw2, Hw1. by eapply world_inv_frontier_open.
Qed.

Lemma synchronise_best (self : Setup) (node : Node) (s s1 : State) (cum : R) :
  synchronise self node s = Ok (cum, s1) →
  _stop s1 = _stop s ∧
  if bool_decide (depth node = 0%nat) then _best_node s1 = Some node
  else _best_node s1 = _best_node s.
Proof.
  unfold synchronise. case_bool_decide.
  - destruct (open_nodes_on_depth_zero _ _) as [w|]; [|done].
    cbn [mbind result_bind]. by intros [= _ <-].
  - destruct (_last_node s) as [l|]; [|done]. cbn [from_option mbind result_bind].
    destruct (get_world_state _ _ _ _) as [w|]; [|done]. cbn [mbind result_bind].
    destruct (get_new_temperature _ _ _ _) as [t|]; [|done]. cbn [mbind result_bind].
    destruct (parent node) as [p|]; [|done]. cbn [from_option mbind result_bind].
    by intros [= _ <-].
Qed.

(** X18.  After the expansion of a node the best node is at least as deep as
    that node, and is either that node or the best node of before; at the
    full depth the expansion yields no child and sets the stop flag. *)
Theorem best_node_is_deepest_expanded (self : Setup) (node : Node) (s s' : State)
    (children : list Node) :
  successors_body self node s = Ok (children, s') →
  ∃ best' : Node,
    _best_node s' = Some best' ∧ (depth node ≤ depth best')%nat ∧
    (best' = node ∨ (_best_node s = Some best' ∧ (0 < depth node)%nat)) ∧
    ((_number_of_tiles_to_process self ≤ Z.of_nat (depth node))%Z →
     children = [] ∧ _stop s' = true).
Proof.
  unfold successors_body.
  destruct (synchronise self node s) as [[cum s1]|] eqn:Hsync; [|done].
  cbn [mbind result_bind].
  destruct (synchronise_best _ _ _ _ _ Hsync) as [_ Hb1].
  destruct (_best_node s1) as [best|] eqn:Hbest; [|done].
  cbn [from_option mbind result_bind].
  match goal with |- context [plateau_check self ?s2] => set (s2' := s2) end.
  assert (∃ best', _best_node s2' = Some best' ∧ (depth node ≤ depth best')%nat ∧
            (best' = node ∨ (_best_node s = Some best' ∧ (0 < depth node)%nat)))
    as (best' & Hb2 & Hd2 & Hor).
  { unfold s2'. destruct (decide (depth best < depth node)%nat) as [Hlt|Hlt].
    - rewrite (bool_decide_eq_true_2 _ Hlt). exists node. cbn. split; [done|].
      split; [lia|by left].
    - rewrite (bool_decide_eq_false_2 _ Hlt). exists best. rewrite Hbest.
      split; [done|]. split; [lia|].
      destruct (decide (depth node = 0%nat)) as [H0|H0].
      + rewrite (bool_decide_eq_true_2 _ H0) in Hb1. left. congruence.
      + rewrite (bool_decide_eq_false_2 _ H0) in Hb1. right. split; [congruence|lia]. }
  clearbody s2'.
  destruct (decide (_number_of_tiles_to_process self ≤ Z.of_nat (depth node))%Z)
    as [HT|HT];
    [rewrite (bool_decide_eq_true_2 _ HT)|rewrite (bool_decide_eq_false_2 _ HT)].
  - intros [= <- <-]. exists best'. by eauto.
  - destruct (plateau_check self s2') as [r|] eqn:Hpl; [|done].
    cbn [mbind result_bind].
    pose proof (plateau_check_fields _ _ _ Hpl) as Hf.
    destruct r as [s3|s3]; simpl in Hf; destruct Hf as (_ & _ & Hb3).
    + intros [= <- <-]. exists best'. rewrite Hb3. split; [done|].
      split; [done|]. split; [done|]. intros ?; lia.
    + intros Hexp. destruct (expand_fields _ _ _ _ _ _ Hexp) as [_ Hb4].
      exists best'. rewrite Hb4, Hb3. split; [done|].
      split; [done|]. split; [done|]. intros ?; lia.
Qed.

End successors_invariants.

(** ** The solution grid *)

Section solution.
Context `{ext : Externals}.

Lemma wf_array_ext (a b : ndarray) :
  wf_array a → wf_array b → shape a = shape b →
  (∀ q, in_shape a q → cell a q = cell b q) → a = b.
Proof.
  intros (Ha1 & Ha2 & Hla) (Hb1 & Hb2 & Hlb) Hs Hc.
  destruct a as [sa da], b as [sb db]. simpl in *. subst sb. f_equal.
  apply list_eq_same_length with (length da); [congruence|done|].
  intros i x y Hi Hx Hy.
  destruct sa as [h w]. simpl in *.
  assert (0 < w)%Z as Hw by nia.
  specialize (Hc (Z.of_nat i `div` w, Z.of_nat i `mod` w)%Z).
  unfold cell, offset, in_shape in Hc. simpl in Hc.
  replace (Z.to_nat (Z.of_nat i `div` w * w + Z.of_nat i `mod` w)) with i in Hc.
  2: { rewrite Z.mul_comm, <- Z.div_mod by lia. lia. }
  rewrite Hx, Hy in Hc. simpl in Hc. apply Hc.
  pose proof (Z.mod_pos_bound (Z.of_nat i) w Hw).
  pose proof (Z.div_pos (Z.of_nat i) w ltac:(lia) Hw).
  split; [|lia]. split; [lia|].
  apply Z.div_lt_upper_bound; [lia|]. nia.
Qed.

Lemma np_zeros_of_zero (a : ndarray) :
  wf_array a → count_nonzero a = 0%Z → np_zeros (shape a) = a.
Proof.
  intros (H1 & H2 & Hl) Hz. destruct a as [sh da]. unfold np_zeros. simpl in *.
  f_equal. rewrite <- Hl. unfold count_nonzero in Hz. simpl in Hz.
  assert (filter (λ v : Z, v ≠ 0%Z) da = []) as Hf by (apply length_zero_iff_nil; lia).
  clear -Hf. induction da as [|v da IH]; [done|].
  rewrite filter_cons in Hf. destruct (decide (v ≠ 0%Z)) as [Hv|Hv]; [done|].
  simpl. f_equal; [|by apply IH]. symmetry. by apply dec_stable.
Qed.

(** The grid written by the loop of [get_solution_state], cell by cell,
    against the world of the node. *)
Lemma write_path_spec (use8 : bool) (w0 : World) :
  world_inv use8 w0 →
  ∀ (n : Node) (w : World), tiles_nonzero n → world_of use8 w0 n = Ok w →
    shape (_temp_world_state w) = shape (_temp_world_state w0) ∧
    (∀ q, in_shape (_temp_world_state w0) q →
       cell (_temp_world_state w) q = cell (_temp_world_state w0) q ∨
       (cell (_temp_world_state w0) q = 0%Z ∧ cell (_temp_world_state w) q ≠ 0%Z)) ∧
    ∀ g : ndarray, wf_array g → shape g = shape (_temp_world_state w0) →
      ∃ g' : ndarray, write_path (depth n) (Some n) g = Ok g' ∧
        wf_array g' ∧ shape g' = shape g ∧
        ∀ q, in_shape g q →
          cell g' q = if bool_decide (cell (_temp_world_state w) q
                                      = cell (_temp_world_state w0) q)
                      then cell g q else cell (_temp_world_state w) q.
Proof.
  intros H0 n. induction n as [n Hp|n p Hp IH] using Node_parent_ind; intros w Hnz Hw.
  - rewrite (world_of_root_node _ _ _ Hp) in Hw. injection Hw as <-.
    split; [done|]. split; [by left|]. intros g Hg Hs.
    rewrite (depth_root_node _ Hp). exists g. simpl. split; [done|].
    split; [done|]. split; [done|]. intros q _. by rewrite bool_decide_eq_true_2.
  - rewrite (world_of_parent _ _ _ _ Hp) in Hw.
    destruct (world_of use8 w0 p) as [wp|] eqn:Hwp; [|done]. simpl in Hw.
    pose proof (tiles_nonzero_parent _ _ Hp Hnz) as Hnzp.
    pose proof (world_of_inv _ _ _ _ H0 Hnzp Hwp) as Hinv.
    destruct (IH wp Hnzp eq_refl) as (Hsh & Hcells & Hwrite).
    destruct (apply_action_inv_ok _ _ _ _ Hinv Hw)
      as (pos & tile & c & Hact & HF & Hc & Hin & Hz & ->).
    assert (tile ≠ 0%Z) as Ht.
    { apply (Hnz n pos tile); [|done]. rewrite (ancestors_parent _ _ Hp). left. }
    simpl. split; [done|].
    assert (in_shape (_temp_world_state w0) pos) as Hin0.
    { unfold in_shape in *. by rewrite <- Hsh. }
    assert (∀ q, in_shape (_temp_world_state w0) q → in_shape (_temp_world_state wp) q)
      as Hinq.
    { intros q. unfold in_shape. by rewrite <- Hsh. }
    assert (cell (_temp_world_state wp) pos = cell (_temp_world_state w0) pos) as Hpos.
    { destruct (Hcells pos Hin0) as [?|[_ ?]]; done. }
    split.
    { intros q Hq. destruct (decide (q = pos)) as [->|Hne].
      - right. rewrite cell_upd_eq; [|apply Hinv|done]. split; [congruence|done].
      - rewrite cell_upd_ne; [|done|by apply Hinq|done]. by apply Hcells. }
    intros g Hg Hs. rewrite (depth_parent _ _ Hp). cbn [write_path attr].
    rewrite Hact, Hp. cbn [mbind result_bind from_option].
    rewrite bool_decide_eq_true_2 by done.
    assert (in_shape g pos) as Hing.
    { unfold in_shape in *. by rewrite Hs. }
    rewrite setitem_in_shape by done. cbn [mbind result_bind].
    destruct (Hwrite (upd g pos tile) (upd_wf _ _ _ Hg) Hs)
      as (g' & Hwp' & Hwf' & Hs' & Hc').
    exists g'. split; [done|]. split; [done|]. split; [done|].
    intros q Hq. rewrite (Hc' q Hq).
    assert (in_shape (_temp_world_state w0) q) as Hq0.
    { unfold in_shape in *. by rewrite <- Hs. }
    destruct (decide (q = pos)) as [->|Hne].
    + rewrite (bool_decide_eq_true_2 _ Hpos).
      rewrite !cell_upd_eq; [|apply Hinv|done|done|done].
      rewrite bool_decide_eq_false_2; [done|]. congruence.
    + rewrite !(cell_upd_ne _ pos); [done|done|by apply Hinq|done|done|done|done].
Qed.

(** X19.  [get_solution_state] returns the grid of the world of the best
    node: the starting grid with the placements of the path to the best
    node (the root world satisfying the frontier invariant, the path placing
    non-zero tiles only). *)
Theorem solution_is_grid_of_best_node (kw : Kwargs) (self : Setup) (s0 s : State)
    (w0 wb : World) (best : Node) :
  __init__ kw = Ok (self, s0) →
  wf_array (starting_state kw) →
  _temp_world_state w0 = starting_state kw →
  world_inv (_use_8cardinals self) w0 →
  tiles_nonzero best →
  world_of (_use_8cardinals self) w0 best = Ok wb →
  _best_node s = Some best →
  shape (_temp_world_state (world s)) = shape (starting_state kw) →
  get_solution_state self s = Ok (_temp_world_state wb).
Proof.
  intros Hinit Hwf Hg0 H0 Hnz Hwb Hbest Hshape.
  destruct (init_inv _ _ _ Hinit) as (_ & _ & Hstart & _).
  unfold get_solution_state. rewrite Hbest. cbn [from_option mbind result_bind].
  assert (match _starting_state self with
          | Some starting => starting
          | None => np_zeros (shape (_temp_world_state (world s)))
          end = starting_state kw) as ->.
  { rewrite Hstart. case_bool_decide as Hnzc; [done|].
    rewrite Hshape. apply np_zeros_of_zero; [done|].
    unfold count_nonzero in *. lia. }
  destruct (write_path_spec _ _ H0 best wb Hnz Hwb) as (Hsh & Hcells & Hwrite).
  destruct (Hwrite (starting_state kw) Hwf ltac:(by rewrite Hg0))
    as (g' & -> & Hwf' & Hs' & Hc'). f_equal.
  pose proof (world_of_inv _ _ _ _ H0 Hnz Hwb) as [Hwfb _].
  apply wf_array_ext; [done|done|by rewrite Hs', Hsh, Hg0|].
  intros q Hq. assert (in_shape (starting_state kw) q) as Hq'.
  { unfold in_shape in *. by rewrite <- Hs'. }
  rewrite (Hc' q Hq').
  destruct (decide (cell (_temp_world_state wb) q = cell (_temp_world_state w0) q))
    as [He|He].
  - rewrite (bool_decide_eq_true_2 _ He). by rewrite He, Hg0.
  - by rewrite (bool_decide_eq_false_2 _ He).
Qed.

End solution.

(** ** The frontier of a starting grid *)

Section root_frontier.
Context `{ext : Externals}.

Lemma elem_of_range (n i : Z) : i ∈ WFC_Sample.range n ↔ (0 ≤ i < n)%Z.
Proof.
  unfold WFC_Sample.range. rewrite list_elem_of_fmap. split.
  - intros (k & -> & Hk). apply elem_of_seq in Hk. lia.
  - intros Hi. exists (Z.to_nat i). split; [lia|]. apply elem_of_seq. lia.
Qed.

Lemma elem_of_cells (a : ndarray) (c : coord) :
  c ∈ (y ← WFC_Sample.range (shape a).1; x ← WFC_Sample.range (shape a).2; [(y, x)])
  ↔ in_shape a c.
Proof.
  rewrite list_elem_of_bind. unfold in_shape. split.
  - intros (y & Hc & Hy). apply list_elem_of_bind in Hc as (x & Hc & Hx).
    apply list_elem_of_singleton in Hc as ->. simpl.
    apply elem_of_range in Hy, Hx. done.
  - intros [Hy Hx]. exists c.1. split; [|by apply elem_of_range].
    apply list_elem_of_bind. exists c.2. split; [|by apply elem_of_range].
    destruct c. simpl. by apply list_elem_of_singleton.
Qed.

(** the cells that [open_nodes_on_depth_zero] inspects around (y, x) are
    those that [update_open_nodes] inspects around (y + 1, x + 1) *)
Lemma root_indices_to_check (use8 : bool) (a : ndarray) (y x : Z) :
  filter (in_shape a)
    ((fun r : coord => (y + r.1, x + r.2)%Z)
       <$> (let l : list coord :=
              _y ← range3; _x ← range3;
              if bool_decide (_y ≠ 1 ∨ _x ≠ 1)%Z then [(_y, _x)] else [] in
            if use8 then l else select [1; 3; 4; 6]%nat l))
  = indices_to_check use8 a (y + 1) (x + 1).
Proof.
  unfold indices_to_check. f_equal.
  rewrite indices_around_eq.
  replace (y + 1 - 1 + 0)%Z with (y + 0)%Z by lia.
  replace (y + 1 - 1 + 1)%Z with (y + 1)%Z by lia.
  replace (y + 1 - 1 + 2)%Z with (y + 2)%Z by lia.
  replace (x + 1 - 1 + 0)%Z with (x + 0)%Z by lia.
  replace (x + 1 - 1 + 1)%Z with (x + 1)%Z by lia.
  replace (x + 1 - 1 + 2)%Z with (x + 2)%Z by lia.
  by destruct use8.
Qed.

Lemma open_fold (starting a : ndarray) (use8 : bool) (cells : list coord)
    (F : gset coord) :
  wf_array starting → shape a = shape starting →
  Forall (in_shape starting) cells →
  foldM (fun wost yx =>
           tile ← getitem starting yx;
           if bool_decide (tile ≠ 0%Z) then Ok wost
           else
             b ← any_decided starting (indices_to_check use8 a (yx.1 + 1) (yx.2 + 1));
             Ok (if (b : bool) then {[yx]} ∪ wost else wost)) F cells
  = Ok (F ∪ list_to_set
              (filter (fun yx => cell starting yx = 0%Z ∧
                         Exists (fun q => cell starting q ≠ 0%Z)
                                (indices_to_check use8 a (yx.1 + 1) (yx.2 + 1)))
                      cells)).
Proof.
  intros Hwf Hs Hcells.
  match goal with |- foldM ?f0 _ _ = _ => set (f := f0) end.
  revert F. induction Hcells as [|yx cells Hyx _ IH]; intros F.
  - simpl. f_equal. set_solver.
  - cbn [foldM].
    assert (Forall (in_shape starting) (indices_to_check use8 a (yx.1 + 1) (yx.2 + 1)))
      as Hidx.
    { eapply Forall_impl; [apply indices_to_check_in_shape|].
      intros q. unfold in_shape. by rewrite Hs. }
    assert (f F yx
            = Ok (if bool_decide (cell starting yx = 0%Z ∧
                       Exists (fun q => cell starting q ≠ 0%Z)
                              (indices_to_check use8 a (yx.1 + 1) (yx.2 + 1)))
                  then {[yx]} ∪ F else F)) as ->.
    { unfold f. rewrite getitem_in_shape by done. cbn [mbind result_bind].
      destruct (decide (cell starting yx = 0%Z)) as [Hz|Hz].
      - rewrite bool_decide_eq_false_2 by (intros ?; done).
        rewrite any_decided_spec by done. cbn [mbind result_bind]. f_equal.
        destruct (decide (Exists (λ q : coord, cell starting q ≠ 0%Z)
                            (indices_to_check use8 a (yx.1 + 1) (yx.2 + 1)))) as [He|He].
        + rewrite (bool_decide_eq_true_2 _ He). by rewrite bool_decide_eq_true_2.
        + rewrite (bool_decide_eq_false_2 _ He). by rewrite bool_decide_eq_false_2 by tauto.
      - rewrite bool_decide_eq_true_2 by done. by rewrite bool_decide_eq_false_2 by tauto. }
    cbn [mbind result_bind]. rewrite IH. f_equal. rewrite filter_cons.
    destruct (decide (cell starting yx = 0%Z ∧
                      Exists (fun q => cell starting q ≠ 0%Z)
                             (indices_to_check use8 a (yx.1 + 1) (yx.2 + 1)))) as [Hd|Hd].
    + rewrite (bool_decide_eq_true_2 _ Hd). rewrite list_to_set_cons. set_solver.
    + by rewrite (bool_decide_eq_false_2 _ Hd).
Qed.

(** X20.  With a starting grid, [open_nodes_on_depth_zero] succeeds, keeps
    the grid and the counters, and opens exactly the undecided cells (y, x)
    for which a decided cell of the grid is adjacent to (y + 1, x + 1): the
    inspected offsets are not centred on the cell. *)
Theorem root_frontier_of_starting_grid (self : Setup) (w : World) (starting : ndarray) :
  _starting_state self = Some starting →
  wf_array starting →
  shape (_temp_world_state w) = shape starting →
  ∃ w' : World,
    open_nodes_on_depth_zero self w = Ok w' ∧
    _temp_world_state w' = _temp_world_state w ∧
    _tile_counts w' = _tile_counts w ∧
    ∀ c : coord, c ∈ _temp_world_open_super_tiles w' ↔
      c ∈ _temp_world_open_super_tiles w ∨
      (in_shape starting c ∧ getitem starting c = Ok 0%Z ∧
       ∃ q : coord, adjacent (_use_8cardinals self) (c.1 + 1, c.2 + 1)%Z q ∧
                    in_shape starting q ∧ cell starting q ≠ 0%Z).
Proof.
  intros Hst Hwf Hs. unfold open_nodes_on_depth_zero. rewrite Hst.
  assert (∀ (wost : gset coord) (yx : coord),
            (tile ← getitem starting yx;
             if bool_decide (tile ≠ 0%Z) then Ok wost
             else
               b ← any_decided starting
                     (filter (in_shape (_temp_world_state w))
                        ((fun r : coord => (yx.1 + r.1, yx.2 + r.2)%Z)
                           <$> (if _use_8cardinals self
                                then (_y ← range3; _x ← range3;
                                      if bool_decide (_y ≠ 1 ∨ _x ≠ 1)%Z
                                      then [(_y, _x)] else [])
                                else select [1; 3; 4; 6]%nat
                                       (_y ← range3; _x ← range3;
                                        if bool_decide (_y ≠ 1 ∨ _x ≠ 1)%Z
                                        then [(_y, _x)] else []))));
               Ok (if (b : bool) then {[yx]} ∪ wost else wost))
            = (tile ← getitem starting yx;
               if bool_decide (tile ≠ 0%Z) then Ok wost
               else
                 b ← any_decided starting
                       (indices_to_check (_use_8cardinals self) (_temp_world_state w)
                          (yx.1 + 1) (yx.2 + 1));
                 Ok (if (b : bool) then {[yx]} ∪ wost else wost))) as Hbody.
  { intros wost yx. by rewrite <- (root_indices_to_check _ _ yx.1 yx.2). }
  cbv zeta.
  match goal with |- context [foldM ?f ?F ?l] =>
    assert (foldM f F l
            = foldM (fun (wost : gset coord) (yx : coord) =>
                       tile ← getitem starting yx;
                       if bool_decide (tile ≠ 0%Z) then Ok wost
                       else
                         b ← any_decided starting
                               (indices_to_check (_use_8cardinals self)
                                  (_temp_world_state w) (yx.1 + 1) (yx.2 + 1));
                         Ok (if (b : bool) then {[yx]} ∪ wost else wost)) F l) as ->
  end.
  { generalize (_temp_world_open_super_tiles w).
    generalize (y ← WFC_Sample.range (shape starting).1;
                x ← WFC_Sample.range (shape starting).2; [(y, x)]).
    induction l as [|yx l IH]; intros F; [done|]. cbn [foldM].
    rewrite Hbody.
    match goal with |- ?m ≫= _ = _ => destruct m as [F'|] end; [|done].
    cbn [mbind result_bind]. apply IH. }
  rewrite (open_fold starting _ _ _ _ Hwf Hs).
  2: { apply Forall_forall. intros c Hc. by apply elem_of_cells. }
  cbn [mbind result_bind]. eexists. split; [reflexivity|]. simpl.
  split; [done|]. split; [done|]. intros c.
  rewrite elem_of_union, elem_of_list_to_set, list_elem_of_filter, elem_of_cells.
  rewrite Exists_exists.
  assert (∀ q, q ∈ indices_to_check (_use_8cardinals self) (_temp_world_state w)
                     (c.1 + 1) (c.2 + 1)
               ↔ in_shape starting q ∧ adjacent (_use_8cardinals self)
                                          (c.1 + 1, c.2 + 1)%Z q) as Hidx.
  { intros q. rewrite elem_of_indices_to_check. unfold in_shape. by rewrite Hs. }
  split.
  - intros [?|((Hz & q & Hq & Hne) & Hin)]; [by left|right].
    split; [done|]. split; [by apply getitem_cell|].
    apply Hidx in Hq as [? ?]. by exists q.
  - intros [?|(Hin & Hz & q & Hadj & Hq & Hne)]; [by left|right].
    split; [|done]. split; [by apply getitem_cell in Hz|].
    exists q. split; [|done]. by apply Hidx.
Qed.

End root_frontier.

(** ** The nodes of nodes.py *)

Section nodes.
Context `{ext : Externals}.

Lemma count_nonzero_zeros (sh : Z * Z) : count_nonzero (np_zeros sh) = 0%Z.
Proof.
  unfold count_nonzero, np_zeros. simpl.
  induction (Z.to_nat (sh.1 * sh.2)) as [|n IH]; [done|].
  simpl. rewrite filter_cons. by rewrite decide_False by (intros ?; done).
Qed.

Lemma np_zeros_wf (sh : Z * Z) :
  (0 ≤ sh.1)%Z → (0 ≤ sh.2)%Z → wf_array (np_zeros sh).
Proof. intros ??. repeat split; simpl; try done. by rewrite length_replicate. Qed.

Lemma init_dims (kw : Kwargs) (self : Setup) (s0 : State) :
  __init__ kw = Ok (self, s0) →
  _world_tdims self = shape (starting_state kw) ∧
  _use_8cardinals self = use_8_cardinals kw.
Proof.
  unfold __init__. destruct (linalg_solve _ _); [|done]. by intros [= <- <-].
Qed.

(** X21.  On the state of [WFC_EmptyState.create] (first axis: width) the
    problem is constructed, has width x height cells to fill and no starting
    grid, and the first expansion opens exactly the centre cell, in a world
    that satisfies the frontier invariant. *)
Theorem empty_state_opens_centre (width height : Z) (kw : Kwargs) :
  (0 < width)%Z → (0 < height)%Z →
  WFC_EmptyState.create width height = Ok (starting_state kw) →
  ∃ (self : Setup) (s0 : State) (w : World),
    __init__ kw = Ok (self, s0) ∧
    _number_of_tiles_to_process self = (width * height)%Z ∧
    _starting_state self = None ∧
    open_nodes_on_depth_zero self (world s0) = Ok w ∧
    _temp_world_open_super_tiles w = {[ (width `div` 2, height `div` 2)%Z ]} ∧
    world_inv (use_8_cardinals kw) w.
Proof.
  intros Hw Hh. unfold WFC_EmptyState.create.
  rewrite bool_decide_eq_false_2 by lia. intros [= Hg].
  assert (size_of (starting_state kw) - count_nonzero (starting_state kw)
          = width * height)%Z as HT.
  { rewrite <- Hg, count_nonzero_zeros. unfold size_of, np_zeros. simpl.
    rewrite length_replicate. nia. }
  destruct (init_poly kw) as (self & s0 & Hinit & _ & HTs & _).
  { rewrite HT. nia. }
  destruct (init_inv _ _ _ Hinit) as (_ & _ & Hstart & Hworld & _).
  destruct (init_dims _ _ _ Hinit) as [Hdims _].
  assert (_starting_state self = None) as Hnone.
  { rewrite Hstart, <- Hg, count_nonzero_zeros. by rewrite bool_decide_eq_false_2. }
  eexists self, s0, _. split; [done|]. split; [by rewrite HTs, HT|].
  split; [done|]. unfold open_nodes_on_depth_zero. rewrite Hnone.
  split; [reflexivity|]. rewrite Hworld, Hdims, <- Hg. simpl.
  split; [by rewrite union_empty_r_L|].
  apply (seed_world_inv (use_8_cardinals kw) (np_zeros (width, height))); simpl; try lia.
  - apply np_zeros_wf; simpl; lia.
  - apply Forall_replicate. done.
Qed.

(** *** WFC_Filter *)

(** X22.  [WFC_Filter.create] keeps the shape; each cell is kept by the
    filter and zeroed by the inverted filter when its tile is in the batch,
    and the other way round when it is not; filtering twice is filtering
    once. *)
Theorem filter_splits_state (state : ndarray) (tiles_batch : list (list Z)) :
  let kept := WFC_Filter.create state tiles_batch false in
  let dropped := WFC_Filter.create state tiles_batch true in
  shape kept = shape state ∧ shape dropped = shape state ∧
  (∀ (i : nat) (t : Z), data state !! i = Some t →
     (t ∈ (tile_to_hash <$> tiles_batch) ∧
      data kept !! i = Some t ∧ data dropped !! i = Some 0%Z) ∨
     ((t ∉ (tile_to_hash <$> tiles_batch)) ∧
      data kept !! i = Some 0%Z ∧ data dropped !! i = Some t)) ∧
  ∀ invert : bool,
    WFC_Filter.create (WFC_Filter.create state tiles_batch invert) tiles_batch invert
    = WFC_Filter.create state tiles_batch invert.
Proof.
  intros kept dropped. split; [done|]. split; [done|]. split.
  - intros i t Hi. unfold kept, dropped, WFC_Filter.create. simpl.
    rewrite !list_lookup_fmap, Hi. simpl.
    destruct (decide (t ∈ tile_to_hash <$> tiles_batch)) as [Hin|Hin].
    + left. by rewrite (bool_decide_eq_true_2 _ Hin).
    + right. by rewrite (bool_decide_eq_false_2 _ Hin).
  - intros invert. unfold WFC_Filter.create. simpl. f_equal.
    rewrite <- list_fmap_compose. apply list_fmap_ext. intros i t _. simpl.
    destruct (decide (t ∈ tile_to_hash <$> tiles_batch)) as [Hin|Hin].
    + rewrite (bool_decide_eq_true_2 _ Hin). destruct invert; simpl.
      * by destruct (bool_decide _).
      * by rewrite (bool_decide_eq_true_2 _ Hin).
    + rewrite (bool_decide_eq_false_2 _ Hin). destruct invert; simpl.
      * by rewrite (bool_decide_eq_false_2 _ Hin).
      * by destruct (bool_decide _).
Qed.

(** *** WFC_GenParallel *)

Lemma list_getitem_in_range {A} (l : list A) (i : nat) (x : A) :
  l !! i = Some x → list_getitem l (Z.of_nat i) = Ok x.
Proof.
  intros Hi. unfold list_getitem. pose proof (lookup_lt_Some _ _ _ Hi).
  rewrite norm_index_in_range by lia. simpl. by rewrite Nat2Z.id, Hi.
Qed.

Lemma broadcast_ok {A} (l : list A) (i : nat) :
  l ≠ [] →
  ∃ x, WFC_GenParallel.broadcast l i = Ok x ∧ l !! Nat.min i (length l - 1) = Some x.
Proof.
  intros Hne. assert (0 < length l)%nat as Hl by (destruct l; [done|simpl; lia]).
  destruct (lookup_lt_is_Some_2 l (Nat.min i (length l - 1)) ltac:(lia)) as [x Hx].
  exists x. split; [|done]. unfold WFC_GenParallel.broadcast.
  replace (Z.min (Z.of_nat i) (Z.of_nat (length l) - 1))
    with (Z.of_nat (Nat.min i (length l - 1))) by lia.
  by apply list_getitem_in_range.
Qed.

Lemma max_len_ge (kw : WFC_GenParallel.kwargs) :
  (length (WFC_GenParallel.starting_state kw) ≤ WFC_GenParallel.max_len kw)%nat.
Proof.
  assert (∀ (l : list nat) (m : nat),
            (m ≤ foldl (fun max_len v_len =>
                          if bool_decide (max_len < v_len)%nat then v_len else max_len) m l
             ∧ ∀ x, x ∈ l →
                 x ≤ foldl (fun max_len v_len =>
                              if bool_decide (max_len < v_len)%nat then v_len else max_len)
                           m l)%nat) as Hmax.
  { induction l as [|v l IH]; intros m; simpl.
    - split; [lia|]. by intros x ?%elem_of_nil.
    - destruct (IH (if bool_decide (m < v)%nat then v else m)) as [IH1 IH2].
      destruct (decide (m < v)%nat) as [Hlt|Hlt];
        [rewrite (bool_decide_eq_true_2 _ Hlt) in *
        |rewrite (bool_decide_eq_false_2 _ Hlt) in *].
      + split; [lia|]. intros x [->|Hx]%elem_of_cons; [done|by apply IH2].
      + split; [lia|]. intros x [->|Hx]%elem_of_cons; [lia|by apply IH2]. }
  unfold WFC_GenParallel.max_len. apply Hmax. right. left.
Qed.

Lemma mapM_Forall2 {A B} (f : A → result B) (P : A → B → Prop) (l : list A) :
  (∀ x, x ∈ l → ∃ y, f x = Ok y ∧ P x y) →
  ∃ ys, mapM f l = Ok ys ∧ Forall2 P l ys.
Proof.
  induction l as [|a l IH]; intros Hf; [by exists []|].
  destruct (Hf a) as (y & Hy & HP); [left|].
  destruct IH as (ys & Hys & HF); [intros; apply Hf; by right|].
  exists (y :: ys). simpl. rewrite Hy. cbn [mbind result_bind]. rewrite Hys.
  split; [done|]. by constructor.
Qed.

(** the sum over the indices of a broadcast list *)
Lemma sum_broadcast (f : ndarray → Z) (ss : list ndarray) (last : ndarray) (n : nat) :
  ss !! (length ss - 1)%nat = Some last → (length ss ≤ n)%nat →
  foldr Z.add 0%Z
    ((fun i => f (default last (ss !! Nat.min i (length ss - 1)))) <$> seq 0 n)
  = (foldr Z.add 0%Z (f <$> ss) + f last * (Z.of_nat n - Z.of_nat (length ss)))%Z.
Proof.
  intros Hlast Hn.
  replace n with (length ss + (n - length ss))%nat at 1 by lia.
  rewrite seq_app, fmap_app, foldr_app. simpl.
  assert (∀ (l : list Z) (a : Z), foldr Z.add a l = (foldr Z.add 0 l + a)%Z) as Hacc.
  { induction l as [|x l IH]; intros a; simpl; [lia|]. rewrite IH. lia. }
  rewrite Hacc.
  assert (foldr Z.add 0%Z
            ((fun i => f (default last (ss !! Nat.min i (length ss - 1))))
               <$> seq 0 (length ss))
          = foldr Z.add 0%Z (f <$> ss)) as ->.
  { f_equal. apply list_eq. intros i. rewrite !list_lookup_fmap.
    destruct (decide (i < length ss)%nat) as [Hi|Hi].
    - rewrite lookup_seq_lt by done. simpl.
      replace (Nat.min i (length ss - 1)) with i by lia.
      destruct (lookup_lt_is_Some_2 ss i Hi) as [x Hx]. by rewrite Hx.
    - rewrite lookup_seq_ge by lia. rewrite lookup_ge_None_2 by lia. done. }
  f_equal.
  assert (∀ (m s : nat), (length ss ≤ s)%nat →
            foldr Z.add 0%Z
              ((fun i => f (default last (ss !! Nat.min i (length ss - 1)))) <$> seq s m)
            = (f last * Z.of_nat m)%Z) as Hrep.
  { induction m as [|m IH]; intros s Hs; [simpl; lia|].
    rewrite <- cons_seq, fmap_cons. cbn [foldr]. rewrite IH by lia.
    replace (Nat.min s (length ss - 1)) with (length ss - 1)%nat by lia.
    rewrite Hlast. simpl. lia. }
  rewrite Hrep by lia. f_equal. lia.
Qed.

(** X23.  With non-empty input lists, the parallel generation prepares as
    many argument sets as the longest list has entries, the i-th with the
    i-th starting grid (the last one when the list is shorter), and the total
    of the progress bar is the sum of the cells to fill over these sets. *)
Theorem gen_total_matches_inputs (kw : WFC_GenParallel.kwargs)
    (custom_temperature_config : option (list WFC_GenParallel.TemperatureConfig))
    (custom_node_value_config : option (list WFC_GenParallel.NodeValueConfig))
    (stop : nat → bool) :
  WFC_GenParallel.sample kw ≠ [] → WFC_GenParallel.starting_state kw ≠ [] →
  WFC_GenParallel.seed kw ≠ [] → WFC_GenParallel.max_freq_adjust kw ≠ [] →
  WFC_GenParallel.use_8_cardinals kw ≠ [] →
  WFC_GenParallel.plateau_check_interval kw ≠ [] →
  ∃ inputs : list Kwargs,
    WFC_GenParallel.per_gen_inputs kw custom_temperature_config
      custom_node_value_config stop = Ok inputs ∧
    length inputs = WFC_GenParallel.max_len kw ∧
    (∀ (i : nat) (kw_i : Kwargs), inputs !! i = Some kw_i →
       WFC_GenParallel.starting_state kw
         !! Nat.min i (length (WFC_GenParallel.starting_state kw) - 1)
       = Some (starting_state kw_i)) ∧
    WFC_GenParallel.total_tiles_to_proc kw
    = Ok (foldr Z.add 0%Z
            ((fun kw_i => (size_of (starting_state kw_i)
                           - count_nonzero (starting_state kw_i))%Z) <$> inputs)).
Proof.
  intros H1 H2 H3 H4 H5 H6.
  set (ss := WFC_GenParallel.starting_state kw) in *.
  destruct (broadcast_ok ss (length ss - 1) H2) as (last & _ & Hlast).
  replace (Nat.min (length ss - 1) (length ss - 1)) with (length ss - 1)%nat in Hlast by lia.
  assert (∀ i, ∃ kw_i,
            WFC_GenParallel.input kw custom_temperature_config
              custom_node_value_config stop i = Ok kw_i ∧
            starting_state kw_i = default last (ss !! Nat.min i (length ss - 1)))
    as Hinput.
  { intros i. unfold WFC_GenParallel.input. fold ss.
    destruct (broadcast_ok _ i H1) as (x1 & -> & _).
    destruct (broadcast_ok _ i H2) as (x2 & -> & Hx2).
    destruct (broadcast_ok _ i H3) as (x3 & -> & _).
    destruct (broadcast_ok _ i H4) as (x4 & -> & _).
    destruct (broadcast_ok _ i H5) as (x5 & -> & _).
    destruct (broadcast_ok _ i H6) as (x6 & -> & _).
    cbn [mbind result_bind]. fold ss in Hx2.
    assert (∀ {A} (l : option (list A)) (d : A),
              ∃ x, (if bool_decide (0 < match l with None => 0 | Some l => length l end)%nat
                    then WFC_GenParallel.broadcast (default [] l) i else Ok d) = Ok x)
      as Hcfg.
    { intros A l d. destruct l as [[|a l]|]; cbn [length default].
      - rewrite bool_decide_eq_false_2 by lia. eauto.
      - rewrite bool_decide_eq_true_2 by lia.
        destruct (broadcast_ok (a :: l) i ltac:(done)) as (x & Hx & _). eauto.
      - rewrite bool_decide_eq_false_2 by lia. eauto. }
    destruct (Hcfg _ custom_temperature_config
                {| WFC_GenParallel.starting_temperature := 50;
                   WFC_GenParallel.min_min_temperature := 0;
                   WFC_GenParallel.max_min_temperature := 80 |}) as (ct & ->).
    destruct (Hcfg _ custom_node_value_config
                {| WFC_GenParallel.reverse_depth_w := 1;
                   WFC_GenParallel.node_cost_w := 1;
                   WFC_GenParallel.path_entropy_average_w := 0 |}) as (cnv & ->).
    cbn [mbind result_bind]. eexists. split; [reflexivity|]. simpl. by rewrite Hx2. }
  destruct (mapM_Forall2
              (WFC_GenParallel.input kw custom_temperature_config
                 custom_node_value_config stop)
              (fun i kw_i => starting_state kw_i
                             = default last (ss !! Nat.min i (length ss - 1)))
              (seq 0 (WFC_GenParallel.max_len kw)))
    as (inputs & Hmap & Hall); [intros i _; apply Hinput|].
  exists inputs. split; [done|].
  pose proof (Forall2_length _ _ _ Hall) as Hlen. rewrite length_seq in Hlen.
  split; [done|]. split.
  - intros i kw_i Hi.
    destruct (Forall2_lookup_r _ _ _ _ _ Hall Hi) as (j & Hj & Hst).
    apply lookup_seq in Hj as [-> _]. simpl in Hst. rewrite Hst.
    destruct (lookup_lt_is_Some_2 ss (Nat.min i (length ss - 1))) as [x Hx].
    { assert (0 < length ss)%nat by (destruct ss; [done|simpl; lia]). lia. }
    by rewrite Hx.
  - unfold WFC_GenParallel.total_tiles_to_proc. fold ss.
    assert (list_getitem ss (-1) = Ok last) as ->.
    { unfold list_getitem, norm_index.
      assert (0 < length ss)%nat by (destruct ss; [done|simpl; lia]).
      rewrite bool_decide_eq_false_2 by lia. rewrite bool_decide_eq_true_2 by lia.
      simpl. replace (Z.to_nat (-1 + Z.of_nat (length ss))) with (length ss - 1)%nat by lia.
      by rewrite Hlast. }
    cbn [mbind result_bind]. f_equal.
    rewrite <- (sum_broadcast (fun a => (size_of a - count_nonzero a)%Z) ss last
                  (WFC_GenParallel.max_len kw) Hlast (max_len_ge kw)).
    f_equal. clear -Hall. induction Hall as [|i kw_i l inputs Hi _ IH]; [done|].
    rewrite !fmap_cons. by rewrite IH, Hi.
Qed.

End nodes.

(** ** When the cost model returns *)

Section cost_progress.
Context `{ext : Externals}.

Lemma mapM_total {A B} (f : A → result B) (l : list A) :
  (∀ x, x ∈ l → ∃ y, f x = Ok y) → ∃ ys, mapM f l = Ok ys.
Proof.
  intros Hf. destruct (mapM_Forall2 f (fun _ _ => True) l) as (ys & Hys & _); [|by eauto].
  intros x Hx. destruct (Hf x Hx) as [y Hy]. by eauto.
Qed.

(** the cost model returns whenever the temperature is below 100 and the
    candidates are tiles of the catalog with a counter *)
Lemma cell_costs_progress (self : Setup) (s : State) (y x : Z) (g : ndarray)
    (depth : nat) (tiles : list Z) (probabilities : list R) :
  wf_array g →
  map_to_probabilities
    (filter_super_tiles self (neighbour_query (_use_8cardinals self) g y x))
  = Ok (tiles, probabilities) →
  (_min_temperature s < 100)%R →
  (∀ t, t ∈ tiles →
     is_Some (WFC_Sample.tile_data (_sample self) !! t) ∧
     is_Some (_tile_counts (world s) !! t)) →
  ∃ (costs : option (list R)) (entropy : option R) (gen' : Generator),
    get_cell_potential_states_and_costs self s y x g depth
    = Ok ((tiles, costs, entropy), gen').
Proof.
  intros Hwf Hmap Htemp Hkeys. unfold get_cell_potential_states_and_costs.
  pose proof (potential_states_query self g y x Hwf) as Hq.
  destruct (mapM _ (indices_around y x)) as [adj|] eqn:Hadj.
  2: { rewrite adjacent_states_ok in Hadj by done. done. }
  cbn [mbind result_bind] in Hq |- *. rewrite Hq, Hmap. clear Hq.
  cbn [mbind result_bind].
  destruct (bool_decide (length tiles = 0%nat)) eqn:Hlen.
  { apply bool_decide_eq_true in Hlen. destruct tiles; [|done]. by eauto. }
  destruct (rng_random _ _) as [rands g1].
  rewrite (bool_decide_eq_false_2 (100 ≤ _)%Z).
  2: { pose proof (float_to_int_lt (_min_temperature s) 100 ltac:(lia) Htemp). lia. }
  destruct (rng_integers _ _ _) as [i g2].
  destruct (mapM_total (fun t => from_option KeyError
                                   (snd <$> WFC_Sample.tile_data (_sample self) !! t))
              tiles) as (sf & ->).
  { intros t Ht. destruct (Hkeys t Ht) as [[v Hv] _]. rewrite Hv. by eauto. }
  cbn [mbind result_bind].
  destruct (mapM_total (fun t => from_option KeyError (_tile_counts (world s) !! t))
              tiles) as (cc & ->).
  { intros t Ht. destruct (Hkeys t Ht) as [_ [v Hv]]. rewrite Hv. by eauto. }
  cbn [mbind result_bind]. by eauto.
Qed.

(** X12.  With a temperature below 100, and a catalog whose pattern centres
    all are tiles of the catalog with a counter, the cost model returns for
    every cell. *)
Theorem cost_model_returns_below_100 (self : Setup) (s : State) (y x : Z) (g : ndarray)
    (depth : nat) :
  wf_array g →
  Forall (fun sc => 0 < sc.2)%Z (WFC_Sample.super_tile_data (_sample self)) →
  (_min_temperature s < 100)%R →
  (∀ pattern count, (pattern, count) ∈ WFC_Sample.super_tile_data (_sample self) →
     is_Some (WFC_Sample.tile_data (_sample self) !! centre pattern) ∧
     is_Some (_tile_counts (world s) !! centre pattern)) →
  ∃ (tiles : list Z) (costs : option (list R)) (entropy : option R) (gen' : Generator),
    get_cell_potential_states_and_costs self s y x g depth
    = Ok ((tiles, costs, entropy), gen').
Proof.
  intros Hwf Hpos Htemp Hcat.
  destruct (potential_states_spec self
              (neighbour_query (_use_8cardinals self) g y x) Hpos)
    as (tiles & probs & Hmap & _ & Hkeys & _).
  exists tiles. apply (cell_costs_progress _ _ _ _ _ _ _ probs Hwf Hmap Htemp).
  intros t Ht. apply Hkeys in Ht.
  rewrite <- list_fmap_compose in Ht. apply list_elem_of_fmap in Ht as ([p c] & -> & Hin).
  apply list_elem_of_filter in Hin as [_ Hin]. by apply (Hcat p c).
Qed.

Lemma cell_costs_value_error (self : Setup) (s : State) (y x : Z) (g : ndarray)
    (depth : nat) (tiles : list Z) (probabilities : list R) :
  wf_array g →
  map_to_probabilities
    (filter_super_tiles self (neighbour_query (_use_8cardinals self) g y x))
  = Ok (tiles, probabilities) →
  tiles ≠ [] →
  (100 <= _min_temperature s)%R →
  get_cell_potential_states_and_costs self s y x g depth = Raise ValueError.
Proof.
  intros Hwf Hmap Hne Htemp. unfold get_cell_potential_states_and_costs.
  pose proof (potential_states_query self g y x Hwf) as Hq.
  destruct (mapM _ (indices_around y x)) as [adj|] eqn:Hadj.
  2: { rewrite adjacent_states_ok in Hadj by done. done. }
  cbn [mbind result_bind] in Hq |- *. rewrite Hq, Hmap. clear Hq.
  cbn [mbind result_bind].
  rewrite bool_decide_eq_false_2 by (by destruct tiles).
  destruct (rng_random _ _) as [rands g1].
  rewrite (bool_decide_eq_true_2 (100 ≤ _)%Z); [done|].
  unfold float_to_int. rewrite bool_decide_eq_true_2 by lra.
  apply le_IZR. destruct (base_Int_part (_min_temperature s)) as [H1 H2].
  assert (99 < IZR (Int_part (_min_temperature s)))%R as Hlt by lra.
  apply lt_IZR in Hlt. apply IZR_le. lia.
Qed.

(** X13.  With a temperature of 100 or more, the cost model raises
    [ValueError] for every cell that has a candidate (the random draw of the
    temperature has an empty range). *)
Theorem cost_model_raises_at_100 (self : Setup) (s : State) (y x : Z) (g : ndarray)
    (depth : nat) :
  wf_array g →
  Forall (fun sc => 0 < sc.2)%Z (WFC_Sample.super_tile_data (_sample self)) →
  Forall (fun sc => length sc.1 = 9%nat) (WFC_Sample.super_tile_data (_sample self)) →
  (∃ pattern count, (pattern, count) ∈ WFC_Sample.super_tile_data (_sample self) ∧
     agrees (_use_8cardinals self) g y x pattern) →
  (100 <= _min_temperature s)%R →
  get_cell_potential_states_and_costs self s y x g depth = Raise ValueError.
Proof.
  intros Hwf Hpos Hlen (pattern & count & Hin & Hag) Htemp.
  destruct (potential_states_spec self
              (neighbour_query (_use_8cardinals self) g y x) Hpos)
    as (tiles & probs & Hmap & _ & Hkeys & _).
  apply (cell_costs_value_error _ _ _ _ _ _ tiles probs Hwf Hmap); [|done].
  assert (centre pattern ∈ tiles) as Hc.
  { apply Hkeys. rewrite <- list_fmap_compose. apply list_elem_of_fmap.
    exists (pattern, count). split; [done|]. apply list_elem_of_filter. split; [|done].
    rewrite Forall_forall in Hlen. apply is_possible_agrees; [|done].
    by apply (Hlen _ Hin). }
  intros ->. by apply elem_of_nil in Hc.
Qed.

End cost_progress.

(** ** Unique rows: [np_unique] *)

Section unique.

Import WFC_Sample.

Lemma lex_ltb_irrefl (a : list Z) : lex_ltb a a = false.
Proof.
  induction a as [|x a IH]; [done|]. simpl.
  rewrite !bool_decide_eq_false_2 by lia. done.
Qed.

Lemma lex_ltb_trans (a b c : list Z) :
  lex_ltb a b = true → lex_ltb b c = true → lex_ltb a c = true.
Proof.
  revert b c. induction a as [|x a IH]; intros [|y b] [|z c]; simpl; try done.
  destruct (decide (x < y)%Z) as [Hxy|Hxy];
    [rewrite (bool_decide_eq_true_2 _ Hxy)|rewrite (bool_decide_eq_false_2 _ Hxy)].
  - intros _. destruct (decide (y < z)%Z) as [Hyz|Hyz];
      [rewrite (bool_decide_eq_true_2 _ Hyz)|rewrite (bool_decide_eq_false_2 _ Hyz)].
    + intros _. by rewrite bool_decide_eq_true_2 by lia.
    + destruct (decide (z < y)%Z) as [Hzy|Hzy];
        [rewrite (bool_decide_eq_true_2 _ Hzy)|rewrite (bool_decide_eq_false_2 _ Hzy)];
        [done|].
      intros _. by rewrite bool_decide_eq_true_2 by lia.
  - destruct (decide (y < x)%Z) as [Hyx|Hyx];
      [rewrite (bool_decide_eq_true_2 _ Hyx)|rewrite (bool_decide_eq_false_2 _ Hyx)];
      [done|].
    intros Hab. assert (x = y) as -> by lia.
    destruct (decide (y < z)%Z) as [Hyz|Hyz];
      [rewrite (bool_decide_eq_true_2 _ Hyz)|rewrite (bool_decide_eq_false_2 _ Hyz)];
      [done|].
    destruct (decide (z < y)%Z) as [Hzy|Hzy];
      [rewrite (bool_decide_eq_true_2 _ Hzy)|rewrite (bool_decide_eq_false_2 _ Hzy)];
      [done|].
    by apply IH.
Qed.

Lemma lex_ltb_total (a b : list Z) :
  lex_ltb a b = false → a ≠ b → lex_ltb b a = true.
Proof.
  revert b. induction a as [|x a IH]; intros [|y b]; simpl; try done.
  destruct (decide (x < y)%Z) as [Hxy|Hxy];
    [rewrite (bool_decide_eq_true_2 _ Hxy)|rewrite (bool_decide_eq_false_2 _ Hxy)];
    [done|].
  destruct (decide (y < x)%Z) as [Hyx|Hyx];
    [rewrite (bool_decide_eq_true_2 _ Hyx)|rewrite (bool_decide_eq_false_2 _ Hyx)];
    [done|].
  intros Hab Hne. apply IH; [done|]. intros ->. apply Hne. f_equal. lia.
Qed.

Lemma keys_insert_count (row : list Z) (l : list (list Z * Z)) (k : list Z) :
  k ∈ (insert_count row l).*1 ↔ k = row ∨ k ∈ l.*1.
Proof.
  induction l as [|[u c] l IH]; simpl.
  - rewrite list_elem_of_singleton. rewrite elem_of_nil. tauto.
  - destruct (decide (row = u)) as [->|Hne];
      [rewrite bool_decide_eq_true_2 by done|rewrite bool_decide_eq_false_2 by done].
    + rewrite !fmap_cons, !elem_of_cons. simpl. tauto.
    + destruct (lex_ltb row u).
      * rewrite !fmap_cons, !elem_of_cons. simpl. tauto.
      * rewrite !fmap_cons, !elem_of_cons, IH. simpl. tauto.
Qed.

Lemma total_count_insert_count (row : list Z) (l : list (list Z * Z)) (k : list Z) :
  total_count k (insert_count row l)
  = (total_count k l + if bool_decide (row = k) then 1 else 0)%Z.
Proof.
  induction l as [|[u c] l IH]; simpl.
  - rewrite total_count_cons, total_count_nil. simpl. lia.
  - destruct (decide (row = u)) as [->|Hne];
      [rewrite bool_decide_eq_true_2 by done|rewrite bool_decide_eq_false_2 by done].
    + rewrite !total_count_cons. simpl. destruct (bool_decide (u = k)); lia.
    + destruct (lex_ltb row u).
      * rewrite !total_count_cons. simpl. lia.
      * rewrite !total_count_cons, IH. simpl. lia.
Qed.

Lemma sorted_insert_count (row : list Z) (l : list (list Z * Z)) :
  StronglySorted (fun a b => lex_ltb a.1 b.1 = true) l →
  StronglySorted (fun a b => lex_ltb a.1 b.1 = true) (insert_count row l).
Proof.
  induction 1 as [|[u c] l Hs IH Hall]; simpl.
  - repeat constructor.
  - destruct (decide (row = u)) as [->|Hne];
      [rewrite bool_decide_eq_true_2 by done|rewrite bool_decide_eq_false_2 by done].
    + by constructor.
    + destruct (lex_ltb row u) eqn:Hlt.
      * constructor; [by constructor|]. constructor; [done|].
        eapply Forall_impl; [exact Hall|]. simpl. intros a Ha.
        by eapply lex_ltb_trans.
      * constructor; [done|].
        apply Forall_forall. intros [k ck] Hk.
        apply (list_elem_of_fmap_2 fst) in Hk. simpl in Hk.
        apply keys_insert_count in Hk as [->|Hk].
        -- simpl. exact (lex_ltb_total _ _ Hlt Hne).
        -- apply list_elem_of_fmap in Hk as (a & -> & Ha).
           rewrite Forall_forall in Hall. exact (Hall _ Ha).
Qed.

Lemma sorted_NoDup (l : list (list Z * Z)) :
  StronglySorted (fun a b => lex_ltb a.1 b.1 = true) l → NoDup l.*1.
Proof.
  induction 1 as [|a l Hs IH Hall]; [constructor|].
  rewrite fmap_cons. constructor; [|done].
  intros Hin. apply list_elem_of_fmap in Hin as (b & Hb & Hin).
  rewrite Forall_forall in Hall. specialize (Hall _ Hin).
  rewrite Hb, lex_ltb_irrefl in Hall. done.
Qed.

(** [np.unique(rows, axis=0, return_counts=True)]: every row once, with
    the number of its occurrences. *)
Lemma np_unique_spec (rows : list (list Z)) :
  NoDup (np_unique rows).*1 ∧
  (∀ k, k ∈ (np_unique rows).*1 ↔ k ∈ rows) ∧
  (∀ k, total_count k (np_unique rows) = occurrences k rows).
Proof.
  split; [|split].
  - apply sorted_NoDup. unfold np_unique.
    induction rows as [|r rows IH]; simpl; [constructor|by apply sorted_insert_count].
  - intros k. unfold np_unique. induction rows as [|r rows IH]; simpl.
    + by rewrite !elem_of_nil.
    + rewrite keys_insert_count, IH, elem_of_cons. tauto.
  - intros k. unfold np_unique, occurrences.
    induction rows as [|r rows IH]; simpl; [done|].
    rewrite total_count_insert_count, IH, filter_cons.
    destruct (decide (r = k)) as [->|Hne].
    + rewrite bool_decide_eq_true_2 by done. simpl. lia.
    + rewrite bool_decide_eq_false_2 by done. lia.
Qed.

End unique.

(** ** The keys of the catalog *)

Section catalog_keys.
Context `{ext : Externals}.

Import WFC_Sample.

Lemma dict_of_fold {V} (ps : list (Z * V)) (m0 : gmap Z V) (k : Z) :
  foldl (fun m kv => <[kv.1 := kv.2]> m) m0 ps !! k
  = match last (filter (fun kv => kv.1 = k) ps) with
    | Some kv => Some kv.2
    | None => m0 !! k
    end.
Proof.
  induction ps as [|[k' v'] ps IH] using rev_ind; [done|].
  rewrite foldl_snoc, filter_app, filter_cons, filter_nil. simpl.
  destruct (decide (k' = k)) as [->|Hne].
  - by rewrite last_snoc, lookup_insert_eq.
  - rewrite app_nil_r, lookup_insert_ne by done. apply IH.
Qed.

Lemma dict_of_lookup {V} (ps : list (Z * V)) (k : Z) (v : V) :
  dict_of ps !! k = Some v → (k, v) ∈ ps.
Proof.
  unfold dict_of. rewrite dict_of_fold.
  destruct (last (filter _ ps)) as [[k' v']|] eqn:Hl; [|done].
  intros [= <-]. apply last_Some in Hl as [l' Hl].
  assert ((k', v') ∈ filter (fun kv : Z * V => kv.1 = k) ps) as Hin.
  { rewrite Hl. apply elem_of_app. right. left. }
  apply list_elem_of_filter in Hin as [Hk Hin]. simpl in Hk. by subst.
Qed.

Lemma dict_of_is_Some {V} (ps : list (Z * V)) (k : Z) :
  k ∈ ps.*1 → is_Some (dict_of ps !! k).
Proof.
  intros Hk. unfold dict_of. rewrite dict_of_fold.
  destruct (last (filter _ ps)) as [kv|] eqn:Hl; [by eexists|].
  apply last_None in Hl. apply list_elem_of_fmap in Hk as ([k' v] & Hk & Hin).
  simpl in Hk. subst k'.
  assert ((k, v) ∈ filter (fun kv : Z * V => kv.1 = k) ps) as Hf.
  { by apply list_elem_of_filter. }
  rewrite Hl in Hf. by apply elem_of_nil in Hf.
Qed.

Lemma dict_of_unique {V} (ps : list (Z * V)) (k : Z) (v : V) :
  (k, v) ∈ ps → (∀ v', (k, v') ∈ ps → v' = v) → dict_of ps !! k = Some v.
Proof.
  intros Hin Huniq. destruct (dict_of_is_Some ps k) as [v' Hv'].
  { by apply (list_elem_of_fmap_2 fst) in Hin. }
  rewrite Hv'. f_equal. apply Huniq. by apply dict_of_lookup.
Qed.

(** The catalog of one image. *)
Lemma prepare_catalog (img : image) (tw th : Z) :
  let td := (prepare img tw th).1.1 in
  (∀ k tile f, td !! k = Some (tile, f) →
     tile_to_hash tile = k ∧ tile ∈ img_tiles img) ∧
  (∀ tile, tile ∈ img_tiles img → is_Some (td !! tile_to_hash tile)).
Proof.
  unfold prepare. simpl. destruct (np_unique_spec (img_tiles img)) as (_ & Hkeys & _).
  split.
  - intros k tile f Hk. apply dict_of_lookup in Hk.
    apply list_elem_of_fmap in Hk as ([u c] & [= -> -> ->] & Huc). simpl.
    split; [done|]. apply Hkeys. by apply (list_elem_of_fmap_2 fst) in Huc.
  - intros tile Ht. apply dict_of_is_Some. apply Hkeys in Ht.
    apply list_elem_of_fmap in Ht as ([u c] & -> & Huc). simpl.
    rewrite <- list_fmap_compose. apply list_elem_of_fmap. by exists (u, c).
Qed.

Lemma merge_catalog (done : list image) (img : image) (tw th : Z)
    (td : gmap Z (list Z * R)) :
  catalog_of done td →
  catalog_of (done ++ [img]) (merge_tile_data td (prepare img tw th).1.1).
Proof.
  intros [Hc1 Hc2]. destruct (prepare_catalog img tw th) as [Hp1 Hp2].
  cbv zeta in Hp1, Hp2. split.
  - intros k tile f. rewrite lookup_merge_tile_data.
    destruct ((prepare img tw th).1.1 !! k) as [[t' f']|] eqn:Hnew.
    + destruct (Hp1 _ _ _ Hnew) as [Hh Hin].
      destruct (td !! k) as [[t0 f0]|]; simpl; intros [= <- <-];
        (split; [done|]); exists img; (split; [|done]); apply elem_of_app; right; left.
    + destruct (td !! k) as [[t0 f0]|] eqn:Hold; [|done]. simpl. intros [= <- <-].
      destruct (Hc1 _ _ _ Hold) as (Hh & img0 & Hi0 & Ht0). split; [done|].
      exists img0. split; [|done]. apply elem_of_app. by left.
  - intros img' tile Hin Ht. rewrite lookup_merge_tile_data.
    apply elem_of_app in Hin as [Hin|Hin].
    + destruct (Hc2 _ _ Hin Ht) as [[t0 f0] Hold]. rewrite Hold.
      destruct ((prepare img tw th).1.1 !! tile_to_hash tile) as [[t' f']|]; by eexists.
    + apply list_elem_of_singleton in Hin as ->. destruct (Hp2 _ Ht) as [[t' f'] Hnew].
      rewrite Hnew. destruct (td !! tile_to_hash tile) as [[t0 f0]|]; by eexists.
Qed.

Lemma merge_images_catalog (rest seen : list image) (tw th : Z) (self smp : t) :
  catalog_of seen (tile_data self) →
  merge_images rest tw th self = Ok smp →
  catalog_of (seen ++ rest) (tile_data smp) ∧ tile_dims smp = tile_dims self.
Proof.
  revert seen self. induction rest as [|img rest IH]; intros seen self Hc;
    cbn [merge_images].
  - intros [= <-]. by rewrite app_nil_r.
  - destruct (prepare img tw th) as [[rtd rstd] dims] eqn:Hprep.
    destruct (merge_tuples _ _) as [std|]; [|done]. cbn [mbind result_bind].
    intros Hm. pose proof (merge_catalog seen img tw th _ Hc) as Hc'.
    rewrite Hprep in Hc'. simpl in Hc'.
    destruct (IH (seen ++ [img])
                {| tile_data := merge_tile_data (tile_data self) rtd;
                   super_tile_data := std; tile_dims := tile_dims self |} Hc' Hm)
      as [Hcat Hdims].
    by rewrite <- app_assoc in Hcat.
Qed.

Lemma init_catalog (src_imgs : list image) (tw th : Z) (smp : t) :
  __init__ src_imgs tw th = Ok smp → catalog_of src_imgs (tile_data smp).
Proof.
  unfold __init__. destruct src_imgs as [|img0 rest]; [done|].
  cbn [head tail from_option mbind result_bind].
  destruct (prepare img0 tw th) as [[td std] dims] eqn:Hprep. intros Hm.
  assert (catalog_of [img0] td) as Hc0.
  { destruct (prepare_catalog img0 tw th) as [Hp1 Hp2]. rewrite Hprep in Hp1, Hp2.
    simpl in *. split.
    - intros k tile f Hk. destruct (Hp1 _ _ _ Hk) as [? ?]. split; [done|].
      exists img0. split; [left|done].
    - intros img tile ->%list_elem_of_singleton Ht. by apply Hp2. }
  by destruct (merge_images_catalog rest [img0] tw th
                 {| tile_data := td; super_tile_data := std; tile_dims := dims |}
                 smp Hc0 Hm).
Qed.

End catalog_keys.

(** ** Encoding and decoding images *)

Section catalog_theorems.
Context `{ext : Externals}.

Import WFC_Sample.

(** X25.  In a constructed catalog every key is the hash of the tile stored
    under it, a tile of one of the sample images; and every tile of every
    sample image has its key. *)
Theorem catalog_keys_hash_their_tiles (src_imgs : list image) (tw th : Z) (smp : t) :
  __init__ src_imgs tw th = Ok smp →
  (∀ (k : Z) (tile : list Z) (f : R), tile_data smp !! k = Some (tile, f) →
     tile_to_hash tile = k ∧ ∃ img, img ∈ src_imgs ∧ tile ∈ img_tiles img) ∧
  (∀ (img : image) (tile : list Z), img ∈ src_imgs → tile ∈ img_tiles img →
     is_Some (tile_data smp !! tile_to_hash tile)).
Proof. intros Hinit. exact (init_catalog _ _ _ _ Hinit). Qed.

(** X26.  Encoding one of the images the catalog was built from gives the
    grid of the hashes of the tiles of that image: no tile is unknown to
    the catalog. *)
Theorem own_images_encode_without_unknowns (src_imgs : list image) (tw th : Z)
    (smp : t) (img : image) :
  __init__ src_imgs tw th = Ok smp → img ∈ src_imgs →
  img_to_tile_encoded_world smp img
  = {| shape := size_in_tiles img; data := tile_to_hash <$> img_tiles img |}.
Proof.
  intros Hinit Hin. destruct (init_catalog _ _ _ _ Hinit) as [_ Hkeys].
  unfold img_to_tile_encoded_world. f_equal.
  rewrite <- list_fmap_compose. apply list_fmap_ext. intros i tile Hi. simpl.
  rewrite bool_decide_eq_true_2; [done|].
  apply (Hkeys img); [done|]. by eapply list_elem_of_lookup_2.
Qed.

(** X27.  With a constructed catalog in which no tile hashes to 0, decoding
    the encoding of an image gives, tile by tile, the stored tile with the
    hash of the image tile under a mask of 0 where the catalog knows the
    tile, and a black tile under a mask of 255 elsewhere. *)
Theorem encode_then_decode (src_imgs : list image) (tw th : Z) (smp : t) (img : image) :
  __init__ src_imgs tw th = Ok smp →
  tile_data smp !! 0%Z = None →
  let out := tile_encoded_to_img smp (img_to_tile_encoded_world smp img) in
  size_in_tiles out.1 = size_in_tiles img ∧
  ∀ (i : nat) (tile : list Z), img_tiles img !! i = Some tile →
    match tile_data smp !! tile_to_hash tile with
    | Some (stored, _) =>
        img_tiles out.1 !! i = Some stored ∧ out.2 !! i = Some 0%Z ∧
        tile_to_hash stored = tile_to_hash tile
    | None =>
        img_tiles out.1 !! i
        = Some (replicate (Z.to_nat ((tile_dims smp).1.1 * (tile_dims smp).1.2
                                     * (tile_dims smp).2)) 0%Z) ∧
        out.2 !! i = Some 255%Z
    end.
Proof.
  intros Hinit H0 out. destruct (init_catalog _ _ _ _ Hinit) as [Hhash _].
  unfold out, tile_encoded_to_img, img_to_tile_encoded_world.
  destruct (tile_dims smp) as [[h w] ch]. simpl. split; [done|].
  intros i tile Hi. rewrite !list_lookup_fmap, Hi. simpl.
  destruct (tile_data smp !! tile_to_hash tile) as [[stored f]|] eqn:Hk.
  - rewrite bool_decide_eq_true_2 by (by eexists). rewrite Hk. simpl.
    split; [done|]. split; [done|]. by destruct (Hhash _ _ _ Hk).
  - rewrite bool_decide_eq_false_2 by (by intros [? ?]). rewrite H0. done.
Qed.

Lemma range_nil (n : Z) : (n ≤ 0)%Z → range n = [].
Proof. intros Hn. unfold range. by replace (Z.to_nat n) with 0%nat by lia. Qed.

Lemma prepare_small (img : image) (tw th : Z) :
  ((size_in_tiles img).1 ≤ 2 ∨ (size_in_tiles img).2 ≤ 2)%Z →
  (prepare img tw th).1.2 = [].
Proof.
  intros Hsmall. unfold prepare. simpl.
  assert ((y ← range ((size_in_tiles img).1 - 2);
           x ← range ((size_in_tiles img).2 - 2);
           [window (tile_to_hash <$> img_tiles img) (size_in_tiles img).2 y x]) = [])
    as ->; [|done].
  destruct Hsmall as [Hh|Hw].
  - by rewrite (range_nil ((size_in_tiles img).1 - 2)) by lia.
  - rewrite (range_nil ((size_in_tiles img).2 - 2)) by lia.
    induction (range _) as [|y l IH]; [done|]. by rewrite bind_cons, IH.
Qed.

(** X28.  Building a catalog from two or more images, the first of which has
    fewer than three tiles in a dimension (hence no pattern), raises
    [IndexError]. *)
Theorem small_first_image_breaks_merge (img0 img1 : image) (rest : list image)
    (tw th : Z) :
  ((size_in_tiles img0).1 ≤ 2 ∨ (size_in_tiles img0).2 ≤ 2)%Z →
  __init__ (img0 :: img1 :: rest) tw th = Raise IndexError.
Proof.
  intros Hsmall. unfold __init__. cbn [head tail from_option mbind result_bind].
  pose proof (prepare_small img0 tw th Hsmall) as Hstd.
  destruct (prepare img0 tw th) as [[td std] dims]. simpl in Hstd. subst std.
  cbn [merge_images]. destruct (prepare img1 tw th) as [[rtd rstd] rdims].
  reflexivity.
Qed.

(** X29.  In the catalog of a single image, a tile whose hash no other tile
    of the image shares is stored with, as frequency, the number of its
    occurrences over the number of tiles of the image. *)
Theorem tile_frequency_is_share_of_image (img : image) (tw th : Z) (tile : list Z) :
  tile ∈ img_tiles img →
  (∀ other, other ∈ img_tiles img →
     tile_to_hash other = tile_to_hash tile → other = tile) →
  ∃ smp : t,
    __init__ [img] tw th = Ok smp ∧
    tile_data smp !! tile_to_hash tile
    = Some (tile, (IZR (occurrences tile (img_tiles img))
                   / IZR (Z.of_nat (length (img_tiles img))))%R).
Proof.
  intros Hin Hinj. unfold __init__. cbn [head tail from_option mbind result_bind].
  destruct (prepare img tw th) as [[td std] dims] eqn:Hprep. cbn [merge_images].
  eexists. split; [reflexivity|]. simpl.
  assert (td = (prepare img tw th).1.1) as -> by (by rewrite Hprep).
  unfold prepare. simpl.
  destruct (np_unique_spec (img_tiles img)) as (Hnd & Hkeys & Hcount).
  assert (tile ∈ (np_unique (img_tiles img)).*1) as Hk by (by apply Hkeys).
  apply list_elem_of_fmap in Hk as ([u c] & -> & Huc). simpl in *.
  assert (c = occurrences u (img_tiles img)) as ->.
  { rewrite <- Hcount. symmetry. by apply total_count_NoDup. }
  apply dict_of_unique.
  - apply list_elem_of_fmap. by exists (u, occurrences u (img_tiles img)).
  - intros v' Hv'. apply list_elem_of_fmap in Hv' as ([u' c'] & [= Hh ->] & Hu').
    simpl in *.
    assert (u' = u) as ->.
    { apply Hinj; [|done]. apply Hkeys. by apply (list_elem_of_fmap_2 fst) in Hu'. }
    f_equal. f_equal. f_equal.
    rewrite <- Hcount. symmetry. by apply total_count_NoDup.
Qed.

End catalog_theorems.

(** ** Resizing to whole tiles *)

Section adjust.

Import WFC_Sample.

Lemma py_round_div_pos (a b : Z) :
  (0 < b)%Z →
  ∃ n : Z, py_round_div a b = Ok n ∧ (2 * Z.abs (b * n - a) ≤ b)%Z ∧
           ((b * n)%Z = a ↔ Z.divide b a) ∧ (0 < n ↔ b < 2 * a)%Z.
Proof.
  intros Hb. unfold py_round_div.
  rewrite bool_decide_eq_false_2 by lia. rewrite (bool_decide_eq_true_2 (0 < b)%Z) by done.
  pose proof (Z.div_mod a b ltac:(lia)) as Hdm.
  pose proof (Z.mod_pos_bound a b Hb) as Hr.
  pose proof (Z.mod_divide a b ltac:(lia)) as Hdiv.
  assert (∀ q : Z, 0 < q → b ≤ b * q)%Z as Hpos by (intros; nia).
  assert (∀ q : Z, q < 0 → b * q ≤ - b)%Z as Hneg by (intros; nia).
  pose proof (Hpos (a `div` b)%Z) as Hp1. pose proof (Hneg (a `div` b)%Z) as Hn1.
  pose proof (Hpos (a `div` b + 1)%Z) as Hp2. pose proof (Hneg (a `div` b + 1)%Z) as Hn2.
  eexists. split; [reflexivity|].
  destruct (decide (2 * (a `mod` b) < b)%Z) as [H1|H1];
    [rewrite (bool_decide_eq_true_2 _ H1)|rewrite (bool_decide_eq_false_2 _ H1)].
  { split; [lia|]. split; [rewrite <- Hdiv; lia|].
    destruct (decide (a `div` b = 0)%Z) as [Hq|Hq]; [rewrite Hq in *|]; lia. }
  destruct (decide (b < 2 * (a `mod` b))%Z) as [H2|H2];
    [rewrite (bool_decide_eq_true_2 _ H2)|rewrite (bool_decide_eq_false_2 _ H2)].
  { split; [lia|]. split; [rewrite <- Hdiv; lia|].
    destruct (decide (a `div` b = 0)%Z) as [Hq|Hq]; [rewrite Hq in *|]; lia. }
  destruct (Z.even (a `div` b)) eqn:Heven.
  - split; [lia|]. split; [rewrite <- Hdiv; lia|].
    destruct (decide (a `div` b = 0)%Z) as [Hq|Hq]; [rewrite Hq in *|]; lia.
  - assert (a `div` b ≠ 0)%Z as Hq by (intros Hq; by rewrite Hq in Heven).
    split; [lia|]. split; [rewrite <- Hdiv; lia|]. lia.
Qed.

(** X30.  With positive tile sizes, [adjust_image_to_tile_size] copies an
    image whose sides are whole numbers of tiles and returns these numbers.
    Any other image is handed to [cv.resize]: when each side is more than
    half a tile, the adjusted sides are whole, positive numbers of tiles,
    each within half a tile of the side of the image; when a side is half a
    tile or less, it rounds to 0 tiles and [cv.resize] raises. *)
Theorem adjust_resizes_only_inexact_images (height width tile_height tile_width : Z) :
  (0 < tile_height)%Z → (0 < tile_width)%Z →
  (Z.divide tile_height height ∧ Z.divide tile_width width →
   adjust_image_to_tile_size (height, width) tile_height tile_width
   = Ok ((height, width), height `div` tile_height, width `div` tile_width)%Z) ∧
  (¬ (Z.divide tile_height height ∧ Z.divide tile_width width) →
   (tile_height < 2 * height)%Z → (tile_width < 2 * width)%Z →
   ∃ height_in_tiles width_in_tiles : Z,
     adjust_image_to_tile_size (height, width) tile_height tile_width
     = Ok ((tile_height * height_in_tiles, tile_width * width_in_tiles)%Z,
           height_in_tiles, width_in_tiles) ∧
     (0 < height_in_tiles)%Z ∧ (0 < width_in_tiles)%Z ∧
     (2 * Z.abs (tile_height * height_in_tiles - height) ≤ tile_height)%Z ∧
     (2 * Z.abs (tile_width * width_in_tiles - width) ≤ tile_width)%Z) ∧
  (¬ (Z.divide tile_height height ∧ Z.divide tile_width width) →
   (2 * height ≤ tile_height ∨ 2 * width ≤ tile_width)%Z →
   adjust_image_to_tile_size (height, width) tile_height tile_width
   = Raise Cv2Error).
Proof.
  intros Hth Htw. unfold adjust_image_to_tile_size. cbn [fst snd].
  destruct (py_round_div_pos height tile_height Hth) as (h & -> & Hh & Hhd & Hhp).
  destruct (py_round_div_pos width tile_width Htw) as (w & -> & Hw & Hwd & Hwp).
  cbn [mbind result_bind]. split; [|split].
  - intros [Hdh Hdw]. apply Hhd in Hdh. apply Hwd in Hdw.
    rewrite bool_decide_eq_false_2 by lia. cbn [mbind result_bind].
    assert (h = height `div` tile_height)%Z as <- by (apply Z.div_unique_exact; lia).
    assert (w = width `div` tile_width)%Z as <- by (apply Z.div_unique_exact; lia).
    done.
  - intros Hn Hhh Hww. exists h, w.
    rewrite bool_decide_eq_true_2 by (rewrite Hhd, Hwd; tauto).
    unfold cv_resize. cbn [fst snd].
    rewrite bool_decide_eq_false_2 by nia. cbn [mbind result_bind].
    split; [done|]. lia.
  - intros Hn Hsmall.
    rewrite bool_decide_eq_true_2 by (rewrite Hhd, Hwd; tauto).
    unfold cv_resize. cbn [fst snd].
    rewrite bool_decide_eq_true_2; [done|]. nia.
Qed.

End adjust.

(** * The theorems at concrete inputs

    The externals are instantiated with [example_externals]. *)

#[local] Existing Instance example_externals.

(** Two 1x1 images of one pixel each, tiled 1x1: the tile of the first
    image, absent from the second, is recorded with frequency 2. *)
Lemma absent_tile_frequency_doubled_witness :
  ∃ smp : WFC_Sample.t,
    WFC_Sample.__init__ [uniform_image [1%Z]; uniform_image [2%Z]] 1 1 = Ok smp ∧
    snd <$> WFC_Sample.tile_data smp !! tile_to_hash [1%Z] = Some 2%R ∧
    summed_frequency [(WFC_Sample.prepare (uniform_image [1%Z]) 1 1).1.1;
                      (WFC_Sample.prepare (uniform_image [2%Z]) 1 1).1.1]
                     (tile_to_hash [1%Z]) = 1%R.
Proof. apply (absent_tile_frequency_doubled [1%Z] [2%Z] 1 1). vm_compute. intros [=]. Defined.

(** A 1x1 starting grid whose only cell is decided. *)
Lemma prefilled_grid_crashes_constructor_witness :
  __init__ (kwargs_on (grid_1x1 7) None None) = Raise LinAlgError ∧
  ∀ fuel, generate_single fuel (kwargs_on (grid_1x1 7) None None) = Propagates LinAlgError.
Proof.
  apply (prefilled_grid_crashes_constructor (kwargs_on (grid_1x1 7) None None)).
  repeat constructor. intros [=].
Defined.

(** A 1x1 empty grid with a proxy that always reads true. *)
Lemma cancelled_before_first_expansion_witness :
  generate_single 1 (kwargs_on (grid_1x1 0) (Some (fun _ => true)) None) = Returns None.
Proof.
  destruct (init_poly (kwargs_on (grid_1x1 0) (Some (fun _ => true)) None))
    as (self & s0 & Hinit & _); [vm_compute; intros [=]|].
  apply (cancelled_before_first_expansion
           (kwargs_on (grid_1x1 0) (Some (fun _ => true)) None)
           (fun _ => true) self s0 0 false eq_refl eq_refl Hinit).
Defined.

(** Whatever the fuel, that cancelled run returns no grid. *)
Lemma cancelled_run_returns_no_grid :
  ¬ ∃ (fuel : nat) (g : ndarray),
      generate_single fuel (kwargs_on (grid_1x1 0) (Some (fun _ => true)) None)
      = Returns (Some g).
Proof.
  intros (fuel & g & Hrun). destruct fuel as [|fuel].
  - unfold generate_single in Hrun.
    destruct (__init__ _) as [[a s]|]; [|done]. done.
  - destruct (init_poly (kwargs_on (grid_1x1 0) (Some (fun _ => true)) None))
      as (self & s0 & Hinit & _); [vm_compute; intros [=]|].
    destruct (first_poll_interrupts
                (kwargs_on (grid_1x1 0) (Some (fun _ => true)) None)
                (fun _ => true) self s0 fuel eq_refl eq_refl Hinit) as [_ Hgen].
    rewrite Hgen in Hrun. done.
Qed.












(** On a 1x2 empty grid (T = 2, strength 1) the adjustment at depth 0 is 0,
    where strength x (1 - Q(0)/T) is 1. *)
Lemma depth_adjustment_counterexample :
  ∃ self s0, __init__ (kwargs_on grid_1x2 None None) = Ok (self, s0) ∧
    _tile_freq_adjustment_func self 0 = 0%R ∧
    ¬ claimed_depth_adjustment self 0.
Proof.
  destruct (init_poly (kwargs_on grid_1x2 None None))
    as (self & s0 & Hinit & Hpoly & HT & Hm); [vm_compute; intros [=]|].
  change (size_of _ - count_nonzero _)%Z with 2%Z in Hpoly, HT.
  change (max_freq_adjust _) with 1%R in Hm.
  exists self, s0. split; [done|].
  assert (_tile_freq_adjustment_func self 0 = 0%R) as H0.
  { unfold _tile_freq_adjustment_func. rewrite Hpoly, HT, Hm. unfold poly1d. lra. }
  split; [done|]. intros Hclaim.
  specialize (Hclaim (-2)%R 4%R 0%R). rewrite HT, Hm, H0 in Hclaim.
  unfold poly1d in Hclaim. lra.
Qed.

(** The same grid at depth 1, with Q(d) = -2 d^2 + 4 d. *)
Lemma depth_adjustment_formula_witness :
  ∃ self s0, __init__ (kwargs_on grid_1x2 None None) = Ok (self, s0) ∧
    _tile_freq_adjustment_func self 1
    = (1 * (poly1d (-2, 4, 0) 1 / 2))%R.
Proof.
  destruct (depth_adjustment_formula (kwargs_on grid_1x2 None None))
    as (self & s0 & Hinit & Hf); [vm_compute; reflexivity|].
  exists self, s0. split; [exact Hinit|].
  apply (Hf (-2) 4 0)%R; unfold poly1d;
    change (size_of _ - count_nonzero _)%Z with 2%Z; lra.
Defined.

(** On a 1x1 empty grid (T = 1), from temperature 50, an increase of the
    depth from 0 to 1 gives the capped ratio 0.9 and the temperature 5; the
    power law gives the ratio 1/80. *)
Lemma temperature_counterexample :
  ∃ self s0, __init__ (kwargs_on (grid_1x1 0) None None) = Ok (self, s0) ∧
    get_new_temperature self 50 1 0 = Ok 5%R ∧
    ¬ claimed_temperature self 50 1 0.
Proof.
  destruct (init_poly (kwargs_on (grid_1x1 0) None None))
    as (self & s0 & Hinit & _); [vm_compute; intros [=]|].
  destruct (init_fields _ _ _ Hinit) as (HT & _ & Hmin & Hmax).
  change (size_of _ - count_nonzero _)%Z with 1%Z in HT.
  change (min_min_temperature _) with 0%R in Hmin.
  change (max_min_temperature _) with 80%R in Hmax.
  exists self, s0. split; [done|].
  pose proof (temp_ratio_cases self 1 0) as Hr. cbv zeta in Hr.
  rewrite HT in Hr. specialize (Hr ltac:(done)).
  rewrite (bool_decide_eq_false_2 (1 = 0)%Z) in Hr by done.
  change (Z.abs (0 - 1) * 3)%Z with 3%Z in Hr.
  rewrite sqrt_1 in Hr. rewrite Rmin_left in Hr by lra.
  split.
  - unfold get_new_temperature. rewrite Hr. rsimpl.
    rewrite (bool_decide_eq_false_2 (1 ≤ 0)%Z) by lia. rewrite Hmin. f_equal. lra.
  - intros [Hc _]. unfold claimed_temperature in Hc. rewrite Hr, HT in Hc.
    rewrite bool_decide_eq_false_2 in Hc by lia.
    injection Hc as Hc. replace (1 / 1)%R with 1%R in Hc by lra.
    rewrite float_pow_one in Hc. lra.
Qed.

(** The ratio of the same step. *)
Lemma temperature_formula_witness :
  ∃ self s0, __init__ (kwargs_on (grid_1x1 0) None None) = Ok (self, s0) ∧
    temp_ratio self 1 0
    = Ok (Rmin (9 / 10) (IZR (Z.abs (0 - 1) * 3)
                         / sqrt (IZR (_number_of_tiles_to_process self)))).
Proof.
  destruct (init_poly (kwargs_on (grid_1x1 0) None None))
    as (self & s0 & Hinit & _ & HT & _); [vm_compute; intros [=]|].
  exists self, s0. split; [exact Hinit|].
  apply (temperature_formula self 50 1 0). rewrite HT. vm_compute. intros [=].
Defined.

(** On a 1x2 empty grid: with both cells open, apply then revert at (0, 0)
    drops (0, 1) from the frontier; with (0, 0) not open, apply raises
    [KeyError]. *)
Lemma apply_revert_counterexample :
  apply_action false (Some ((0, 0), 7))%Z (world_1x2 {[ (0, 0)%Z; (0, 1)%Z ]})
    ≫= revert_action false (Some ((0, 0), 7))%Z
  = Ok (world_1x2 {[ (0, 0)%Z ]}) ∧
  world_1x2 {[ (0, 0)%Z ]} ≠ world_1x2 {[ (0, 0)%Z; (0, 1)%Z ]} ∧
  apply_action false (Some ((0, 0), 7))%Z (world_1x2 {[ (0, 1)%Z ]}) = Raise KeyError.
Proof.
  split; [vm_compute; reflexivity|]. split; [|vm_compute; reflexivity].
  vm_compute. intros [=].
Qed.

(** The same grid with (0, 1) as the only open cell. *)
Lemma apply_revert_restores_witness :
  apply_action false (Some ((0, 1), 7))%Z (world_1x2 {[ (0, 1)%Z ]})
    ≫= revert_action false (Some ((0, 1), 7))%Z
  = Ok (world_1x2 {[ (0, 1)%Z ]}).
Proof.
  apply (apply_revert_restores false (world_1x2 {[ (0, 1)%Z ]}) (0, 1)%Z 7%Z).
  - vm_compute. repeat split; intros [=].
  - vm_compute. repeat split; intros [=].
  - vm_compute. reflexivity.
  - vm_compute. reflexivity.
  - vm_compute. eexists. reflexivity.
  - intros n Hn. apply elem_of_indices_to_check in Hn as [[Hy Hx] Hadj].
    unfold adjacent in Hadj. simpl in Hy, Hx, Hadj.
    assert (n = (0, 0)%Z) as -> by (destruct n as [a b]; simpl in *; f_equal; lia).
    split.
    + intros Hin. vm_compute in Hin. exfalso. set_solver.
    + intros [_ Hd]. apply decided_near_alt in Hd as (q & [Hqy Hqx] & _ & Hq).
      simpl in Hqy, Hqx. exfalso. apply Hq.
      destruct q as [a b]; simpl in *.
      assert (a = 0%Z) as -> by lia.
      assert (b = 0 ∨ b = 1)%Z as [-> | ->] by lia; reflexivity.
Defined.

(** The 2x4 starting grid with tiles 1 and 2 as the two placements. *)
Lemma round_trip_loses_open_cell_witness :
  get_world_state false (child24 1 (0, 3)%Z) (child24 2 (0, 1)%Z)
    (world_at [0; 0; 0; 7; 0; 0; 7; 7]%Z {[ (0, 0)%Z; (0, 1)%Z; (0, 2)%Z; (1, 1)%Z ]})
    ≫= get_world_state false (child24 2 (0, 1)%Z) (child24 1 (0, 3)%Z)
  = Ok (world_at [0; 0; 0; 7; 0; 0; 7; 7]%Z {[ (0, 1)%Z; (0, 2)%Z; (1, 1)%Z ]}).
Proof. apply (round_trip_loses_open_cell 1 2). intros [=]. Defined.

(** From the root of the 2x4 grid to its child at (0, 3). *)
Lemma counters_sum_to_depth_witness :
  sum_counts (_tile_counts (world_at [0; 0; 0; 7; 0; 0; 7; 7]%Z
                              {[ (0, 0)%Z; (0, 1)%Z; (0, 2)%Z; (1, 1)%Z ]}))
  = Z.of_nat (depth (child24 1 (0, 3)%Z)).
Proof.
  apply (counters_sum_to_depth false root24 (child24 1 (0, 3)%Z) world24).
  - reflexivity.
  - vm_compute. reflexivity.
  - vm_compute. reflexivity.
Defined.

(** The two cells of a 1x2 empty grid, one candidate tile each. *)
Lemma enumeration_restores_grid_witness :
  ∃ children : list Node,
    yield_children root24 0 0 grid_1x2
      [((0, 0)%Z, ([7%Z], Some [0%R], Some 0%R));
       ((0, 1)%Z, ([7%Z], Some [0%R], Some 0%R))]
    = Ok (grid_1x2, children) ∧
    length children = 2%nat.
Proof.
  destruct (enumeration_restores_grid root24 0 0 grid_1x2
              [((0, 0)%Z, ([7%Z], Some [0%R], Some 0%R));
               ((0, 1)%Z, ([7%Z], Some [0%R], Some 0%R))])
    as (children & Hy & Hc & _).
  - vm_compute. repeat split; intros [=].
  - repeat constructor; vm_compute; intros [=].
  - exists children. split; [exact Hy|]. rewrite Hc. reflexivity.
Defined.

(** ** Further properties at concrete inputs *)

Lemma apply_action_closes_cell_witness :
  ∃ w' : World,
    apply_action false (Some ((0, 1), 7))%Z (world_1x2 {[ (0, 1)%Z ]}) = Ok w' ∧
    getitem (_temp_world_state w') (0, 1)%Z = Ok 7%Z ∧
    (0, 0)%Z ∈ _temp_world_open_super_tiles w'.
Proof.
  destruct (apply_action_closes_cell false (world_1x2 {[ (0, 1)%Z ]}) (0, 1)%Z 7 0)
    as (w' & Happ & Hcell & _ & _ & Hopen).
  - vm_compute. repeat split; intros [=].
  - vm_compute. repeat split; intros [=].
  - vm_compute. reflexivity.
  - vm_compute. reflexivity.
  - exists w'. split; [exact Happ|]. split; [exact Hcell|].
    apply Hopen. right. split; [|split].
    + vm_compute. repeat split; intros [=].
    + vm_compute. reflexivity.
    + vm_compute. reflexivity.
Defined.

Lemma apply_action_not_open_raises_witness :
  apply_action false (Some ((0, 0), 7))%Z (world_1x2 {[ (0, 1)%Z ]}) = Raise KeyError.
Proof.
  apply apply_action_not_open_raises.
  - vm_compute. repeat split; intros [=].
  - vm_compute. repeat split; intros [=].
  - left. vm_compute. intros H. discriminate H.
Defined.

Lemma revert_action_reopens_cell_witness :
  ∃ w' : World,
    revert_action false (Some ((0, 3), 7))%Z
      (world_at [0; 0; 0; 7; 0; 0; 7; 7]%Z {[ (0, 2)%Z ]}) = Ok w' ∧
    getitem (_temp_world_state w') (0, 3)%Z = Ok 0%Z ∧
    _tile_counts w' = <[7%Z := (1 - 1)%Z]> {[ 7%Z := 1%Z ]}.
Proof.
  destruct (revert_action_reopens_cell false
              (world_at [0; 0; 0; 7; 0; 0; 7; 7]%Z {[ (0, 2)%Z ]}) (0, 3)%Z 7 7 1)
    as (w' & Hrev & Hcell & _ & Hcounts & _).
  - vm_compute. repeat split; intros [=].
  - vm_compute. repeat split; intros [=].
  - vm_compute. reflexivity.
  - vm_compute. reflexivity.
  - exists w'. split; [exact Hrev|]. split; [exact Hcell|exact Hcounts].
Defined.

Lemma revert_action_unknown_content_raises_witness :
  revert_action false (Some ((0, 0), 7))%Z (world_1x2 {[ (0, 0)%Z ]}) = Raise KeyError.
Proof.
  apply (revert_action_unknown_content_raises false _ (0, 0)%Z 7 0).
  - vm_compute. reflexivity.
  - vm_compute. reflexivity.
Defined.

(** the paths of the example nodes place tile 7 only *)
Lemma root24_tiles_nonzero : tiles_nonzero root24.
Proof.
  intros m pos t Hm Ha. cbn in Hm. apply list_elem_of_singleton in Hm. subst m.
  discriminate Ha.
Qed.

Lemma child24_tiles_nonzero (h : Z) (yx : coord) : tiles_nonzero (child24 h yx).
Proof.
  intros m pos t Hm Ha. cbn in Hm. apply elem_of_cons in Hm as [->|Hm].
  - injection Ha as _ <-. done.
  - apply list_elem_of_singleton in Hm. subst m. discriminate Ha.
Qed.

Lemma child_1x1_tiles_nonzero : tiles_nonzero child_1x1.
Proof.
  intros m pos t Hm Ha. cbn in Hm. apply elem_of_cons in Hm as [->|Hm].
  - injection Ha as _ <-. done.
  - apply list_elem_of_singleton in Hm. subst m. discriminate Ha.
Qed.

Lemma child_root_identity_sound (use8 : bool) (w0 : World) (h : Z) (yx : coord) :
  identity_sound use8 w0 (child24 h yx) root24.
Proof.
  intros p c Hp Hc Hd Hs. cbn in Hp, Hc. apply list_elem_of_singleton in Hc. subst c.
  apply elem_of_cons in Hp as [->|Hp]; [discriminate Hd|].
  apply list_elem_of_singleton in Hp. by subst p.
Qed.

Lemma seed_1x2_inv : world_inv false (world_1x2 ({[ (0, 1)%Z ]} ∪ ∅)).
Proof.
  apply (seed_world_inv false grid_1x2 {[ 7%Z := 0%Z ]}).
  - vm_compute. repeat split; intros [=].
  - repeat constructor.
  - reflexivity.
  - reflexivity.
Qed.

Lemma frontier_is_boundary_witness :
  ∃ w : World,
    world_of false (world_1x2 ({[ (0, 1)%Z ]} ∪ ∅)) (child24 1 (0, 1)%Z) = Ok w ∧
    ∀ c : coord, c ∈ _temp_world_open_super_tiles w ↔
      in_shape (_temp_world_state w) c ∧ getitem (_temp_world_state w) c = Ok 0%Z ∧
      decided_near false (_temp_world_state w) c.
Proof.
  eexists. split; [vm_compute; reflexivity|].
  apply (frontier_is_boundary false (world_1x2 ({[ (0, 1)%Z ]} ∪ ∅))
           (child24 1 (0, 1)%Z)).
  - exact seed_1x2_inv.
  - apply child24_tiles_nonzero.
  - vm_compute. lia.
  - vm_compute. reflexivity.
Defined.

Lemma get_world_state_keeps_counter_keys_witness :
  is_Some (_tile_counts (world_at [0; 0; 0; 7; 0; 0; 7; 7]%Z
                           {[ (0, 0)%Z; (0, 1)%Z; (0, 2)%Z; (1, 1)%Z ]}) !! 7%Z)
  ↔ is_Some (_tile_counts world24 !! 7%Z).
Proof.
  apply (get_world_state_keeps_counter_keys false root24 (child24 1 (0, 3)%Z)).
  vm_compute. reflexivity.
Defined.

Lemma materialize_round_trip_witness :
  ∃ wA : World,
    world_of false (world_1x2 ({[ (0, 1)%Z ]} ∪ ∅)) (child24 1 (0, 1)%Z) = Ok wA ∧
    get_world_state false (child24 1 (0, 1)%Z) root24 wA
      ≫= get_world_state false root24 (child24 1 (0, 1)%Z) = Ok wA.
Proof.
  eexists. split; [vm_compute; reflexivity|].
  apply (materialize_round_trip false (world_1x2 ({[ (0, 1)%Z ]} ∪ ∅))
           (child24 1 (0, 1)%Z) root24 _ (world_1x2 ({[ (0, 1)%Z ]} ∪ ∅))).
  - exact seed_1x2_inv.
  - apply child24_tiles_nonzero.
  - exact root24_tiles_nonzero.
  - apply child_root_identity_sound.
  - reflexivity.
  - vm_compute. reflexivity.
  - reflexivity.
Defined.

Lemma merge_tuples_sums_counts_witness :
  ∃ merged : list (list Z * Z),
    WFC_Sample.merge_tuples [(replicate 9 1%Z, 2%Z)]
      [(replicate 9 1%Z, 3%Z); (replicate 9 2%Z, 1%Z)] = Ok merged ∧
    (replicate 9 1%Z, 5%Z) ∈ merged.
Proof.
  destruct (merge_tuples_sums_counts [(replicate 9 1%Z, 2%Z)]
              [(replicate 9 1%Z, 3%Z); (replicate 9 2%Z, 1%Z)]
              (replicate 9 1%Z, 2%Z) eq_refl) as [Hok _].
  destruct Hok as (merged & Hm & _ & Hin).
  - intros pattern Hp. vm_compute in Hp.
    repeat (apply elem_of_cons in Hp as [->|Hp]; [reflexivity|]).
    by apply elem_of_nil in Hp.
  - exists merged. split; [exact Hm|]. apply Hin. split; [|vm_compute; reflexivity].
    left.
Defined.

Lemma potential_states_follow_patterns_witness :
  ∃ (tiles : list Z) (probabilities : list R),
    get_cell_potential_states_4cardinals (problem_on sample7 grid_1x2 None) 0 7 0 0
    = Ok (tiles, probabilities) ∧ NoDup tiles.
Proof.
  destruct (potential_states_follow_patterns (problem_on sample7 grid_1x2 None) false
              0 0 0 7 0 0 0 0) as (tiles & probs & Hq & Hnd & _).
  - repeat constructor.
  - exists tiles, probs. split; [exact Hq|exact Hnd].
Defined.

Lemma dead_end_has_no_children_witness :
  ∃ s' : State,
    expand (problem_on sample_without_patterns grid_1x2 None) root24 0
           (state_on (world_1x2 {[ (0, 1)%Z ]}) 50 (Some root24) (Some root24))
    = Ok ([], s') ∧
    world s' = world_1x2 {[ (0, 1)%Z ]}.
Proof.
  eexists. split; [vm_compute; reflexivity|].
  eapply (dead_end_has_no_children (problem_on sample_without_patterns grid_1x2 None)
            root24 0 (state_on (world_1x2 {[ (0, 1)%Z ]}) 50 (Some root24) (Some root24))).
  - vm_compute. repeat split; intros [=].
  - constructor.
  - vm_compute. reflexivity.
  - right. exists (0, 1)%Z. split; [vm_compute; reflexivity|].
    intros pattern count Hin. apply elem_of_nil in Hin. destruct Hin.
Defined.

Lemma temperature_stays_within_bounds_witness :
  ∃ new_temperature : R,
    get_new_temperature (problem_on sample7 grid_1x2 None) 50 1 0 = Ok new_temperature ∧
    (0 <= new_temperature <= 99)%R ∧
    (float_to_int new_temperature < 100)%Z.
Proof.
  destruct (temperature_stays_within_bounds (problem_on sample7 grid_1x2 None)
              50 1 0 0 99) as (t & Ht & Hb & Hi).
  - vm_compute. reflexivity.
  - vm_compute. split; intros [=].
  - simpl. lra.
  - simpl. lra.
  - lra.
  - exists t. split; [exact Ht|]. split; [exact Hb|]. apply Hi. lra.
Defined.

Lemma plateau_check_disabled_witness :
  ∃ (self : Setup) (s0 : State),
    __init__ kwargs_without_plateau = Ok (self, s0) ∧
    plateau_check self s0 = Ok (inr s0).
Proof.
  destruct (init_poly kwargs_without_plateau) as (self & s0 & Hinit & _);
    [vm_compute; intros [=]|].
  exists self, s0. split; [exact Hinit|].
  apply (plateau_check_disabled kwargs_without_plateau self s0 s0 Hinit).
  - vm_compute. intros [=].
  - vm_compute. intros [=].
Defined.

Lemma seed_1x1_inv : world_inv false (world_1x1 0 0 ({[ (0, 0)%Z ]} ∪ ∅)).
Proof.
  apply (seed_world_inv false (grid_1x1 0) {[ 7%Z := 0%Z ]}).
  - vm_compute. repeat split; intros [=].
  - repeat constructor.
  - reflexivity.
  - reflexivity.
Qed.

Lemma child_1x1_identity_sound (use8 : bool) (w0 : World) :
  identity_sound use8 w0 root24 child_1x1.
Proof.
  intros p c Hp Hc Hd Hs. cbn in Hp, Hc. apply list_elem_of_singleton in Hp. subst p.
  apply elem_of_cons in Hc as [->|Hc]; [discriminate Hd|].
  apply list_elem_of_singleton in Hc. by subst c.
Qed.

Lemma successors_leaves_world_of_node_witness :
  ∃ (wn : World) (children : list Node) (s' : State),
    world_of false (world_1x1 0 0 ({[ (0, 0)%Z ]} ∪ ∅)) child_1x1 = Ok wn ∧
    successors_body (problem_on sample7 (grid_1x1 0) None) child_1x1
      (state_on (world_1x1 0 0 ({[ (0, 0)%Z ]} ∪ ∅)) 50 (Some root24) (Some root24))
    = Ok (children, s') ∧
    world s' = wn ∧ _last_node s' = Some child_1x1.
Proof.
  eexists _, _, _. split; [vm_compute; reflexivity|].
  split; [vm_compute; reflexivity|].
  eapply (successors_leaves_world_of_node (problem_on sample7 (grid_1x1 0) None)
            (world_1x1 0 0 ({[ (0, 0)%Z ]} ∪ ∅)) root24 child_1x1 _
            (state_on (world_1x1 0 0 ({[ (0, 0)%Z ]} ∪ ∅)) 50 (Some root24) (Some root24))).
  - exact seed_1x1_inv.
  - exact root24_tiles_nonzero.
  - exact child_1x1_tiles_nonzero.
  - apply child_1x1_identity_sound.
  - reflexivity.
  - reflexivity.
  - reflexivity.
  - vm_compute. reflexivity.
  - vm_compute. lia.
  - vm_compute. reflexivity.
Defined.

Lemma best_node_is_deepest_expanded_witness :
  ∃ (children : list Node) (s' : State),
    successors_body (problem_on sample7 (grid_1x1 0) None) child_1x1
      (state_on (world_1x1 0 0 ({[ (0, 0)%Z ]} ∪ ∅)) 50 (Some root24) (Some root24))
    = Ok (children, s') ∧
    ∃ best' : Node,
      _best_node s' = Some best' ∧ (depth child_1x1 ≤ depth best')%nat ∧
      (best' = child_1x1 ∨
       (_best_node (state_on (world_1x1 0 0 ({[ (0, 0)%Z ]} ∪ ∅))
                      50 (Some root24) (Some root24)) = Some best' ∧
        (0 < depth child_1x1)%nat)) ∧
      ((_number_of_tiles_to_process (problem_on sample7 (grid_1x1 0) None)
        ≤ Z.of_nat (depth child_1x1))%Z →
       children = [] ∧ _stop s' = true).
Proof.
  eexists _, _. split; [vm_compute; reflexivity|].
  eapply (best_node_is_deepest_expanded (problem_on sample7 (grid_1x1 0) None)
            child_1x1
            (state_on (world_1x1 0 0 ({[ (0, 0)%Z ]} ∪ ∅)) 50 (Some root24) (Some root24))).
  vm_compute. reflexivity.
Defined.

Lemma solution_is_grid_of_best_node_witness :
  ∃ (self : Setup) (s0 : State),
    __init__ (kwargs_on grid_1x2 None None) = Ok (self, s0) ∧
    get_solution_state self (set_best_node (child24 1 (0, 1)%Z) s0)
    = Ok {| shape := (1, 2)%Z; data := [0; 7]%Z |}.
Proof.
  destruct (init_poly (kwargs_on grid_1x2 None None)) as (self & s0 & Hinit & _);
    [vm_compute; intros [=]|].
  exists self, s0. split; [exact Hinit|].
  destruct (init_dims _ _ _ Hinit) as [_ Huse].
  destruct (init_inv _ _ _ Hinit) as (_ & _ & _ & Hworld & _).
  change (use_8_cardinals (kwargs_on grid_1x2 None None)) with false in Huse.
  apply (solution_is_grid_of_best_node (kwargs_on grid_1x2 None None) self s0
           (set_best_node (child24 1 (0, 1)%Z) s0)
           (world_1x2 ({[ (0, 1)%Z ]} ∪ ∅))
           {| _temp_world_state := {| shape := (1, 2)%Z; data := [0; 7]%Z |};
              _tile_counts := <[7%Z := 1%Z]> {[ 7%Z := 0%Z ]};
              _temp_world_open_super_tiles := {[ (0, 0)%Z ]} |}
           (child24 1 (0, 1)%Z) Hinit).
  - vm_compute. repeat split; intros [=].
  - reflexivity.
  - rewrite Huse. exact seed_1x2_inv.
  - apply child24_tiles_nonzero.
  - rewrite Huse. vm_compute. reflexivity.
  - reflexivity.
  - cbn [world set_best_node]. rewrite Hworld. reflexivity.
Defined.

Lemma root_frontier_of_starting_grid_witness :
  ∃ w' : World,
    open_nodes_on_depth_zero (problem_on sample7 grid24 (Some grid24))
      {| _temp_world_state := grid24; _tile_counts := {[ 7%Z := 0%Z ]};
         _temp_world_open_super_tiles := ∅ |} = Ok w' ∧
    (0, 0)%Z ∈ _temp_world_open_super_tiles w'.
Proof.
  destruct (root_frontier_of_starting_grid (problem_on sample7 grid24 (Some grid24))
              {| _temp_world_state := grid24; _tile_counts := {[ 7%Z := 0%Z ]};
                 _temp_world_open_super_tiles := ∅ |} grid24)
    as (w' & Hopen & _ & _ & Hin).
  - reflexivity.
  - vm_compute. repeat split; intros [=].
  - reflexivity.
  - exists w'. split; [exact Hopen|]. apply Hin. right.
    split; [vm_compute; repeat split; intros [=]|].
    split; [vm_compute; reflexivity|].
    exists (1, 2)%Z. split; [vm_compute; reflexivity|].
    split; [vm_compute; repeat split; intros [=]|]. vm_compute. intros [=].
Defined.

Lemma empty_state_opens_centre_witness :
  ∃ (self : Setup) (s0 : State) (w : World),
    __init__ (kwargs_on grid_1x2 None None) = Ok (self, s0) ∧
    _number_of_tiles_to_process self = (1 * 2)%Z ∧
    _starting_state self = None ∧
    open_nodes_on_depth_zero self (world s0) = Ok w ∧
    _temp_world_open_super_tiles w = {[ (1 `div` 2, 2 `div` 2)%Z ]} ∧
    world_inv false w.
Proof.
  apply (empty_state_opens_centre 1 2 (kwargs_on grid_1x2 None None)).
  - lia.
  - lia.
  - vm_compute. reflexivity.
Defined.

Lemma gen_total_matches_inputs_witness :
  ∃ inputs : list Kwargs,
    WFC_GenParallel.per_gen_inputs gen_kwargs None None (fun _ => false) = Ok inputs ∧
    length inputs = 3%nat ∧
    WFC_GenParallel.total_tiles_to_proc gen_kwargs
    = Ok (foldr Z.add 0%Z
            ((fun kw_i => (size_of (starting_state kw_i)
                           - count_nonzero (starting_state kw_i))%Z) <$> inputs)).
Proof.
  destruct (gen_total_matches_inputs gen_kwargs None None (fun _ => false))
    as (inputs & Hin & Hlen & _ & Htotal); try (intros [=]).
  exists inputs. split; [exact Hin|]. split; [exact Hlen|exact Htotal].
Defined.

Lemma catalog_keys_hash_their_tiles_witness :
  ∃ smp : WFC_Sample.t,
    WFC_Sample.__init__ [one_tile_image [1%Z]] 1 1 = Ok smp ∧
    is_Some (WFC_Sample.tile_data smp !! tile_to_hash [1%Z]).
Proof.
  eexists. split; [vm_compute; reflexivity|].
  eapply (catalog_keys_hash_their_tiles [one_tile_image [1%Z]] 1 1).
  - vm_compute. reflexivity.
  - left.
  - left.
Defined.

Lemma own_images_encode_without_unknowns_witness :
  ∃ smp : WFC_Sample.t,
    WFC_Sample.__init__ [uniform_image [1%Z]] 1 1 = Ok smp ∧
    WFC_Sample.img_to_tile_encoded_world smp (uniform_image [1%Z])
    = {| shape := (3, 3)%Z; data := replicate 9 (tile_to_hash [1%Z]) |}.
Proof.
  eexists. split; [vm_compute; reflexivity|].
  eapply (own_images_encode_without_unknowns [uniform_image [1%Z]] 1 1 _
            (uniform_image [1%Z])).
  - vm_compute. reflexivity.
  - left.
Defined.

Lemma encode_then_decode_witness :
  ∃ smp : WFC_Sample.t,
    WFC_Sample.__init__ [one_tile_image [1%Z]] 1 1 = Ok smp ∧
    WFC_Sample.size_in_tiles
      (WFC_Sample.tile_encoded_to_img smp
         (WFC_Sample.img_to_tile_encoded_world smp (one_tile_image [2%Z]))).1
    = (1, 1)%Z.
Proof.
  eexists. split; [vm_compute; reflexivity|].
  eapply (encode_then_decode [one_tile_image [1%Z]] 1 1 _ (one_tile_image [2%Z])).
  - vm_compute. reflexivity.
  - vm_compute. reflexivity.
Defined.

Lemma small_first_image_breaks_merge_witness :
  WFC_Sample.__init__ [one_tile_image [1%Z]; one_tile_image [2%Z]] 1 1
  = Raise IndexError.
Proof.
  apply (small_first_image_breaks_merge (one_tile_image [1%Z]) (one_tile_image [2%Z]) []).
  left. simpl. lia.
Defined.

Lemma tile_frequency_is_share_of_image_witness :
  ∃ smp : WFC_Sample.t,
    WFC_Sample.__init__ [uniform_image [1%Z]] 1 1 = Ok smp ∧
    WFC_Sample.tile_data smp !! tile_to_hash [1%Z]
    = Some ([1%Z], (IZR (occurrences [1%Z] (replicate 9 [1%Z]))
                    / IZR (Z.of_nat (length (replicate 9 [1%Z]))))%R).
Proof.
  apply (tile_frequency_is_share_of_image (uniform_image [1%Z]) 1 1 [1%Z]).
  - left.
  - intros other Hin _. change (other ∈ replicate 9 [1%Z]) in Hin.
    by apply elem_of_replicate in Hin as [-> _].
Defined.

Lemma adjust_resizes_only_inexact_images_witness :
  WFC_Sample.adjust_image_to_tile_size (64, 64)%Z 32 32 = Ok ((64, 64), 2, 2)%Z ∧
  (∃ height_in_tiles width_in_tiles : Z,
     WFC_Sample.adjust_image_to_tile_size (64, 50)%Z 32 32
     = Ok ((32 * height_in_tiles, 32 * width_in_tiles)%Z,
           height_in_tiles, width_in_tiles) ∧
     (2 * Z.abs (32 * width_in_tiles - 50) ≤ 32)%Z) ∧
  WFC_Sample.adjust_image_to_tile_size (16, 64)%Z 32 32 = Raise Cv2Error.
Proof.
  split; [|split].
  - apply (adjust_resizes_only_inexact_images 64 64 32 32); [lia|lia|].
    split; [by exists 2%Z|by exists 2%Z].
  - destruct (adjust_resizes_only_inexact_images 64 50 32 32) as (_ & Hresize & _);
      [lia|lia|].
    destruct Hresize as (h & w & Ha & _ & _ & _ & Hw); [|lia|lia|].
    + intros [_ [k Hk]]. lia.
    + exists h, w. split; [exact Ha|exact Hw].
  - apply (adjust_resizes_only_inexact_images 16 64 32 32); [lia|lia| |lia].
    intros [[k Hk] _]. lia.
Defined.

(** the candidates of the cell (0, 1) of the empty 1 x 2 grid *)
Lemma cell_0_1_candidates :
  ∃ (tiles : list Z) (probabilities : list R),
    map_to_probabilities
      (filter_super_tiles (problem_on sample7 grid_1x2 None)
         (neighbour_query false grid_1x2 0 1))
    = Ok (tiles, probabilities) ∧
    ∀ t, t ∈ tiles → t = 7%Z.
Proof.
  destruct (potential_states_spec (problem_on sample7 grid_1x2 None)
              (neighbour_query false grid_1x2 0 1))
    as (tiles & probs & Hmap & _ & Hkeys & _); [repeat constructor|].
  exists tiles, probs. split; [exact Hmap|].
  intros t Ht. apply Hkeys in Ht. vm_compute in Ht.
  apply list_elem_of_singleton in Ht. exact Ht.
Qed.

Lemma cell_0_1_costs (temperature : R) :
  (temperature < 100)%R →
  ∃ (tiles : list Z) (costs : option (list R)) (entropy : option R)
    (gen' : Generator),
    get_cell_potential_states_and_costs (problem_on sample7 grid_1x2 None)
      (state_on (world_1x2 {[ (0, 1)%Z ]}) temperature (Some root24) (Some root24))
      0 1 grid_1x2 0
    = Ok ((tiles, costs, entropy), gen').
Proof.
  intros Htemp. destruct cell_0_1_candidates as (tiles & probs & Hmap & Hseven).
  exists tiles.
  apply (cell_costs_progress (problem_on sample7 grid_1x2 None) _ 0 1 grid_1x2 0
           tiles probs).
  - vm_compute. repeat split; intros [=].
  - exact Hmap.
  - exact Htemp.
  - intros t Ht. rewrite (Hseven t Ht). split; vm_compute; eexists; reflexivity.
Qed.

Lemma cell_candidates_agree_with_neighbours_witness :
  ∃ (tiles : list Z) (costs : option (list R)) (entropy : option R)
    (gen' : Generator),
    get_cell_potential_states_and_costs (problem_on sample7 grid_1x2 None)
      (state_on (world_1x2 {[ (0, 1)%Z ]}) 50 (Some root24) (Some root24))
      0 1 grid_1x2 0
    = Ok ((tiles, costs, entropy), gen') ∧
    ∀ t : Z, t ∈ tiles ↔
      ∃ (pattern : list Z) (count : Z),
        (pattern, count) ∈ WFC_Sample.super_tile_data sample7 ∧
        agrees false grid_1x2 0 1 pattern ∧ pattern !! 4%nat = Some t.
Proof.
  destruct (cell_0_1_costs 50 ltac:(lra)) as (tiles & costs & entropy & gen' & Hcell).
  exists tiles, costs, entropy, gen'. split; [exact Hcell|].
  apply (cell_candidates_agree_with_neighbours (problem_on sample7 grid_1x2 None)
           (state_on (world_1x2 {[ (0, 1)%Z ]}) 50 (Some root24) (Some root24))
           0 1 grid_1x2 0 tiles costs entropy gen').
  - vm_compute. repeat split; intros [=].
  - repeat constructor.
  - exact Hcell.
Defined.

Lemma costs_within_entropy_witness :
  ∃ (tiles : list Z) (costs : option (list R)) (entropy : option R)
    (gen' : Generator),
    get_cell_potential_states_and_costs (problem_on sample7 grid_1x2 None)
      (state_on (world_1x2 {[ (0, 1)%Z ]}) 50 (Some root24) (Some root24))
      0 1 grid_1x2 0
    = Ok ((tiles, costs, entropy), gen') ∧
    match costs, entropy with
    | Some cs, Some e =>
        tiles ≠ [] ∧ (0 <= e)%R ∧ Forall (fun c => 0 <= c <= e)%R cs ∧
        (length tiles = 1%nat → e = 0%R)
    | None, None =>
        tiles = [] ∧
        gen' = rng (state_on (world_1x2 {[ (0, 1)%Z ]}) 50 (Some root24) (Some root24))
    | _, _ => False
    end.
Proof.
  destruct (cell_0_1_costs 50 ltac:(lra)) as (tiles & costs & entropy & gen' & Hcell).
  exists tiles, costs, entropy, gen'. split; [exact Hcell|].
  apply (costs_within_entropy (problem_on sample7 grid_1x2 None)
           (state_on (world_1x2 {[ (0, 1)%Z ]}) 50 (Some root24) (Some root24))
           0 1 grid_1x2 0 tiles costs entropy gen').
  - vm_compute. repeat split; intros [=].
  - repeat constructor.
  - exact Hcell.
Defined.

Lemma cost_model_returns_below_100_witness :
  ∃ (tiles : list Z) (costs : option (list R)) (entropy : option R)
    (gen' : Generator),
    get_cell_potential_states_and_costs (problem_on sample7 grid_1x2 None)
      (state_on (world_1x2 {[ (0, 1)%Z ]}) 50 (Some root24) (Some root24))
      0 1 grid_1x2 0
    = Ok ((tiles, costs, entropy), gen').
Proof.
  apply (cost_model_returns_below_100 (problem_on sample7 grid_1x2 None)
           (state_on (world_1x2 {[ (0, 1)%Z ]}) 50 (Some root24) (Some root24))
           0 1 grid_1x2 0).
  - vm_compute. repeat split; intros [=].
  - repeat constructor.
  - simpl. lra.
  - intros pattern count Hin. apply list_elem_of_singleton in Hin.
    injection Hin as -> ->. split; vm_compute; eexists; reflexivity.
Defined.

Lemma cost_model_raises_at_100_witness :
  get_cell_potential_states_and_costs (problem_on sample7 grid_1x2 None)
    (state_on (world_1x2 {[ (0, 1)%Z ]}) 100 (Some root24) (Some root24))
    0 1 grid_1x2 0
  = Raise ValueError.
Proof.
  apply (cost_model_raises_at_100 (problem_on sample7 grid_1x2 None)
           (state_on (world_1x2 {[ (0, 1)%Z ]}) 100 (Some root24) (Some root24))
           0 1 grid_1x2 0).
  - vm_compute. repeat split; intros [=].
  - repeat constructor.
  - repeat constructor.
  - exists (replicate 9 7%Z), 1%Z. split; [left|].
    apply is_possible_agrees; [reflexivity|]. vm_compute. reflexivity.
  - simpl. lra.
Defined.
